(** * IPAddress (Go port): the address-value engine

    A shallow embedding of the parts of [ipaddr] that build sections
    from bytes and segment values, assign prefix lengths, classify
    prefix masks, mask ranged segments, convert addresses to sequential
    ranges and lazily create parsed addresses.

    Go integers are embedded as [Z]: [BitCount] and slice indices are
    Go [int] (no property here reaches their 64-bit limits), [SegInt] is
    [uint32] and its wrap-around is written out where the source shifts
    or narrows a value. A nil pointer or nil function value is [None].  *)

From Stdlib Require Import String ZArith List Bool Lia.
From Stdlib.Strings Require Import Byte.
Import ListNotations.
Open Scope Z_scope.

(** ** Outcomes of fallible code *)

(** The error kinds of the library; the Go source distinguishes them by
    message key. *)
Inductive errorKind : Type :=
| SizeMismatch            (* ipaddress.error.sizeMismatch *)
| PrefixLengthOutOfRange  (* ipaddress.error.prefixSize *)
| ValueExceedsSize        (* ipaddress.error.exceeds.size *)
| MaskRangeIncompatible.  (* ipaddress.error.maskMismatch *)

(** What a call can do: return, return an error value, panic (index out
    of range, call of a nil function value), or exhaust the iteration
    budget given to a loop whose termination is not structural. *)
Inductive outcome (A : Type) : Type :=
| Ok (a : A)
| Err (e : errorKind)
| Panic
| OutOfFuel.

Arguments Ok {A} a.
Arguments Err {A} e.
Arguments Panic {A}.
Arguments OutOfFuel {A}.

Definition bind {A B : Type} (m : outcome A) (k : A -> outcome B) : outcome B :=
  match m with
  | Ok a => k a
  | Err e => Err e
  | Panic => Panic
  | OutOfFuel => OutOfFuel
  end.

Notation "x <- m ;; k" := (bind m (fun x => k))
  (at level 61, m at next level, right associativity).

(** ** Scalars *)

Definition BitCount := Z.
Definition PrefixLen := option BitCount.
Definition SegInt := Z.

(** [SegInt(x)]: narrowing to [uint32]. *)
Definition toSegInt (x : Z) : SegInt := x mod 2 ^ 32.

(** [value <<= 8] followed by [value |= b] on a [SegInt]. *)
Definition shiftInByte (value : SegInt) (b : Z) : SegInt :=
  Z.lor (toSegInt (Z.shiftl value 8)) b.

(** Modelled from the spec: [PrefixEquals] is not in the sources; two
    optional prefix lengths are equal when both are absent or both are
    the same number. *)
Definition PrefixEquals (one two : PrefixLen) : bool :=
  match one, two with
  | None, None => true
  | Some a, Some b => a =? b
  | _, _ => false
  end.

(** Slice indexing [s[i]]: out of range panics. *)
Definition indexAt {A : Type} (s : list A) (i : Z) : outcome A :=
  if (i <? 0) then Panic
  else match nth_error s (Z.to_nat i) with
       | Some a => Ok a
       | None => Panic
       end.

(** Slice assignment [s[i] = a]: out of range panics. *)
Fixpoint setNth {A : Type} (s : list A) (n : nat) (a : A) : list A :=
  match s, n with
  | [], _ => []
  | _ :: t, O => a :: t
  | h :: t, S n' => h :: setNth t n' a
  end.

Definition assign {A : Type} (s : list A) (i : Z) (a : A) : outcome (list A) :=
  if (i <? 0) || (Z.of_nat (length s) <=? i) then Panic
  else Ok (setNth s (Z.to_nat i) a).

(** The [n] consecutive integers from [i] on. *)
Definition zrange (i : Z) (n : nat) : list Z :=
  map (fun k => i + Z.of_nat k) (seq 0 n).

(** ** Family constants (ipv4addr.go, ipv6addr.go) *)

Definition IPv4BitsPerSegment : BitCount := 8.
Definition IPv4BytesPerSegment : Z := 1.
Definition IPv4SegmentCount : Z := 4.
Definition IPv4BitCount : BitCount := 32.
Definition IPv4MaxValuePerSegment : SegInt := 255.

Definition IPv6BitsPerSegment : BitCount := 16.
Definition IPv6BytesPerSegment : Z := 2.
Definition IPv6SegmentCount : Z := 8.
Definition IPv6MaxValuePerSegment : SegInt := 65535.

Definition Zone := string.
Definition NoZone : Zone := EmptyString.

(** ** Divisions (segments) *)

(** The three [divisionValues] implementations that back a segment. *)
Inductive segKind : Type := ipv4Seg | ipv6Seg | macSeg.

(** A segment as a value object: its [divisionValues] (lower value,
    upper value, division prefix length) and the kind that fixes its
    width. *)
Record AddressDivision : Type := mkDivision {
  kind : segKind;
  value : SegInt;
  upperValue : SegInt;
  divisionPrefixLength : PrefixLen
}.

(** [GetBitCount] (macsegment.go:116 for MAC, which returns
    [IPv4BitsPerSegment]). Modelled from the spec: the IPv4 and IPv6
    ones are not in the sources; table 6.4 gives 8 and 16 bits. *)
Definition GetBitCount (seg : AddressDivision) : BitCount :=
  match kind seg with
  | ipv4Seg => IPv4BitsPerSegment
  | ipv6Seg => IPv6BitsPerSegment
  | macSeg => IPv4BitsPerSegment
  end.

(** [GetByteCount] (macsegment.go:120 for MAC). Modelled from the spec:
    the IPv4 and IPv6 ones are not in the sources; table 6.4 gives 1
    and 2 bytes. *)
Definition GetByteCount (seg : AddressDivision) : Z :=
  match kind seg with
  | ipv4Seg => IPv4BytesPerSegment
  | ipv6Seg => IPv6BytesPerSegment
  | macSeg => IPv4BytesPerSegment
  end.

(** [GetMaxValue] (macsegment.go:124 for MAC). Modelled from the spec:
    the IPv4 and IPv6 ones are not in the sources; table 6.4 gives 0xff
    and 0xffff. *)
Definition GetMaxValue (seg : AddressDivision) : SegInt :=
  match kind seg with
  | ipv4Seg => IPv4MaxValuePerSegment
  | ipv6Seg => IPv6MaxValuePerSegment
  | macSeg => 255
  end.

(** [getSegmentValue] and [getUpperSegmentValue] of the division
    values (macsegment.go:65-71). *)
Definition GetSegmentValue (seg : AddressDivision) : SegInt := value seg.
Definition GetUpperSegmentValue (seg : AddressDivision) : SegInt := upperValue seg.

(** [isMultiple] of the division values (macsegment.go:29). *)
Definition isMultipleSeg (seg : AddressDivision) : bool :=
  negb (value seg =? upperValue seg).

(** ** Prefix arithmetic *)

(** Modelled from the spec: [getPrefixedSegmentPrefixLength] is not in
    the sources. Section 3.2: the per-segment prefix lengths are
    attached to and only to segments at and beyond the network/host
    boundary; section 3.1: a segment prefix lies in [0, bits] or is
    absent. A segment wholly on the host side has prefix 0, the segment
    holding the last network bit has the number of its network bits
    (all of them when the boundary falls between two segments, as
    [normalizePrefixBoundary] in ipsection.go expects), and a segment
    before it has none. *)
Definition getPrefixedSegmentPrefixLength
    (bitsPerSegment prefixLength : BitCount) (segmentIndex : Z) : PrefixLen :=
  let divisionPrefixedBits := prefixLength - segmentIndex * bitsPerSegment in
  if divisionPrefixedBits <=? 0 then Some 0
  else if divisionPrefixedBits <=? bitsPerSegment then Some divisionPrefixedBits
  else None.

(** Modelled from the spec: [getSegmentPrefixLength] is not in the
    sources; it is [getPrefixedSegmentPrefixLength] for a prefix length
    that may be absent. *)
Definition getSegmentPrefixLength
    (bitsPerSegment : BitCount) (prefixLength : PrefixLen) (segmentIndex : Z)
    : PrefixLen :=
  match prefixLength with
  | None => None
  | Some p => getPrefixedSegmentPrefixLength bitsPerSegment p segmentIndex
  end.

(** Modelled from the spec: [getNetworkSegmentIndex] is not in the
    sources; the index of the segment holding the last network bit,
    -1 for prefix length 0 (ipsection.go:701 tests the result against
    0). *)
Definition getNetworkSegmentIndex
    (networkPrefixLength : BitCount) (bytesPerSegment : Z)
    (bitsPerSegment : BitCount) : Z :=
  (networkPrefixLength - 1) / bitsPerSegment.

(** Modelled from the spec: [getNetworkPrefixLength] is not in the
    sources; the section prefix length given by a segment prefix length
    at a segment index. *)
Definition getNetworkPrefixLength
    (bitsPerSegment segmentPrefixLength : BitCount) (segmentIndex : Z)
    : PrefixLen :=
  Some (segmentIndex * bitsPerSegment + segmentPrefixLength).

(** ** Segment creators *)

(** The [AddressSegmentCreator] interface, as far as the section
    builders use it. *)
Class AddressSegmentCreator : Type := {
  createSegment : SegInt -> SegInt -> PrefixLen -> AddressDivision
}.

(** [MACSegInt(x)]: narrowing to [uint8] (macsegment.go:7). *)
Definition toMACSegInt (x : Z) : Z := x mod 256.

(** [newMACSegmentVal] and [newMACSegmentValues] (macsegment.go:271-288).
    The interned table [segmentCacheMAC] holds at index [v] the values
    [(v, v)], and [allRangeValsMAC] is [(0, 0xff)]; MAC segments carry
    no prefix length ([getDivisionPrefixLength] returns nil). *)
Definition newMACSegmentVal (v : Z) : AddressDivision :=
  mkDivision macSeg v v None.

Definition allRangeValsMAC : AddressDivision := mkDivision macSeg 0 255 None.

Definition newMACSegmentValues (v upper : Z) : AddressDivision :=
  if v =? upper then newMACSegmentVal v
  else if (v =? 0) && (upper =? 255) then allRangeValsMAC
  else mkDivision macSeg v upper None.

(** [macSegmentValues.deriveNewMultiSeg] (macsegment.go:91). *)
Definition deriveNewMultiSegMAC (val upperVal : SegInt) (_ : PrefixLen)
    : AddressDivision :=
  newMACSegmentValues (toMACSegInt val) (toMACSegInt upperVal).

(** Modelled from the spec: the MAC creator is not in the sources; it
    builds the segment with the given low and upper values (section
    3.1) through [NewMACRangeSegment], narrowing them to [MACSegInt] as
    [deriveNewMultiSeg] does. *)
Definition macCreator : AddressSegmentCreator := {|
  createSegment lower upper _ :=
    newMACSegmentValues (toMACSegInt lower) (toMACSegInt upper)
|}.

(** Modelled from the spec: the IPv4 and IPv6 creators are not in the
    sources; they build the segment with the given low value, upper
    value and segment prefix (section 3.1), narrowed to the segment
    width. *)
Definition ipv4Creator : AddressSegmentCreator := {|
  createSegment lower upper prefLen :=
    mkDivision ipv4Seg (lower mod 256) (upper mod 256) prefLen
|}.

(** Modelled from the spec: the IPv6 creator, as the IPv4 one. *)
Definition ipv6Creator : AddressSegmentCreator := {|
  createSegment lower upper prefLen :=
    mkDivision ipv6Seg (lower mod 65536) (upper mod 65536) prefLen
|}.

(** ** Building segments from values (ipsection.go:838-868) *)

(** A [SegmentValueProvider] is a function value and may be nil. *)
Definition SegmentValueProvider := option (Z -> SegInt).

Definition callProvider (p : SegmentValueProvider) (i : Z) : outcome SegInt :=
  match p with
  | None => Panic
  | Some f => Ok (f i)
  end.

(** Modelled from the spec: [createSegmentArray] is not in the sources;
    it makes the slice of [n] segment pointers, all nil, that its
    callers fill by index. Making a slice of negative length panics. *)
Definition createSegmentArray (segmentCount : Z)
    : outcome (list (option AddressDivision)) :=
  if segmentCount <? 0 then Panic
  else Ok (repeat None (Z.to_nat segmentCount)).

(** The loop of [createSegments]; [n] counts the iterations left. *)
Fixpoint createSegments_loop {creator : AddressSegmentCreator}
    (lowerValueProvider upperValueProvider : SegmentValueProvider)
    (bitsPerSegment : BitCount) (prefixLength : PrefixLen)
    (n : nat) (segmentIndex : Z)
    (segments : list (option AddressDivision)) (isMultiple : bool)
    : outcome (list (option AddressDivision) * bool) :=
  match n with
  | O => Ok (segments, isMultiple)
  | S n' =>
    let segmentPrefixLength :=
      getSegmentPrefixLength bitsPerSegment prefixLength segmentIndex in
    vals <- match lowerValueProvider with
            | None =>
              v <- callProvider upperValueProvider segmentIndex ;;
              Ok (v, v, isMultiple)
            | Some _ =>
              v <- callProvider lowerValueProvider segmentIndex ;;
              match upperValueProvider with
              | Some _ =>
                v2 <- callProvider upperValueProvider segmentIndex ;;
                Ok (v, v2,
                    if negb isMultiple && negb (v2 =? v) then true
                    else isMultiple)
              | None => Ok (v, v, isMultiple)
              end
            end ;;
    let '(v, v2, isMultiple') := vals in
    let seg := createSegment v v2 segmentPrefixLength in
    segments' <- assign segments segmentIndex (Some seg) ;;
    createSegments_loop lowerValueProvider upperValueProvider
      bitsPerSegment prefixLength n' (segmentIndex + 1) segments' isMultiple'
  end.

Definition createSegments {creator : AddressSegmentCreator}
    (lowerValueProvider upperValueProvider : SegmentValueProvider)
    (segmentCount : Z) (bitsPerSegment : BitCount) (prefixLength : PrefixLen)
    : outcome (list (option AddressDivision) * bool) :=
  segments <- createSegmentArray segmentCount ;;
  createSegments_loop lowerValueProvider upperValueProvider
    bitsPerSegment prefixLength (Z.to_nat segmentCount) 0 segments false.

(** ** Building segments from bytes (ipsection.go:709-798) *)

Definition byteVal (b : byte) : Z := Z.of_N (Byte.to_N b).

(** [for ; j < upper; j++ { body }] on a loop state [s]. *)
Fixpoint forUpTo {S : Type} (n : nat) (j : Z)
    (body : Z -> S -> outcome S) (s : S) : outcome S :=
  match n with
  | O => Ok s
  | S n' => s' <- body j s ;; forUpTo n' (j + 1) body s'
  end.

Definition forRange {S : Type} (j upper : Z)
    (body : Z -> S -> outcome S) (s : S) : outcome S :=
  forUpTo (Z.to_nat (upper - j)) j body s.

(** [for startIndex < higherStartIndex { higherStartIndex--; ... }] with
    [startIndex = 0]: every byte before the last excess byte must equal
    it. [n] counts the iterations left. *)
Fixpoint checkExtension (bytes : list byte) (expectedExtendedValue : Z)
    (n : nat) (higherStartIndex : Z) : outcome unit :=
  match n with
  | O => Ok tt
  | S n' =>
    let higherStartIndex := higherStartIndex - 1 in
    b <- indexAt bytes higherStartIndex ;;
    if negb (byteVal b =? expectedExtendedValue) then Err ValueExceedsSize
    else checkExtension bytes expectedExtendedValue n' higherStartIndex
  end.

(** The handling of too many bytes ([missingBytes < 0]); it returns the
    new [startIndex]. *)
Definition checkExcessBytes (bytes : list byte) (expectedByteCount : Z)
    : outcome Z :=
  let byteLen := Z.of_nat (length bytes) in
  let expectedStartIndex := byteLen - expectedByteCount in
  let higherStartIndex := expectedStartIndex - 1 in
  eb <- indexAt bytes higherStartIndex ;;
  let expectedExtendedValue := byteVal eb in
  _ <- (if negb (expectedExtendedValue =? 0) then
          fb <- indexAt bytes expectedStartIndex ;;
          let mostSignificantBit := Z.shiftr (byteVal fb) 7 in
          if negb (mostSignificantBit =? 0) then
            if negb (expectedExtendedValue =? 255) then Err ValueExceedsSize
            else Ok tt
          else Err ValueExceedsSize
        else Ok tt) ;;
  _ <- checkExtension bytes expectedExtendedValue
         (Z.to_nat higherStartIndex) higherStartIndex ;;
  Ok expectedStartIndex.

(** The segment loop of [toSegments]. The loop variable [i] advances by
    [bytesPerSegment], so the loop need not terminate; [fuel] bounds its
    iterations. *)
Fixpoint toSegments_loop {creator : AddressSegmentCreator}
    (bytes : list byte) (bytesPerSegment : Z) (bitsPerSegment : BitCount)
    (expectedByteCount : Z) (prefixLength : PrefixLen)
    (startIndex missingBytes : Z)
    (fuel : nat) (i segmentIndex : Z)
    (segments : list (option AddressDivision))
    : outcome (list (option AddressDivision)) :=
  if i <? expectedByteCount then
    match fuel with
    | O => OutOfFuel
    | S fuel' =>
      let segmentPrefixLength :=
        getSegmentPrefixLength bitsPerSegment prefixLength segmentIndex in
      let k := bytesPerSegment + i in
      jv <- (if i <? missingBytes then
               fb <- indexAt bytes startIndex ;;
               let mostSignificantBit := Z.shiftr (byteVal fb) 7 in
               if mostSignificantBit =? 0 then Ok (missingBytes, 0)
               else
                 let upper := if missingBytes <? k then missingBytes else k in
                 v <- forRange i upper (fun _ v => Ok (shiftInByte v 255)) 0 ;;
                 Ok (Z.max i upper, v)
             else Ok (i, 0)) ;;
      let '(j, v0) := jv in
      v <- forRange j k
             (fun j v =>
                byteValue <- indexAt bytes (startIndex + j - missingBytes) ;;
                Ok (shiftInByte v (byteVal byteValue)))
             v0 ;;
      let seg := createSegment v v segmentPrefixLength in
      segments' <- assign segments segmentIndex (Some seg) ;;
      toSegments_loop bytes bytesPerSegment bitsPerSegment expectedByteCount
        prefixLength startIndex missingBytes fuel' k (segmentIndex + 1)
        segments'
    end
  else Ok segments.

Definition toSegments {creator : AddressSegmentCreator}
    (bytes : list byte) (segmentCount bytesPerSegment : Z)
    (bitsPerSegment : BitCount) (expectedByteCount : Z)
    (prefixLength : PrefixLen)
    : outcome (list (option AddressDivision)) :=
  let byteLen := Z.of_nat (length bytes) in
  let missingBytes := expectedByteCount - byteLen in
  start <- (if missingBytes <? 0 then
              startIndex <- checkExcessBytes bytes expectedByteCount ;;
              Ok (startIndex, 0)
            else Ok (0, missingBytes)) ;;
  let '(startIndex, missingBytes) := start in
  segments <- createSegmentArray segmentCount ;;
  toSegments_loop bytes bytesPerSegment bitsPerSegment expectedByteCount
    prefixLength startIndex missingBytes (Z.to_nat expectedByteCount)
    0 0 segments.

(** ** Sections *)

Inductive addrType : Type := zeroType | ipv4Type | ipv6Type | macType.

(** An address section: the division slice, the family tag, the segment
    offset, the section prefix length and the is-multiple flag. *)
Record IPAddressSection : Type := mkSection {
  divisions : list AddressDivision;
  sectionType : addrType;
  addressSegmentIndex : Z;
  prefixLength : PrefixLen;
  isMultiple : bool
}.

Definition withDivisions (s : IPAddressSection) (d : list AddressDivision)
    : IPAddressSection :=
  mkSection d (sectionType s) (addressSegmentIndex s) (prefixLength s)
    (isMultiple s).

Definition withPrefixLength (s : IPAddressSection) (p : PrefixLen)
    : IPAddressSection :=
  mkSection (divisions s) (sectionType s) (addressSegmentIndex s) p
    (isMultiple s).

Definition withIsMultiple (s : IPAddressSection) (m : bool)
    : IPAddressSection :=
  mkSection (divisions s) (sectionType s) (addressSegmentIndex s)
    (prefixLength s) m.

(** [createIPSection] (ipsection.go:9-24): the other fields start at
    their zero values. *)
Definition createIPSection (segments : list AddressDivision)
    (t : addrType) (startIndex : Z) : IPAddressSection :=
  mkSection segments t startIndex None false.

(** Modelled from the spec: [GetSegmentCount] is not in the sources;
    the number of segments of the section. *)
Definition GetSegmentCount (section : IPAddressSection) : Z :=
  Z.of_nat (length (divisions section)).

(** Modelled from the spec: [GetPrefixLength] is not in the sources;
    the section prefix length, as [GetNetworkPrefixLength]
    (ipsection.go:66) returns it. *)
Definition GetPrefixLength (section : IPAddressSection) : PrefixLen :=
  prefixLength section.

(** Modelled from the spec: the section accessor [GetBitsPerSegment] is
    not in the sources. By section 2 all segments of a section share
    the width of its family (table 6.4); a section of another family
    takes the width of its first division. *)
Definition GetBitsPerSegment (section : IPAddressSection) : BitCount :=
  match sectionType section with
  | ipv4Type => IPv4BitsPerSegment
  | ipv6Type => IPv6BitsPerSegment
  | _ => match divisions section with
         | [] => 0
         | d :: _ => GetBitCount d
         end
  end.

(** Modelled from the spec: the section accessor [GetBytesPerSegment]
    is not in the sources; as [GetBitsPerSegment], in bytes. *)
Definition GetBytesPerSegment (section : IPAddressSection) : Z :=
  match sectionType section with
  | ipv4Type => IPv4BytesPerSegment
  | ipv6Type => IPv6BytesPerSegment
  | _ => match divisions section with
         | [] => 0
         | d :: _ => GetByteCount d
         end
  end.

(** Modelled from the spec: the section accessor [GetBitCount] is not
    in the sources; the segment count times the segment width
    (the total bits of section 3.1). *)
Definition GetSectionBitCount (section : IPAddressSection) : BitCount :=
  GetSegmentCount section * GetBitsPerSegment section.

(** The section prefix length that the segment prefix lengths stand
    for: the one given by the first segment that has a prefix
    length. *)
Fixpoint prefixOfSegments (bitsPerSegment : BitCount)
    (segs : list AddressDivision) (i : Z) : PrefixLen :=
  match segs with
  | [] => None
  | seg :: rest =>
    match divisionPrefixLength seg with
    | Some sp => getNetworkPrefixLength bitsPerSegment sp i
    | None => prefixOfSegments bitsPerSegment rest (i + 1)
    end
  end.

(** Modelled from the spec: the section [init] is not in the sources.
    Section 3.1: [is_multiple] holds iff some segment has low different
    from upper; section 3.2: the section prefix is the one its segments
    carry. *)
Definition initSection (section : IPAddressSection) : IPAddressSection :=
  mkSection (divisions section) (sectionType section)
    (addressSegmentIndex section)
    (prefixOfSegments (GetBitsPerSegment section) (divisions section) 0)
    (existsb isMultipleSeg (divisions section)).

(** [deriveIPAddressSection] (ipsection.go:26-30). *)
Definition deriveIPAddressSection (from : IPAddressSection)
    (segments : list AddressDivision) : IPAddressSection :=
  initSection
    (createIPSection segments (sectionType from) (addressSegmentIndex from)).

(** ** Prefix subnets *)

(** The value of a run of segments read as one big-endian integer. *)
Fixpoint valueOfSegments (bitsPerSegment : BitCount)
    (provider : Z -> SegInt) (n : nat) (i : Z) (acc : Z) : Z :=
  match n with
  | O => acc
  | S n' =>
    valueOfSegments bitsPerSegment provider n' (i + 1)
      (acc * 2 ^ bitsPerSegment + provider i)
  end.

(** Modelled from the spec: [isPrefixSubnet] is not in the sources; this
    follows the comment on [isPrefixSubnetSegs] (ipsection.go:643-648).
    From the first host bit on, the low values are zeros and the high
    values are a run of zeros followed by a run of ones; the two runs
    together hold at least one bit. With [fullRangeOnly] the run of
    zeros in the high values is empty (section 4.3, step 3). *)
Definition isPrefixSubnet (lowerValueProvider upperValueProvider : Z -> SegInt)
    (segmentCount : Z) (bytesPerSegment : Z) (bitsPerSegment : BitCount)
    (segmentMaxValue : SegInt) (prefLen : BitCount) (fullRangeOnly : bool)
    : bool :=
  let prefLen := if prefLen <? 0 then 0 else prefLen in
  let totalBitCount := segmentCount * bitsPerSegment in
  if totalBitCount <=? prefLen then false
  else
    let hostBits := totalBitCount - prefLen in
    let n := Z.to_nat segmentCount in
    let lowHost :=
      valueOfSegments bitsPerSegment lowerValueProvider n 0 0 mod 2 ^ hostBits in
    let highHost :=
      valueOfSegments bitsPerSegment upperValueProvider n 0 0 mod 2 ^ hostBits in
    (lowHost =? 0) &&
    (if fullRangeOnly then highHost =? 2 ^ hostBits - 1
     else highHost + 1 =? 2 ^ Z.log2 (highHost + 1)).

(** [isPrefixSubnetSegs] (ipsection.go:649-672). The providers index the
    slice; the indices [isPrefixSubnet] asks for are below the segment
    count. *)
Definition isPrefixSubnetSegs (sectionSegments : list AddressDivision)
    (networkPrefixLength : BitCount) (fullRangeOnly : bool) : bool :=
  match sectionSegments with
  | [] => false
  | seg :: _ =>
    isPrefixSubnet
      (fun segmentIndex =>
         GetSegmentValue (nth (Z.to_nat segmentIndex) sectionSegments seg))
      (fun segmentIndex =>
         GetUpperSegmentValue (nth (Z.to_nat segmentIndex) sectionSegments seg))
      (Z.of_nat (length sectionSegments))
      (GetByteCount seg) (GetBitCount seg) (GetMaxValue seg)
      networkPrefixLength fullRangeOnly
  end.

(** Modelled from the spec: [toPrefixedDivision] is not in the sources.
    Section 4.3, step 5: the per-segment prefix is attached without
    forcing host bits. *)
Definition toPrefixedDivision (div : AddressDivision) (divPrefixLength : PrefixLen)
    : AddressDivision :=
  mkDivision (kind div) (value div) (upperValue div) divPrefixLength.

(** The host mask of a division for a division prefix length, clamped
    to the division width. *)
Definition divisionHostMask (div : AddressDivision) (prefBits : BitCount) : Z :=
  let bitCount := GetBitCount div in
  let prefBits := Z.max 0 (Z.min prefBits bitCount) in
  2 ^ (bitCount - prefBits) - 1.

(** Modelled from the spec: [toPrefixedNetworkDivision] is not in the
    sources. Section 3.2 and section 4.3, step 4: the network bits stay
    fixed, the host bits span [0, host_max], and the per-segment prefix
    is attached. *)
Definition toPrefixedNetworkDivision (div : AddressDivision)
    (divPrefixLength : PrefixLen) : AddressDivision :=
  match divPrefixLength with
  | None => mkDivision (kind div) (value div) (upperValue div) None
  | Some prefBits =>
    let hostMask := divisionHostMask div prefBits in
    mkDivision (kind div)
      (Z.land (value div) (Z.lxor (GetMaxValue div) hostMask))
      (Z.lor (upperValue div) hostMask)
      divPrefixLength
  end.

(** [applyPrefixToSegments] (ipsection.go:674-690); it writes into the
    slice it is given, here it returns the slice after the writes. *)
Definition applyPrefixToSegments (sectionPrefixBits : BitCount)
    (segments : list AddressDivision)
    (segmentBitCount : BitCount) (segmentByteCount : Z)
    (segProducer : AddressDivision -> PrefixLen -> AddressDivision)
    : outcome (list AddressDivision) :=
  let i := if negb (sectionPrefixBits =? 0)
           then getNetworkSegmentIndex sectionPrefixBits segmentByteCount
                  segmentBitCount
           else 0 in
  forRange i (Z.of_nat (length segments))
    (fun i segments =>
       let pref :=
         getPrefixedSegmentPrefixLength segmentBitCount sectionPrefixBits i in
       match pref with
       | Some _ =>
         seg <- indexAt segments i ;;
         assign segments i (segProducer seg pref)
       | None => Ok segments
       end)
    segments.

(** [assignPrefix] (ipsection.go:603-641). [res] was created from the
    slice [segments] and keeps it ([createIPSection]), so the writes of
    [applyPrefixToSegments] are seen through [res]: the result is [res]
    after the call, holding the written slice. [prefixLength] is
    dereferenced at once, a nil one panics. *)
Definition assignPrefix (prefixLength : PrefixLen)
    (segments : list AddressDivision) (res : IPAddressSection)
    (singleOnly : bool) (boundaryBits maxBits : BitCount)
    : outcome IPAddressSection :=
  match prefixLength with
  | None => Panic
  | Some p =>
    let '(prefLen, prefixLength) :=
      if p <? 0 then (0, Some p)
      else if boundaryBits <? p then (boundaryBits, Some boundaryBits)
      else (p, Some p) in
    let segLen := Z.of_nat (length segments) in
    if 0 <? segLen then
      let segsPrefLen := GetPrefixLength res in
      let '(prefLen, prefixLength) :=
        match segsPrefLen with
        | Some sp => if sp <? prefLen then (sp, segsPrefLen)
                     else (prefLen, prefixLength)
        | None => (prefLen, prefixLength)
        end in
      let applyPrefixSubnet :=
        negb singleOnly && isPrefixSubnetSegs segments prefLen false in
      let segProducer :=
        if applyPrefixSubnet then toPrefixedNetworkDivision
        else toPrefixedDivision in
      segments' <- applyPrefixToSegments prefLen segments
                     (GetBitsPerSegment res) (GetBytesPerSegment res)
                     segProducer ;;
      let res := withDivisions res segments' in
      res <- (if applyPrefixSubnet && negb (isMultiple res) then
                last <- indexAt (divisions res) (segLen - 1) ;;
                Ok (withIsMultiple res (isMultipleSeg last))
              else Ok res) ;;
      Ok (withPrefixLength res prefixLength)
    else Ok (withPrefixLength res prefixLength)
  end.

(** [assignPrefixSubnet] (ipsection.go:584-601), with the same sharing
    of the slice between [segments] and [res]. *)
Definition assignPrefixSubnet (prefixLength : PrefixLen)
    (segments : list AddressDivision) (res : IPAddressSection)
    : outcome IPAddressSection :=
  let segLen := Z.of_nat (length segments) in
  if 0 <? segLen then
    match prefixLength with
    | None => Panic
    | Some prefLen =>
      if isPrefixSubnetSegs segments prefLen false then
        segments' <- applyPrefixToSegments prefLen segments
                       (GetBitsPerSegment res) (GetBytesPerSegment res)
                       toPrefixedNetworkDivision ;;
        let res := withDivisions res segments' in
        if negb (isMultiple res) then
          last <- indexAt (divisions res) (segLen - 1) ;;
          Ok (withIsMultiple res (isMultipleSeg last))
        else Ok res
      else Ok res
    end
  else Ok res.

(** [deriveIPAddressSectionSingle] (ipsection.go:32-38). *)
Definition deriveIPAddressSectionSingle (from : IPAddressSection)
    (segments : list AddressDivision) (prefixLength : PrefixLen)
    (singleOnly : bool) : outcome IPAddressSection :=
  let res := deriveIPAddressSection from segments in
  match prefixLength with
  | Some _ =>
    if negb singleOnly then assignPrefixSubnet prefixLength segments res
    else Ok res
  | None => Ok res
  end.

(** ** Counting, prefix blocks *)

(** Modelled from the spec: [GetCount] is not in the sources; it is the
    number of single addresses in the section (section 4.5), the product
    of the segment range sizes. *)
Definition GetCount (section : IPAddressSection) : Z :=
  fold_right (fun seg acc => (upperValue seg - value seg + 1) * acc) 1
    (divisions section).

(** A segment satisfies the prefix-block condition for its segment
    prefix: on the network side nothing is asked; at the boundary the
    network bits are fixed and the host bits span [0, host_max]; on the
    host side (segment prefix 0) that is low = 0 and upper = max. *)
Definition segmentIsBlock (seg : AddressDivision) (segPrefix : PrefixLen) : bool :=
  match segPrefix with
  | None => true
  | Some sp =>
    let hostMask := divisionHostMask seg sp in
    (Z.land (value seg) hostMask =? 0) &&
    (Z.land (upperValue seg) hostMask =? hostMask) &&
    (Z.land (value seg) (Z.lxor (GetMaxValue seg) hostMask) =?
     Z.land (upperValue seg) (Z.lxor (GetMaxValue seg) hostMask))
  end.

Fixpoint segmentsAreBlock (bitsPerSegment p : BitCount)
    (segs : list AddressDivision) (i : Z) : bool :=
  match segs with
  | [] => true
  | seg :: rest =>
    segmentIsBlock seg (getPrefixedSegmentPrefixLength bitsPerSegment p i) &&
    segmentsAreBlock bitsPerSegment p rest (i + 1)
  end.

(** Modelled from the spec: [IsPrefixBlock] is not in the sources.
    Section 3.2: a section with prefix length [p] is a prefix block when
    every bit of index at least [p] is free. *)
Definition IsPrefixBlock (section : IPAddressSection) : bool :=
  match prefixLength section with
  | None => false
  | Some p =>
    segmentsAreBlock (GetBitsPerSegment section) p (divisions section) 0
  end.

Fixpoint blockSegments (bitsPerSegment p : BitCount)
    (segs : list AddressDivision) (i : Z) : list AddressDivision :=
  match segs with
  | [] => []
  | seg :: rest =>
    match getPrefixedSegmentPrefixLength bitsPerSegment p i with
    | Some sp => toPrefixedNetworkDivision seg (Some sp)
    | None => seg
    end :: blockSegments bitsPerSegment p rest (i + 1)
  end.

(** Modelled from the spec: the section [toPrefixBlock] is not in the
    sources (ipsection.go:496 and ipv4addr.go:375 delegate to it).
    Section 3.2: the block of the section's prefix keeps the network
    bits and frees every host bit; segment prefixes sit at and beyond
    the boundary. A section without prefix length is returned as it
    is. *)
Definition toPrefixBlock (section : IPAddressSection) : IPAddressSection :=
  match prefixLength section with
  | None => section
  | Some p =>
    let segs := blockSegments (GetBitsPerSegment section) p
                  (divisions section) 0 in
    mkSection segs (sectionType section) (addressSegmentIndex section)
      (Some p) (existsb isMultipleSeg segs)
  end.

(** Every entry of a segment array has been assigned. *)
Fixpoint allAssigned (segments : list (option AddressDivision))
    : outcome (list AddressDivision) :=
  match segments with
  | [] => Ok []
  | None :: _ => Panic
  | Some seg :: rest => r <- allAssigned rest ;; Ok (seg :: r)
  end.

(** Modelled from the spec: [NewIPv4SectionFromPrefixedVals] is not in
    the sources (ipv4addr.go:101 calls it). Section 6.3: the segments
    are built from the value provider, by [createSegments], and the
    section is created from them, by [createIPSection], with the flag
    [createSegments] returns; section 6.2: a supplied prefix length is
    applied per section 4.3, that is by [assignPrefix], with the bit
    count of the section as bound. The section handed to [assignPrefix]
    has no prefix length yet. *)
Definition NewIPv4SectionFromPrefixedVals (vals : Z -> SegInt)
    (segmentCount : Z) (prefixLen : PrefixLen) : outcome IPAddressSection :=
  created <- createSegments (creator := ipv4Creator) (Some vals) None
               segmentCount IPv4BitsPerSegment prefixLen ;;
  segments <- allAssigned (fst created) ;;
  let res := withIsMultiple (createIPSection segments ipv4Type 0)
               (snd created) in
  match prefixLen with
  | Some _ =>
    assignPrefix prefixLen segments res false
      (segmentCount * IPv4BitsPerSegment) IPv4BitCount
  | None => Ok res
  end.

(** ** Addresses *)

(** The [addressInternal] data of an address: the section pointer, nil
    in a zero-value address, and the zone. [IPv4Address] and
    [IPv6Address] wrap the same data. *)
Record Address : Type := mkAddress {
  section : option IPAddressSection;
  zone : Zone
}.

Definition IPv4Address := Address.
Definition IPv6Address := Address.

(** Modelled from the spec: [createAddress] is not in the sources; the
    address of a section and a zone (section 3.3). *)
Definition createAddress (sec : IPAddressSection) (z : Zone) : Address :=
  mkAddress (Some sec) z.

Definition newIPv4Address (sec : IPAddressSection) : IPv4Address :=
  createAddress sec NoZone.

Definition NewIPv6Address (sec : IPAddressSection) : IPv6Address :=
  createAddress sec NoZone.

Definition NewIPv6AddressZoned (sec : IPAddressSection) (z : Zone) : IPv6Address :=
  createAddress sec z.

(** Modelled from the spec: [NewIPv4Segment] is not in the sources;
    [NewIPv4Segment(0)] is the single value 0 without prefix length. *)
Definition zeroIPv4Seg : AddressDivision := mkDivision ipv4Seg 0 0 None.

(** Modelled from the spec: [NewIPv6Segment(0)], as the IPv4 one. *)
Definition zeroIPv6Seg : AddressDivision := mkDivision ipv6Seg 0 0 None.

(** [initZeroIPv4] (ipv4addr.go:120-125) and [initZeroIPv6]: four,
    respectively eight, zero segments, no prefix length, no zone. *)
Definition zeroIPv4Section : IPAddressSection :=
  let div := zeroIPv4Seg in
  initSection (createIPSection [div; div; div; div] ipv4Type 0).

Definition zeroIPv4 : IPv4Address := newIPv4Address zeroIPv4Section.

Definition zeroIPv6Section : IPAddressSection :=
  let div := zeroIPv6Seg in
  initSection
    (createIPSection [div; div; div; div; div; div; div; div] ipv6Type 0).

Definition zeroIPv6 : IPv6Address := NewIPv6Address zeroIPv6Section.

(** [init] (ipv4addr.go:151-157 and the IPv6 twin). *)
Definition initIPv4 (addr : IPv4Address) : IPv4Address :=
  match section addr with
  | None => zeroIPv4
  | Some _ => addr
  end.

Definition initIPv6 (addr : IPv6Address) : IPv6Address :=
  match section addr with
  | None => zeroIPv6
  | Some _ => addr
  end.


Definition HasZone (addr : IPv6Address) : bool :=
  negb (String.eqb (zone addr) NoZone).


(** [GetSection] is [addr.init().section]; the section of an
    initialized address is not nil. *)
Definition GetSectionIPv4 (addr : IPv4Address) : IPAddressSection :=
  match section addr with
  | None => zeroIPv4Section
  | Some sec => sec
  end.

Definition GetSectionIPv6 (addr : IPv6Address) : IPAddressSection :=
  match section addr with
  | None => zeroIPv6Section
  | Some sec => sec
  end.

(** Applying a section function inside an address, keeping the zone. *)
Definition mapSection (f : IPAddressSection -> IPAddressSection)
    (addr : Address) : Address :=
  mkAddress (option_map f (section addr)) (zone addr).

(** Modelled from the spec: the section [withoutPrefixLen] is not in
    the sources. It returns the same values with the prefix length
    removed from the section and from its segments. *)
Definition withoutPrefixLenSection (sec : IPAddressSection) : IPAddressSection :=
  mkSection (map (fun seg => toPrefixedDivision seg None) (divisions sec))
    (sectionType sec) (addressSegmentIndex sec) None (isMultiple sec).

(** Modelled from the spec: the address [withoutPrefixLen] is not in
    the sources; the section without prefix length, the zone kept. *)
Definition withoutPrefixLen (addr : Address) : Address :=
  mapSection withoutPrefixLenSection addr.

(** Modelled from the spec: the section [getLower] is not in the
    sources. It returns the single section of the lower segment values;
    the prefix length is kept. *)
Definition getLowerSection (sec : IPAddressSection) : IPAddressSection :=
  mkSection
    (map (fun seg => mkDivision (kind seg) (value seg) (value seg)
                       (divisionPrefixLength seg)) (divisions sec))
    (sectionType sec) (addressSegmentIndex sec) (prefixLength sec) false.

(** Modelled from the spec: the section [getUpper], as [getLower] with
    the upper segment values. *)
Definition getUpperSection (sec : IPAddressSection) : IPAddressSection :=
  mkSection
    (map (fun seg => mkDivision (kind seg) (upperValue seg) (upperValue seg)
                       (divisionPrefixLength seg)) (divisions sec))
    (sectionType sec) (addressSegmentIndex sec) (prefixLength sec) false.

(** Modelled from the spec: the address [getLower] is not in the
    sources; the lower section, the zone kept. *)
Definition getLower (addr : Address) : Address := mapSection getLowerSection addr.

(** Modelled from the spec: the address [getUpper] is not in the
    sources; the upper section, the zone kept. *)
Definition getUpper (addr : Address) : Address := mapSection getUpperSection addr.

(** Modelled from the spec: the address [IsMultiple] is not in the
    sources; the flag of the section, false without section. *)
Definition IsMultipleAddr (addr : Address) : bool :=
  match section addr with
  | None => false
  | Some sec => isMultiple sec
  end.

(** ** Sequential ranges *)

Record SeqRange : Type := mkSeqRange {
  lower : Address;
  upper : Address;
  isMultipleRange : bool
}.

(** Modelled from the spec: [newSeqRangeUnchecked] is not in the
    sources; it stores the two bounds and the flag as given. *)
Definition newSeqRangeUnchecked (lo up : Address) (isMult : bool) : SeqRange :=
  mkSeqRange lo up isMult.

(** IPv4 (ipv4addr.go). *)
Definition WithoutPrefixLenIPv4 (addr : IPv4Address) : IPv4Address :=
  withoutPrefixLen (initIPv4 addr).

Definition GetLowerIPv4 (addr : IPv4Address) : IPv4Address :=
  getLower (initIPv4 addr).

Definition GetUpperIPv4 (addr : IPv4Address) : IPv4Address :=
  getUpper (initIPv4 addr).

(** [ToIPAddress]: a non-nil receiver is initialized. *)
Definition ToIPAddressIPv4 (addr : IPv4Address) : Address := initIPv4 addr.
Definition ToIPAddressIPv6 (addr : IPv6Address) : Address := initIPv6 addr.

(** [IPv4Address.ToSequentialRange] (ipv4addr.go:528-534); the receiver
    is a pointer, nil is [None]. *)
Definition ToSequentialRangeIPv4 (addr : option IPv4Address) : option SeqRange :=
  match addr with
  | None => None
  | Some addr =>
    let addr := WithoutPrefixLenIPv4 (initIPv4 addr) in
    Some (newSeqRangeUnchecked
            (ToIPAddressIPv4 (GetLowerIPv4 addr))
            (ToIPAddressIPv4 (GetUpperIPv4 addr))
            (IsMultipleAddr addr))
  end.

(** IPv6. *)
Definition WithoutPrefixLenIPv6 (addr : IPv6Address) : IPv6Address :=
  withoutPrefixLen (initIPv6 addr).

Definition GetLowerIPv6 (addr : IPv6Address) : IPv6Address :=
  getLower (initIPv6 addr).

Definition GetUpperIPv6 (addr : IPv6Address) : IPv6Address :=
  getUpper (initIPv6 addr).

Definition GetLowerIPAddressIPv6 (addr : IPv6Address) : Address :=
  ToIPAddressIPv6 (GetLowerIPv6 addr).

Definition GetUpperIPAddressIPv6 (addr : IPv6Address) : Address :=
  ToIPAddressIPv6 (GetUpperIPv6 addr).

(** [WithoutZone] (part_000:602-607). *)
Definition WithoutZone (addr : IPv6Address) : IPv6Address :=
  if HasZone addr then NewIPv6Address (GetSectionIPv6 addr)
  else addr.

(** [IPv6Address.ToSequentialRange]. *)
Definition ToSequentialRangeIPv6 (addr : option IPv6Address) : option SeqRange :=
  match addr with
  | None => None
  | Some addr =>
    let addr := WithoutZone (WithoutPrefixLenIPv6 (initIPv6 addr)) in
    Some (newSeqRangeUnchecked
            (GetLowerIPAddressIPv6 addr)
            (GetUpperIPAddressIPv6 addr)
            (IsMultipleAddr addr))
  end.

(** ** Prefix-mask classification (ipsection.go:126-196) *)

(** The loop state of [checkForPrefixMask]. *)
Record maskScan : Type := mkMaskScan {
  checkingNetworkFront : bool;
  checkingNetworkBack : bool;
  checkingHostFront : bool;
  checkingHostBack : bool;
  prefixedSeg : Z;
  prefixedSegPrefixLen : BitCount
}.

Definition initialMaskScan : maskScan := mkMaskScan true false true false 0 0.

Section PrefixMask.

(** The segment-level [checkForPrefixMask] is not in the sources; the
    section-level scan is embedded over any segment classifier
    returning the pair (network mask length, host mask length). *)
Variable segCheckForPrefixMask : AddressDivision -> PrefixLen * PrefixLen.

(** One iteration of the scan; [None] is the bare [return], which
    leaves both results nil. *)
Definition maskScanStep (maxVal : SegInt) (i : Z) (seg : AddressDivision)
    (st : maskScan) : option maskScan :=
  let val := GetSegmentValue seg in
  if val =? 0 then
    let st1 :=
      if checkingNetworkFront st then
        Some (mkMaskScan false true (checkingHostFront st)
                (checkingHostBack st) i (prefixedSegPrefixLen st))
      else if negb (checkingHostFront st) && negb (checkingNetworkBack st)
      then None
      else Some st in
    match st1 with
    | None => None
    | Some st =>
      Some (mkMaskScan (checkingNetworkFront st) (checkingNetworkBack st)
              (checkingHostFront st) false (prefixedSeg st)
              (prefixedSegPrefixLen st))
    end
  else if val =? maxVal then
    let st1 :=
      if checkingHostFront st then
        Some (mkMaskScan (checkingNetworkFront st) (checkingNetworkBack st)
                false true i (prefixedSegPrefixLen st))
      else if negb (checkingHostBack st) && negb (checkingNetworkFront st)
      then None
      else Some st in
    match st1 with
    | None => None
    | Some st =>
      Some (mkMaskScan (checkingNetworkFront st) false
              (checkingHostFront st) (checkingHostBack st) (prefixedSeg st)
              (prefixedSegPrefixLen st))
    end
  else
    let '(segNetworkMaskLen, segHostMaskLen) := segCheckForPrefixMask seg in
    let st1 :=
      match segNetworkMaskLen with
      | Some n =>
        if checkingNetworkFront st then
          Some (mkMaskScan (checkingNetworkFront st) true
                  (checkingHostFront st) (checkingHostBack st) i n)
        else None
      | None =>
        match segHostMaskLen with
        | Some h =>
          if checkingHostFront st then
            Some (mkMaskScan (checkingNetworkFront st)
                    (checkingNetworkBack st) (checkingHostFront st) true i h)
          else None
        | None => None
        end
      end in
    match st1 with
    | None => None
    | Some st =>
      Some (mkMaskScan false (checkingNetworkBack st) false
              (checkingHostBack st) (prefixedSeg st)
              (prefixedSegPrefixLen st))
    end.

Fixpoint maskScanLoop (maxVal : SegInt) (segs : list AddressDivision)
    (i : Z) (st : maskScan) : option maskScan :=
  match segs with
  | [] => Some st
  | seg :: rest =>
    match maskScanStep maxVal i seg st with
    | None => None
    | Some st' => maskScanLoop maxVal rest (i + 1) st'
    end
  end.

(** [checkForPrefixMask]: the pair (networkMaskLen, hostMaskLen).
    [cache(n)] is a pointer to [n]. *)
Definition checkForPrefixMask (section : IPAddressSection)
    : PrefixLen * PrefixLen :=
  match divisions section with
  | [] => (None, None)
  | firstSeg :: _ =>
    let maxVal := GetMaxValue firstSeg in
    match maskScanLoop maxVal (divisions section) 0 initialMaskScan with
    | None => (None, None)
    | Some st =>
      if checkingNetworkFront st then
        (Some (GetSectionBitCount section), Some 0)
      else if checkingHostFront st then
        (Some 0, Some (GetSectionBitCount section))
      else if checkingNetworkBack st then
        (getNetworkPrefixLength (GetBitCount firstSeg)
           (prefixedSegPrefixLen st) (prefixedSeg st), None)
      else if checkingHostBack st then
        (None, getNetworkPrefixLength (GetBitCount firstSeg)
                 (prefixedSegPrefixLen st) (prefixedSeg st))
      else (None, None)
    end
  end.

End PrefixMask.

(** ** Masking ranged segments *)

(** The values [a, a+1, ..., b]. *)
Definition valuesBetween (a b : Z) : list Z := zrange a (Z.to_nat (b - a + 1)).

(** The set [{x & m : x in [a, b]}], as a list. *)
Definition maskedValues (a b m : Z) : list Z :=
  map (fun x => Z.land x m) (valuesBetween a b).

Definition minimumOf (d : Z) (l : list Z) : Z := fold_right Z.min d l.
Definition maximumOf (d : Z) (l : list Z) : Z := fold_right Z.max d l.

Definition maskedMin (a b m : Z) : Z :=
  minimumOf (Z.land a m) (maskedValues a b m).

Definition maskedMax (a b m : Z) : Z :=
  maximumOf (Z.land a m) (maskedValues a b m).

(** The masked set is a contiguous range: it holds every value between
    its least and its greatest member. *)
Definition maskedIsContiguous (a b m : Z) : bool :=
  forallb (fun v => existsb (Z.eqb v) (maskedValues a b m))
    (valuesBetween (maskedMin a b m) (maskedMax a b m)).

(** Modelled from the spec: the [Masker] that [maskRange] returns is
    not in the sources; it says whether the masked range is sequential
    and gives its lower and upper bound. *)
Record Masker : Type := mkMasker {
  IsSequential : bool;
  GetMaskedLower : Z -> Z -> Z;
  GetMaskedUpper : Z -> Z -> Z
}.

(** Modelled from the spec: [maskRange] and its [Masker] are not in the
    sources. Section 4.4: if the range covers all values of the segment
    the masked result is [0, m] clipped by the segment's bit width and
    is always sequential; otherwise the result is sequential iff
    [{x & m : x in [a, b]}] is a contiguous range, and then the bounds
    are [(a & m, b & m)] or the generalized sequential bounds, that is
    the least and the greatest masked value. *)
Definition maskRange (value upperValue maskValue maxValue : Z) : Masker :=
  if (value =? 0) && (upperValue =? maxValue) then
    mkMasker true (fun _ _ => 0) (fun _ m => Z.land m maxValue)
  else
    mkMasker (maskedIsContiguous value upperValue maskValue)
      (fun _ _ => maskedMin value upperValue maskValue)
      (fun _ _ => maskedMax value upperValue maskValue).

(** Modelled from the spec: [segsSame] is not in the sources; the
    segment would be rebuilt with the same prefix length and bounds. *)
Definition segsSame (onePref twoPref : PrefixLen)
    (oneVal twoVal oneUpperVal twoUpperVal : SegInt) : bool :=
  PrefixEquals onePref twoPref && (oneVal =? twoVal) &&
  (oneUpperVal =? twoUpperVal).

(** Modelled from the spec: the IPv4 and IPv6 [deriveNewMultiSeg] are
    not in the sources; they build a segment of the same kind with the
    given bounds, narrowed to the segment width, and the given segment
    prefix. The MAC one is macsegment.go:91. *)
Definition deriveNewMultiSeg (seg : AddressDivision) (val upperVal : SegInt)
    (prefLen : PrefixLen) : AddressDivision :=
  match kind seg with
  | macSeg => deriveNewMultiSegMAC val upperVal prefLen
  | ipv4Seg => createSegment (AddressSegmentCreator := ipv4Creator) val upperVal prefLen
  | ipv6Seg => createSegment (AddressSegmentCreator := ipv6Creator) val upperVal prefLen
  end.

(** The masking of one segment, the body shared by the two loops of
    [getSubnetSegments] (ipsection.go:892-908 and 917-933). The
    conversions to [uint64] keep the values; the results are narrowed
    back to [SegInt]. *)
Definition maskSegment (verifyMask : bool) (seg : AddressDivision)
    (maskValue : SegInt) : errorKind + SegInt * SegInt :=
  let origValue := value seg in
  let origUpperValue := upperValue seg in
  if verifyMask then
    let masker := maskRange origValue origUpperValue maskValue
                    (GetMaxValue seg) in
    if negb (IsSequential masker) then inl MaskRangeIncompatible
    else inr (toSegInt (GetMaskedLower masker origValue maskValue),
              toSegInt (GetMaskedUpper masker origUpperValue maskValue))
  else inr (Z.land origValue maskValue, Z.land origUpperValue maskValue).

(** Modelled from the spec: [copySubSegmentsToSlice] is not in the
    sources; [copySubSegmentsToSlice(0, i, newSegments)] copies the
    first [i] segments of the section to the front of the slice. *)
Definition copySubSegmentsToSlice (original : IPAddressSection) (i : Z)
    (newSegments : list (option AddressDivision))
    : list (option AddressDivision) :=
  map Some (firstn (Z.to_nat i) (divisions original)) ++
  skipn (Z.to_nat i) newSegments.

Section SubnetSegments.

Variable original : IPAddressSection.
Variable networkPrefixLength : PrefixLen.
Variable verifyMask : bool.
Variable segProducer : Z -> outcome AddressDivision.
Variable segmentMaskProducer : Z -> outcome SegInt.
Variable singleOnly : bool.

(** The inner loop (ipsection.go:913-939): the segments after the first
    changed one. [inl] is the return of a mask error. *)
Fixpoint subnetSegmentsRest (n : nat) (i : Z)
    (newSegments : list (option AddressDivision))
    : outcome (errorKind + list (option AddressDivision)) :=
  match n with
  | O => Ok (inr newSegments)
  | S n' =>
    let segmentPrefixLength :=
      getSegmentPrefixLength (GetBitsPerSegment original)
        networkPrefixLength i in
    seg <- segProducer i ;;
    maskValue <- segmentMaskProducer i ;;
    match maskSegment verifyMask seg maskValue with
    | inl e => Ok (inl e)
    | inr (val, upperVal) =>
      newSegments' <-
        assign newSegments i
          (Some (if negb (segsSame segmentPrefixLength
                            (divisionPrefixLength seg)
                            val (value seg) upperVal (upperValue seg))
                 then deriveNewMultiSeg seg val upperVal segmentPrefixLength
                 else seg)) ;;
      subnetSegmentsRest n' (i + 1) newSegments'
    end
  end.

(** The outer loop (ipsection.go:886-943); the result is Go's pair
    [(res, err)]. [err0] is the error the prefix-length test may have
    left in [err] before the loop. *)
Fixpoint subnetSegmentsScan (err0 : option errorKind) (n : nat) (i : Z)
    : outcome (option IPAddressSection * option errorKind) :=
  match n with
  | O => Ok (Some original, err0)
  | S n' =>
    let count := GetSegmentCount original in
    let segmentPrefixLength :=
      getSegmentPrefixLength (GetBitsPerSegment original)
        networkPrefixLength i in
    seg <- segProducer i ;;
    maskValue <- segmentMaskProducer i ;;
    match maskSegment verifyMask seg maskValue with
    | inl e => Ok (None, Some e)
    | inr (val, upperVal) =>
      if negb (segsSame segmentPrefixLength (divisionPrefixLength seg)
                 val (value seg) upperVal (upperValue seg))
      then
        newSegments <- createSegmentArray count ;;
        let newSegments := copySubSegmentsToSlice original i newSegments in
        newSegments <-
          assign newSegments i
            (Some (deriveNewMultiSeg seg val upperVal segmentPrefixLength)) ;;
        rest <- subnetSegmentsRest n' (i + 1) newSegments ;;
        match rest with
        | inl e => Ok (None, Some e)
        | inr newSegments =>
          segs <- allAssigned newSegments ;;
          res <- deriveIPAddressSectionSingle original segs
                   networkPrefixLength singleOnly ;;
          Ok (Some res, err0)
        end
      else subnetSegmentsScan err0 n' (i + 1)
    end
  end.

(** [getSubnetSegments] (ipsection.go:870-946). The prefix-length test
    sets [err] and does not return. *)
Definition getSubnetSegments
    : outcome (option IPAddressSection * option errorKind) :=
  let err0 :=
    match networkPrefixLength with
    | Some prefLen =>
      if (prefLen <? 0) || (GetSectionBitCount original <? prefLen)
      then Some PrefixLengthOutOfRange
      else None
    | None => None
    end in
  subnetSegmentsScan err0 (Z.to_nat (GetSegmentCount original)) 0.

End SubnetSegments.

(** Modelled from the spec: [getDivision] and [GetSegment] are not in
    the sources; the entry of the division slice at [i], a panic out of
    range. *)
Definition getDivision (section : IPAddressSection) (i : Z)
    : outcome AddressDivision :=
  indexAt (divisions section) i.


(** ** Address queries *)

(** Modelled from the spec: the segment test [Matches] is not in the
    sources. Section 4.1: [matches(v)] holds of the single value
    [v]. *)
Definition Matches (seg : AddressDivision) (v : SegInt) : bool :=
  negb (isMultipleSeg seg) && (value seg =? v).

(** Modelled from the spec: the segment test [MatchesWithPrefixMask] is
    not in the sources. Section 4.1: [matches_with_prefix_mask(v, p)]
    compares the [p] network bits of both bounds with those of [v]. *)
Definition MatchesWithPrefixMask (seg : AddressDivision) (v : SegInt)
    (networkBits : BitCount) : bool :=
  let netMask := Z.lxor (GetMaxValue seg) (divisionHostMask seg networkBits) in
  (Z.land v netMask =? Z.land (value seg) netMask) &&
  (Z.land v netMask =? Z.land (upperValue seg) netMask).

(** Modelled from the spec: the segment test [IsZero] is not in the
    sources; the segment is the single value 0. *)
Definition IsZeroSeg (seg : AddressDivision) : bool := Matches seg 0.

(** Modelled from the spec: the address-level [IsZero] is not in the
    sources; the address is the single all-zeros value (section 3.3). *)
Definition IsZero (addr : Address) : bool :=
  match section addr with
  | None => true
  | Some sec => forallb IsZeroSeg (divisions sec)
  end.

(** Go's short-circuit [&&] and [||] over operands that may panic. *)
Definition andAlso (a : outcome bool) (b : outcome bool) : outcome bool :=
  x <- a ;; if x then b else Ok false.

Definition orElse (a : outcome bool) (b : outcome bool) : outcome bool :=
  x <- a ;; if x then Ok true else b.

(** Modelled from the spec: [getAddrType] is not in the sources; by
    section 4.8 it is the family tag of the section, and an address
    without section has none. *)
Definition getAddrType (addr : Address) : addrType :=
  match section addr with
  | None => zeroType
  | Some sec => sectionType sec
  end.

(** Go's [==] on address types. *)
Definition addrTypeEqb (a b : addrType) : bool :=
  match a, b with
  | zeroType, zeroType | ipv4Type, ipv4Type
  | ipv6Type, ipv6Type | macType, macType => true
  | _, _ => false
  end.

(** Segment-wise equality of bounds. *)
Fixpoint segmentsEqual (one two : list AddressDivision) : bool :=
  match one, two with
  | [], [] => true
  | a :: one', b :: two' =>
    (value a =? value b) && (upperValue a =? upperValue b) &&
    segmentsEqual one' two'
  | _, _ => false
  end.

(** Segment-wise enclosure of bounds. *)
Fixpoint segmentsContain (one two : list AddressDivision) : bool :=
  match one, two with
  | [], [] => true
  | a :: one', b :: two' =>
    (value a <=? value b) && (upperValue b <=? upperValue a) &&
    segmentsContain one' two'
  | _, _ => false
  end.

(** Modelled from the spec: [sameCountTypeEquals] is not in the
    sources; sections of one family and segment count are equal when
    their segments have the same bounds (section 4.8). *)
Definition sameCountTypeEquals (sec other : IPAddressSection) : bool :=
  segmentsEqual (divisions sec) (divisions other).

(** Modelled from the spec: [sameCountTypeContains] is not in the
    sources; a section contains another of its family and segment
    count when each segment encloses the other's (section 4.8). *)
Definition sameCountTypeContains (sec other : IPAddressSection) : bool :=
  segmentsContain (divisions sec) (divisions other).

(** Modelled from the spec: [isSameZone] is not in the sources; the
    zone identifiers of the two addresses are the same string. *)
Definition isSameZone (addr other : Address) : bool :=
  String.eqb (zone addr) (zone other).



(** [IPv6Address.Contains] and [Equals] (part_000:588-596): the zone of
    the receiver itself is compared with the zone of the operand. *)
Definition ContainsIPv6 (addr : IPv6Address) (other : Address) : bool :=
  addrTypeEqb (getAddrType other) ipv6Type &&
  sameCountTypeContains (GetSectionIPv6 addr)
    (GetSectionIPv6 (ToIPAddressIPv6 other)) &&
  isSameZone addr (ToIPAddressIPv6 other).

Definition EqualsIPv6 (addr : IPv6Address) (other : Address) : bool :=
  addrTypeEqb (getAddrType other) ipv6Type &&
  sameCountTypeEquals (GetSectionIPv6 addr)
    (GetSectionIPv6 (ToIPAddressIPv6 other)) &&
  isSameZone addr (ToIPAddressIPv6 other).

(** [GetSegment(index)] is [addr.init().getSegment(index)]. *)
Definition GetSegmentIPv4 (addr : IPv4Address) (i : Z) : outcome AddressDivision :=
  getDivision (GetSectionIPv4 addr) i.

Definition GetSegmentIPv6 (addr : IPv6Address) (i : Z) : outcome AddressDivision :=
  getDivision (GetSectionIPv6 addr) i.


Definition GetSegmentCountIPv6 (addr : IPv6Address) : Z :=
  GetSegmentCount (GetSectionIPv6 addr).

Definition isNil (addr : Address) : bool :=
  match section addr with
  | None => true
  | Some _ => false
  end.

(** ipv4addr.go:564-630. *)
Definition IsMulticastIPv4 (addr : IPv4Address) : outcome bool :=
  seg0 <- GetSegmentIPv4 addr 0 ;;
  Ok (MatchesWithPrefixMask seg0 224 4).

Definition matchesAt (addr : IPv4Address) (i : Z) (v : SegInt) : outcome bool :=
  seg <- GetSegmentIPv4 addr i ;; Ok (Matches seg v).

Definition isZeroAt (addr : IPv4Address) (i : Z) : outcome bool :=
  seg <- GetSegmentIPv4 addr i ;; Ok (IsZeroSeg seg).

Definition IsLinkLocalIPv4 (addr : IPv4Address) : outcome bool :=
  m <- IsMulticastIPv4 addr ;;
  if m then
    andAlso (matchesAt addr 0 224)
      (andAlso (isZeroAt addr 1)
         (andAlso (isZeroAt addr 2) (matchesAt addr 3 252)))
  else andAlso (matchesAt addr 0 169) (matchesAt addr 1 254).

Definition IsPrivateIPv4 (addr : IPv4Address) : outcome bool :=
  seg0 <- GetSegmentIPv4 addr 0 ;;
  seg1 <- GetSegmentIPv4 addr 1 ;;
  Ok (Matches seg0 10 ||
      (Matches seg0 172 && MatchesWithPrefixMask seg1 16 4) ||
      (Matches seg0 192 && Matches seg1 168)).


Definition IsAnyLocalIPv4 (addr : IPv4Address) : bool :=
  isNil addr || IsZero addr.


Definition IsLocalIPv4 (addr : IPv4Address) : outcome bool :=
  m <- IsMulticastIPv4 addr ;;
  if m then
    seg0 <- GetSegmentIPv4 addr 0 ;;
    if Matches seg0 239 then Ok true
    else
      seg1 <- GetSegmentIPv4 addr 1 ;;
      seg2 <- GetSegmentIPv4 addr 2 ;;
      Ok ((Matches seg0 224 && IsZeroSeg seg1 && IsZeroSeg seg2) ||
          (Matches seg0 232 && negb (IsZeroSeg seg1 && IsZeroSeg seg2)))
  else
    orElse (IsLinkLocalIPv4 addr)
      (orElse (IsPrivateIPv4 addr) (Ok (IsAnyLocalIPv4 addr))).

(** [IPv6Address.IsLoopback] (part_000:634-647): the loop over the
    leading segments, then the last one. *)
Fixpoint leadingAreZero (addr : IPv6Address) (n : nat) (i : Z) : outcome bool :=
  match n with
  | O => Ok true
  | S n' =>
    seg <- GetSegmentIPv6 addr i ;;
    if negb (IsZeroSeg seg) then Ok false
    else leadingAreZero addr n' (i + 1)
  end.

Definition IsLoopbackIPv6 (addr : IPv6Address) : outcome bool :=
  if isNil addr then Ok false
  else
    let lim := GetSegmentCountIPv6 addr - 1 in
    z <- leadingAreZero addr (Z.to_nat lim) 0 ;;
    if z then
      seg <- GetSegmentIPv6 addr (Z.max 0 lim) ;;
      Ok (Matches seg 1)
    else Ok false.






(** ** The cached address provider, exported-IPType copy
    (part_000:2163-2294) *)

Definition IPAddress := Address.

Record cachedAddressProvider : Type := mkCachedAddressProvider {
  addressCreator : option (unit -> option IPAddress * option IPAddress);
  address : option IPAddress;
  hostAddress : option IPAddress
}.

(** Calling a function value; a nil one panics. *)
Definition callCreator
    (f : option (unit -> option IPAddress * option IPAddress))
    : outcome (option IPAddress * option IPAddress) :=
  match f with
  | None => Panic
  | Some g => Ok (g tt)
  end.

(** [getCachedAddresses] (part_000:2248-2256): the returned addresses
    and the provider after the stores. The creator is called in the
    branch where it is nil. *)
Definition getCachedAddresses (cached : cachedAddressProvider)
    : outcome (option IPAddress * option IPAddress * cachedAddressProvider) :=
  match addressCreator cached with
  | None =>
    created <- callCreator (addressCreator cached) ;;
    let '(addr, host) := created in
    Ok (addr, host, mkCachedAddressProvider (addressCreator cached) addr host)
  | Some _ => Ok (None, None, cached)
  end.

(** [getProviderAddress] (part_000:2239-2246). *)
Definition getProviderAddress (cached : cachedAddressProvider)
    : outcome (option IPAddress * cachedAddressProvider) :=
  match address cached with
  | None =>
    r <- getCachedAddresses cached ;;
    let '(res, _, cached') := r in Ok (res, cached')
  | Some res => Ok (Some res, cached)
  end.

(** [getProviderHostAddress] (part_000:2230-2237). *)
Definition getProviderHostAddress (cached : cachedAddressProvider)
    : outcome (option IPAddress * cachedAddressProvider) :=
  match hostAddress cached with
  | None =>
    r <- getCachedAddresses cached ;;
    let '(_, res, cached') := r in Ok (res, cached')
  | Some res => Ok (Some res, cached)
  end.

(** ** Remaining wrappers and instances *)

(** [IPv4Address.ToPrefixBlock] (ipv4addr.go:375-377). *)
Definition ToPrefixBlockIPv4 (addr : IPv4Address) : IPv4Address :=
  mapSection toPrefixBlock (initIPv4 addr).

(** Modelled from the spec: the segment-level [checkForPrefixMask] is
    not in the sources. Section 4.1: it classifies a single-valued
    segment whose bits are ones then zeros as a network mask, yielding
    the count of leading ones, and one whose bits are zeros then ones
    as a host mask, yielding the count of trailing ones. *)
Definition checkForPrefixMaskSeg (seg : AddressDivision) : PrefixLen * PrefixLen :=
  if isMultipleSeg seg then (None, None)
  else
    let bits := GetBitCount seg in
    let candidates := valuesBetween 0 bits in
    (find (fun n => value seg =? GetMaxValue seg - (2 ^ (bits - n) - 1))
       candidates,
     find (fun t => value seg =? 2 ^ t - 1) candidates).

(** A section of single-valued IPv4 or IPv6 segments without prefix
    length, for stating examples. *)
Definition ipv4SectionOf (vals : list SegInt) : IPAddressSection :=
  initSection
    (createIPSection (map (fun v => mkDivision ipv4Seg v v None) vals)
       ipv4Type 0).

Definition ipv6SectionOf (vals : list SegInt) : IPAddressSection :=
  initSection
    (createIPSection (map (fun v => mkDivision ipv6Seg v v None) vals)
       ipv6Type 0).


(** The bounds of the segments of a section. *)
Definition boundsOf (segs : list AddressDivision) : list (SegInt * SegInt) :=
  map (fun seg => (value seg, upperValue seg)) segs.

(** The prefix length recorded by [assignPrefix] when it returns. *)
Definition recordedPrefix (r : outcome IPAddressSection) : option PrefixLen :=
  match r with
  | Ok res => Some (prefixLength res)
  | _ => None
  end.


(** The segment values of 1.2.3.4, as a value provider. *)
Definition vals1234 (i : Z) : SegInt := nth (Z.to_nat i) [1; 2; 3; 4] 0.

(** A section carries no prefix length: neither the section nor any of
    its segments has one. *)
Definition noPrefix (sec : IPAddressSection) : Prop :=
  prefixLength sec = None /\
  Forall (fun seg => divisionPrefixLength seg = None) (divisions sec).

(** An end point of a range is the single unprefixed, unzoned address
    holding the given segment values. *)
Definition isEndPoint (a : Address) (vals : list SegInt) : Prop :=
  exists sec,
    section a = Some sec /\ zone a = NoZone /\ noPrefix sec /\
    boundsOf (divisions sec) = map (fun v => (v, v)) vals.

(** The values [createSegments] hands to the creator for segment [i]:
    the lower provider's value, or the upper provider's when there is
    no lower provider, and the upper provider's value, or the lower
    one's when there is no upper provider. *)
Definition lowerValueAt (lowerValueProvider upperValueProvider : SegmentValueProvider)
    (i : Z) : SegInt :=
  match lowerValueProvider, upperValueProvider with
  | Some f, _ => f i
  | None, Some g => g i
  | None, None => 0
  end.

Definition upperValueAt (lowerValueProvider upperValueProvider : SegmentValueProvider)
    (i : Z) : SegInt :=
  match lowerValueProvider, upperValueProvider with
  | Some _, Some g => g i
  | Some f, None => f i
  | None, Some g => g i
  | None, None => 0
  end.

(** The creator stores the bounds it is given, as every creator does
    for values that fit the width of its segments. *)
Definition keepsBounds (creator : AddressSegmentCreator) (lo hi : SegInt) : Prop :=
  forall p, value (createSegment lo hi p) = lo /\
            upperValue (createSegment lo hi p) = hi.

(** The largest value of the segments a creator builds, and the values
    that fit their width. *)
Definition creatorMaxValue (creator : AddressSegmentCreator) : SegInt :=
  GetMaxValue (createSegment 0 0 None).

Definition fitsSegment (creator : AddressSegmentCreator) (v : SegInt) : Prop :=
  0 <= v <= creatorMaxValue creator.

(** The segments of a section are of one kind. *)
Definition ofOneKind (segs : list AddressDivision) : Prop :=
  exists k, Forall (fun seg => kind seg = k) segs.

(** The excess leading bytes of an over-long byte array and the bytes
    retained for the segments. *)
Definition excessBytes (bytes : list byte) (expectedByteCount : Z) : list byte :=
  firstn (Z.to_nat (Z.of_nat (length bytes) - expectedByteCount)) bytes.

Definition retainedBytes (bytes : list byte) (expectedByteCount : Z) : list byte :=
  skipn (Z.to_nat (Z.of_nat (length bytes) - expectedByteCount)) bytes.

(** The excess bytes are a sign extension: all 0x00, or all 0xff in
    front of a retained byte whose most significant bit is 1. *)
Definition legalSignExtension (bytes : list byte) (expectedByteCount : Z) : Prop :=
  Forall (fun b => byteVal b = 0) (excessBytes bytes expectedByteCount) \/
  (Forall (fun b => byteVal b = 255) (excessBytes bytes expectedByteCount) /\
   exists b rest,
     retainedBytes bytes expectedByteCount = b :: rest /\
     Z.testbit (byteVal b) 7 = true).

(** The invariant of a segment: [0 <= low <= upper <= max]. *)
Definition wellFormedSeg (seg : AddressDivision) : Prop :=
  0 <= value seg /\ value seg <= upperValue seg /\
  upperValue seg <= GetMaxValue seg.





(** The segments of a section paired with the mask values they meet. *)
Definition maskPairs (section other : IPAddressSection)
    : list (AddressDivision * SegInt) :=
  combine (divisions section) (map value (divisions other)).




(** The segment that [getSubnetSegments], verifying the mask, leaves in
    place of [seg] for mask value [m] and segment prefix [pref]; whether
    it is [seg] itself; whether the masked segment is sequential. *)
Definition maskedSegment (pref : PrefixLen) (seg : AddressDivision) (m : SegInt)
    : AddressDivision :=
  match maskSegment true seg m with
  | inr (v, u) =>
    if negb (segsSame pref (divisionPrefixLength seg) v (value seg) u
               (upperValue seg))
    then deriveNewMultiSeg seg v u pref
    else seg
  | inl _ => seg
  end.

Definition segmentUnchanged (pref : PrefixLen) (seg : AddressDivision) (m : SegInt)
    : bool :=
  match maskSegment true seg m with
  | inr (v, u) =>
    segsSame pref (divisionPrefixLength seg) v (value seg) u (upperValue seg)
  | inl _ => true
  end.

Definition segmentSequential (seg : AddressDivision) (m : SegInt) : bool :=
  match maskSegment true seg m with
  | inr _ => true
  | inl _ => false
  end.

Fixpoint allSequential (segs others : list AddressDivision) : bool :=
  match segs, others with
  | seg :: segs', o :: others' =>
    segmentSequential seg (value o) && allSequential segs' others'
  | _, _ => true
  end.

Fixpoint allUnchanged (bitsPerSegment : BitCount) (prefLen : PrefixLen) (i : Z)
    (segs others : list AddressDivision) : bool :=
  match segs, others with
  | seg :: segs', o :: others' =>
    segmentUnchanged (getSegmentPrefixLength bitsPerSegment prefLen i) seg
      (value o) &&
    allUnchanged bitsPerSegment prefLen (i + 1) segs' others'
  | _, _ => true
  end.

Fixpoint maskedSegments (bitsPerSegment : BitCount) (prefLen : PrefixLen) (i : Z)
    (segs others : list AddressDivision) : list AddressDivision :=
  match segs, others with
  | seg :: segs', o :: others' =>
    maskedSegment (getSegmentPrefixLength bitsPerSegment prefLen i) seg (value o)
    :: maskedSegments bitsPerSegment prefLen (i + 1) segs' others'
  | _, _ => []
  end.


(** Example addresses: the prefix blocks 1.2.3.0/24 and
    1:2:3:4:5:6:7:0/112, the latter with zone eth0. *)
Definition blockIPv4Example : IPv4Address :=
  newIPv4Address
    (toPrefixBlock (withPrefixLength (ipv4SectionOf [1; 2; 3; 4]) (Some 24))).

Definition zonedBlockIPv6Example : IPv6Address :=
  NewIPv6AddressZoned
    (toPrefixBlock
       (withPrefixLength (ipv6SectionOf [1; 2; 3; 4; 5; 6; 7; 8]) (Some 112)))
    "eth0"%string.

(** Example value providers: the lower and upper values of
    1.2.3.0-255. *)
Definition lowerVals1230 (i : Z) : SegInt := nth (Z.to_nat i) [1; 2; 3; 0] 0.
Definition upperVals123255 (i : Z) : SegInt := nth (Z.to_nat i) [1; 2; 3; 255] 0.

(** An example provider whose creator is present and whose cache is
    empty. *)
Definition uncachedProviderExample : cachedAddressProvider :=
  mkCachedAddressProvider (Some (fun _ => (Some zeroIPv4, Some zeroIPv4)))
    None None.

(** ** Shapes of mask sections *)

(** The lower values of the segments are all zero, respectively all the
    maximal value of their segment. *)
Definition zeroSegs (segs : list AddressDivision) : Prop :=
  Forall (fun seg => value seg = 0) segs.

Definition maxSegs (segs : list AddressDivision) : Prop :=
  Forall (fun seg => value seg = GetMaxValue seg) segs.

(** The lower value of the segment is neither zero nor the maximal
    value: the scan of [checkForPrefixMask] hands such a segment to the
    segment-level classifier. *)
Definition partialSeg (seg : AddressDivision) : Prop :=
  value seg <> 0 /\ value seg <> GetMaxValue seg.

(** ** Reading segments from bytes *)

(** The value [toSegments] accumulates from a run of bytes: each byte is
    shifted in from the right into a [SegInt]. *)
Definition segmentValueOfBytes (bs : list byte) : SegInt :=
  fold_left (fun v b => shiftInByte v (byteVal b)) bs 0.

(** The big-endian number written by a run of bytes. *)
Definition bigEndian (bs : list byte) : Z :=
  fold_left (fun v b => v * 256 + byteVal b) bs 0.

(** The bytes of segment [i] in an array holding [bytesPerSegment] bytes
    for each segment. *)
Definition segmentBytes (bytes : list byte) (bytesPerSegment : Z) (i : Z)
    : list byte :=
  firstn (Z.to_nat bytesPerSegment)
    (skipn (Z.to_nat (i * bytesPerSegment)) bytes).

(** The single-valued segments holding the values of the successive
    runs of [bytesPerSegment] bytes, each with the segment prefix length
    the section prefix length gives it. *)
Definition segmentsOfBytes {creator : AddressSegmentCreator}
    (bytes : list byte) (segmentCount bytesPerSegment : Z)
    (bitsPerSegment : BitCount) (prefixLength : PrefixLen)
    : list AddressDivision :=
  map (fun i =>
         let v := segmentValueOfBytes (segmentBytes bytes bytesPerSegment i) in
         createSegment v v
           (getSegmentPrefixLength bitsPerSegment prefixLength i))
      (zrange 0 (Z.to_nat segmentCount)).

(** The byte that extends a shorter array to the left: 0xff when the
    top bit of its first byte is set, 0x00 otherwise. *)
Definition signExtensionByte (bytes : list byte) : byte :=
  match bytes with
  | b :: _ => if Z.testbit (byteVal b) 7 then xff else x00
  | [] => x00
  end.

(** A shorter array extended to [expectedByteCount] bytes. *)
Definition signExtended (bytes : list byte) (expectedByteCount : Z) : list byte :=
  repeat (signExtensionByte bytes)
    (Z.to_nat (expectedByteCount - Z.of_nat (length bytes))) ++ bytes.

(** ** The interned MAC segment values (macsegment.go:245-288) *)

Module MACSegmentCache.

(** Modelled from the spec: the constant [MACMaxValuePerSegment] is not
    in the sources; table 6.4 gives 0xff for MAC segments. *)
Definition MACMaxValuePerSegment : Z := 255.

Definition useMACSegmentCache : bool := true.

(** The zero value of [macSegmentValues], which [make] fills the table
    with. *)
Definition zeroMACSegmentValues : AddressDivision := mkDivision macSeg 0 0 None.

(** The loop of [makeSegmentCacheMAC] over the indices of the table:
    entry [i] gets [MACSegInt(i)] for both bounds. *)
Fixpoint fillSegmentCacheMAC (n : nat) (i : Z) (segmentCacheMAC : list AddressDivision)
    : outcome (list AddressDivision) :=
  match n with
  | O => Ok segmentCacheMAC
  | S n' =>
    let segi := toMACSegInt i in
    segmentCacheMAC' <-
      assign segmentCacheMAC i (mkDivision macSeg segi segi None) ;;
    fillSegmentCacheMAC n' (i + 1) segmentCacheMAC'
  end.

(** [makeSegmentCacheMAC] (macsegment.go:258-269); without the cache
    the slice stays nil. *)
Definition makeSegmentCacheMAC : outcome (list AddressDivision) :=
  if useMACSegmentCache then
    let segmentCacheMAC :=
      repeat zeroMACSegmentValues (Z.to_nat (MACMaxValuePerSegment + 1)) in
    fillSegmentCacheMAC (length segmentCacheMAC) 0 segmentCacheMAC
  else Ok [].

(** [checkValuesMAC] (macsegment.go:252-256): panics on an entry that
    does not hold the values asked for. *)
Definition checkValuesMAC (value upperValue : Z) (result : AddressDivision)
    : outcome unit :=
  if negb (GetSegmentValue result =? value) ||
     negb (GetUpperSegmentValue result =? upperValue)
  then Panic
  else Ok tt.

(** [newMACSegmentVal] (macsegment.go:271-278), reading the package
    variable [segmentCacheMAC] as [makeSegmentCacheMAC] initialized
    it. *)
Definition newMACSegmentVal (value : Z) : outcome AddressDivision :=
  if useMACSegmentCache then
    segmentCacheMAC <- makeSegmentCacheMAC ;;
    result <- indexAt segmentCacheMAC value ;;
    _ <- checkValuesMAC value value result ;;
    Ok result
  else Ok (mkDivision macSeg value value None).

(** [newMACSegmentValues] (macsegment.go:280-288). *)
Definition newMACSegmentValues (value upperValue : Z) : outcome AddressDivision :=
  if value =? upperValue then newMACSegmentVal value
  else if useMACSegmentCache && (value =? 0) &&
          (upperValue =? MACMaxValuePerSegment)
  then Ok allRangeValsMAC
  else Ok (mkDivision macSeg value upperValue None).

End MACSegmentCache.

(** A division holds exactly the given kind, bounds and prefix
    length. *)
Definition holdsValues (seg : AddressDivision) (k : segKind) (lower upper : SegInt)
    (p : PrefixLen) : bool :=
  match kind seg, k with
  | ipv4Seg, ipv4Seg | ipv6Seg, ipv6Seg | macSeg, macSeg => true
  | _, _ => false
  end &&
  (value seg =? lower) && (upperValue seg =? upper) &&
  PrefixEquals (divisionPrefixLength seg) p.

(** ** Segments from two 64-bit integers (ipsection.go:800-836) *)

Section CreateSegmentsUint64.

Context {creator : AddressSegmentCreator}.

(** [getHostSegmentIndex] is not in the sources; [createSegmentsUint64]
    is embedded over any such index function. *)
Variable getHostSegmentIndex : BitCount -> Z -> BitCount -> Z.

(** The inner [for] loop, whose test comes after the body: it writes
    the segment at [segmentIndex] from the low bits of [bytes] and
    moves down until [segmentIndex] falls below [lowIndex]. It returns
    [segmentIndex] and the slice. [fuel] bounds the iterations. *)
Fixpoint uint64SegmentsInner (segmentMask : SegInt) (bitsPerSegment : BitCount)
    (prefixLength : PrefixLen) (fuel : nat) (lowIndex segmentIndex : Z)
    (bytes : Z) (segments : list (option AddressDivision))
    : outcome (Z * list (option AddressDivision)) :=
  match fuel with
  | O => OutOfFuel
  | S fuel' =>
    let segmentPrefixLength :=
      getSegmentPrefixLength bitsPerSegment prefixLength segmentIndex in
    let value := Z.land segmentMask (toSegInt bytes) in
    let seg := createSegment value value segmentPrefixLength in
    segments' <- assign segments segmentIndex (Some seg) ;;
    let segmentIndex := segmentIndex - 1 in
    if segmentIndex <? lowIndex then Ok (segmentIndex, segments')
    else
      uint64SegmentsInner segmentMask bitsPerSegment prefixLength fuel'
        lowIndex segmentIndex (Z.shiftr bytes bitsPerSegment) segments'
  end.

(** The outer [for] loop: after the low segments it starts over with
    [highBytes] and [lowIndex = 0], unless [lowIndex] was 0 already. *)
Fixpoint uint64SegmentsOuter (segmentMask : SegInt) (bitsPerSegment : BitCount)
    (prefixLength : PrefixLen) (highBytes : Z) (fuel : nat)
    (lowIndex segmentIndex : Z) (bytes : Z)
    (segments : list (option AddressDivision))
    : outcome (list (option AddressDivision)) :=
  match fuel with
  | O => OutOfFuel
  | S fuel' =>
    r <- uint64SegmentsInner segmentMask bitsPerSegment prefixLength
           (S (length segments)) lowIndex segmentIndex bytes segments ;;
    let '(segmentIndex, segments) := r in
    if lowIndex =? 0 then Ok segments
    else
      uint64SegmentsOuter segmentMask bitsPerSegment prefixLength highBytes
        fuel' 0 segmentIndex highBytes segments
  end.

(** [createSegmentsUint64]. [highBytes] and [lowBytes] are [uint64];
    the shift that builds [segmentMask] is done in [SegInt], and a
    negative shift count panics. *)
Definition createSegmentsUint64 (segments : list (option AddressDivision))
    (highBytes lowBytes : Z) (bytesPerSegment : Z) (bitsPerSegment : BitCount)
    (prefixLength : PrefixLen) : outcome (list (option AddressDivision)) :=
  if bitsPerSegment <? 0 then Panic
  else
    let allOnes := 2 ^ 32 - 1 in
    let segmentMask :=
      Z.lxor (toSegInt (Z.shiftl allOnes bitsPerSegment)) allOnes in
    let lowSegCount := getHostSegmentIndex 64 bytesPerSegment bitsPerSegment in
    let segLen := Z.of_nat (length segments) in
    let lowIndex := segLen - lowSegCount in
    let lowIndex := if lowIndex <? 0 then 0 else lowIndex in
    let segmentIndex := segLen - 1 in
    uint64SegmentsOuter segmentMask bitsPerSegment prefixLength highBytes 2
      lowIndex segmentIndex lowBytes segments.

End CreateSegmentsUint64.

(** The digit of [bitsPerSegment] bits that segment [i] of
    [segmentCount] segments holds of the number [n]. *)
Definition segmentDigit (n : Z) (bitsPerSegment : BitCount)
    (segmentCount i : Z) : SegInt :=
  (n / 2 ^ (bitsPerSegment * (segmentCount - 1 - i))) mod 2 ^ bitsPerSegment.

(** ** Address providers, the [ipType] copy (part_000:872-1781) *)

Module Provider.

(** Modelled from the spec: the type [IPVersion] is not in the sources;
    the code uses its three constants. *)
Inductive IPVersion : Type := IPv4 | IPv6 | IndeterminateIPVersion.

Definition IPVersionEqb (a b : IPVersion) : bool :=
  match a, b with
  | IPv4, IPv4 | IPv6, IPv6
  | IndeterminateIPVersion, IndeterminateIPVersion => true
  | _, _ => false
  end.

(** Modelled from the spec: [IPVersion.index] is not in the sources;
    it indexes the two-entry array [versionedValues], and the index of
    [IndeterminateIPVersion] lies beyond the array. *)
Definition index (version : IPVersion) : Z :=
  match version with
  | IPv4 => 0
  | IPv6 => 1
  | IndeterminateIPVersion => 2
  end.

(** An [IncompatibleAddressError] value; nil is [None]. *)
Definition IncompatibleAddressError := option errorKind.

(** Modelled from the spec: [boolSetting] is not in the sources; the
    code builds it from two booleans, whether the answer is known and
    the answer. *)
Record boolSetting : Type := mkBoolSetting {
  isSet : bool;
  val : bool
}.

(** [addressResult] (part_000:1205-1210). *)
Record addressResult : Type := mkAddressResult {
  address : option IPAddress;
  hostAddress : option IPAddress;
  addrErr : IncompatibleAddressError;
  hostErr : IncompatibleAddressError
}.

(** Modelled from the spec: the qualifier of a parsed string is not in
    the sources; the code reads its mask and its zone. *)
Record qualifier : Type := mkQualifier {
  getMaskLower : option IPAddress;
  getZone : Zone
}.

Section Providers.

(** What the function values stored in a provider may read and change
    when they are called. *)
Variable World : Type.

(** [cachedAddressProvider] (part_000:1212-1219). *)
Record cachedAddressProvider : Type := mkCachedAddressProvider {
  addressCreator : option (World -> addressResult * World);
  addresses : option addressResult
}.

(** [getCachedAddresses] (part_000:1281-1312): the four results, the
    provider after the store and the world after the call. *)
Definition getCachedAddresses (cached : cachedAddressProvider) (w : World)
    : addressResult * cachedAddressProvider * World :=
  match addresses cached with
  | None =>
    match addressCreator cached with
    | Some create =>
      let '(created, w') := create w in
      let addresses' :=
        mkAddressResult (address created) (hostAddress created)
          (addrErr created) (hostErr created) in
      (created, mkCachedAddressProvider (addressCreator cached) (Some addresses'),
       w')
    | None => (mkAddressResult None None None None, cached, w)
    end
  | Some addrs =>
    (mkAddressResult (address addrs) (hostAddress addrs) (addrErr addrs)
       (hostErr addrs), cached, w)
  end.

(** [getProviderHostAddress] (part_000:1261-1269). *)
Definition getProviderHostAddress (cached : cachedAddressProvider) (w : World)
    : option IPAddress * IncompatibleAddressError * cachedAddressProvider * World :=
  match addresses cached with
  | None =>
    let '(r, cached', w') := getCachedAddresses cached w in
    (hostAddress r, hostErr r, cached', w')
  | Some addrs => (hostAddress addrs, hostErr addrs, cached, w)
  end.

(** [getProviderAddress] (part_000:1271-1279). *)
Definition getProviderAddress (cached : cachedAddressProvider) (w : World)
    : option IPAddress * IncompatibleAddressError * cachedAddressProvider * World :=
  match addresses cached with
  | None =>
    let '(r, cached', w') := getCachedAddresses cached w in
    (address r, addrErr r, cached', w')
  | Some addrs => (address addrs, addrErr addrs, cached, w)
  end.

(** [versionedAddressCreator] (part_000:1342-1352), with the embedded
    provider as a field. *)
Record versionedAddressCreator : Type := mkVersionedAddressCreator {
  cachedProvider : cachedAddressProvider;
  adjustedVersion : IPVersion;
  versionedAddressCreatorFunc :
    option (IPVersion -> World ->
            option IPAddress * IncompatibleAddressError * World);
  versionedValues : list (option IPAddress)
}.

Definition withVersionedValues (versioned : versionedAddressCreator)
    (values : list (option IPAddress)) : versionedAddressCreator :=
  mkVersionedAddressCreator (cachedProvider versioned)
    (adjustedVersion versioned) (versionedAddressCreatorFunc versioned) values.

Definition withCachedProvider (versioned : versionedAddressCreator)
    (cached : cachedAddressProvider) : versionedAddressCreator :=
  mkVersionedAddressCreator cached (adjustedVersion versioned)
    (versionedAddressCreatorFunc versioned) (versionedValues versioned).

(** [versionedAddressCreator.isProvidingIPAddress]
    (part_000:1358-1360). *)
Definition isProvidingIPAddress (versioned : versionedAddressCreator) : bool :=
  negb (IPVersionEqb (adjustedVersion versioned) IndeterminateIPVersion).

(** [getVersionedAddress] (part_000:1378-1404). *)
Definition getVersionedAddress (versioned : versionedAddressCreator)
    (version : IPVersion) (w : World)
    : outcome (option IPAddress * IncompatibleAddressError *
               versionedAddressCreator * World) :=
  let index := index version in
  if Provider.index IndeterminateIPVersion <=? index then
    Ok (None, None, versioned, w)
  else
    r <- match versionedAddressCreatorFunc versioned with
         | Some create =>
           addr <- indexAt (versionedValues versioned) index ;;
           match addr with
           | None =>
             let '(addr, err, w') := create version w in
             match err with
             | None =>
               values' <- assign (versionedValues versioned) index addr ;;
               Ok (err, withVersionedValues versioned values', w')
             | Some _ => Ok (err, versioned, w')
             end
           | Some _ => Ok (None, versioned, w)
           end
         | None => Ok (None, versioned, w)
         end ;;
    let '(err, versioned', w') := r in
    addr <- indexAt (versionedValues versioned') index ;;
    Ok (addr, err, versioned', w').

(** [adjustedAddressCreator] (part_000:1496-1500). *)
Record adjustedAddressCreator : Type := mkAdjustedAddressCreator {
  versioned : versionedAddressCreator;
  networkPrefixLength : PrefixLen
}.

(** [adjustedAddressCreator.getProviderAddress] (part_000:1506-1511);
    the call on the embedded creator is the one of its embedded cached
    provider. *)
Definition getAdjustedProviderAddress (adjusted : adjustedAddressCreator)
    (w : World)
    : option IPAddress * IncompatibleAddressError * adjustedAddressCreator * World :=
  if negb (isProvidingIPAddress (versioned adjusted)) then
    (None, None, adjusted, w)
  else
    let '(res, err, cached', w') :=
      getProviderAddress (cachedProvider (versioned adjusted)) w in
    (res, err,
     mkAdjustedAddressCreator (withCachedProvider (versioned adjusted) cached')
       (networkPrefixLength adjusted),
     w').

(** The methods of the [ipAddressProvider] interface that
    [containsProviderFunc] calls on its operand; the operand is another
    object, whose state is part of the world. *)
Record ipAddressProvider : Type := mkIPAddressProvider {
  isInvalid : World -> bool * World;
  getProviderIPVersion : World -> IPVersion * World
}.

(** [allCreator] (part_000:1600-1607), as far as
    [containsProviderFunc] reads it. *)
Record allCreator : Type := mkAllCreator {
  adjusted : adjustedAddressCreator;
  allQualifier : qualifier
}.

Definition withAdjusted (all : allCreator) (a : adjustedAddressCreator)
    : allCreator :=
  mkAllCreator a (allQualifier all).

Definition allAdjustedVersion (all : allCreator) : IPVersion :=
  adjustedVersion (versioned (adjusted all)).

Definition isSomeAddress (a : option IPAddress) : bool :=
  match a with
  | Some _ => true
  | None => false
  end.

(** [containsProviderFunc] (part_000:1704-1721); both addresses handed
    to [functor] come from [all.getProviderAddress()]. *)
Definition containsProviderFunc (all : allCreator)
    (otherProvider : ipAddressProvider)
    (functor : option IPAddress -> option IPAddress -> bool) (w : World)
    : boolSetting * allCreator * World :=
  let '(invalid, w) := isInvalid otherProvider w in
  if invalid then (mkBoolSetting true false, all, w)
  else if IPVersionEqb (allAdjustedVersion all) IndeterminateIPVersion then
    (mkBoolSetting true true, all, w)
  else
    let '(otherVersion, w) := getProviderIPVersion otherProvider w in
    if negb (IPVersionEqb (allAdjustedVersion all) otherVersion) then
      (mkBoolSetting true false, all, w)
    else if negb (isSomeAddress (getMaskLower (allQualifier all))) &&
            String.eqb (getZone (allQualifier all)) NoZone then
      (mkBoolSetting true true, all, w)
    else
      let '(addr, err, adjusted', w) :=
        getAdjustedProviderAddress (adjusted all) w in
      let all := withAdjusted all adjusted' in
      match err with
      | Some _ => (mkBoolSetting true false, all, w)
      | None =>
        let '(otherAddr, err, adjusted', w) :=
          getAdjustedProviderAddress (adjusted all) w in
        let all := withAdjusted all adjusted' in
        match err with
        | Some _ => (mkBoolSetting true false, all, w)
        | None => (mkBoolSetting true (functor addr otherAddr), all, w)
        end
      end.

End Providers.

Arguments mkCachedAddressProvider {World} _ _.
Arguments addressCreator {World} _.
Arguments addresses {World} _.
Arguments getCachedAddresses {World} _ _.
Arguments getProviderHostAddress {World} _ _.
Arguments getProviderAddress {World} _ _.
Arguments mkVersionedAddressCreator {World} _ _ _ _.
Arguments cachedProvider {World} _.
Arguments adjustedVersion {World} _.
Arguments versionedAddressCreatorFunc {World} _.
Arguments versionedValues {World} _.
Arguments withVersionedValues {World} _ _.
Arguments withCachedProvider {World} _ _.
Arguments isProvidingIPAddress {World} _.
Arguments getVersionedAddress {World} _ _ _.
Arguments mkAdjustedAddressCreator {World} _ _.
Arguments versioned {World} _.
Arguments networkPrefixLength {World} _.
Arguments getAdjustedProviderAddress {World} _ _.
Arguments mkIPAddressProvider {World} _ _.
Arguments isInvalid {World} _ _.
Arguments getProviderIPVersion {World} _ _.
Arguments mkAllCreator {World} _ _.
Arguments adjusted {World} _.
Arguments allQualifier {World} _.
Arguments withAdjusted {World} _ _.
Arguments allAdjustedVersion {World} _.
Arguments containsProviderFunc {World} _ _ _ _.

End Provider.

(** * Properties *)

(** ** The cached address provider *)

(** C10: in the exported-IPType copy, [getCachedAddresses] calls the
    stored creator only when it is nil. A call either panics on the nil
    function value, or, with a creator present, returns nil addresses
    and leaves the provider as it was, so the cache is never filled. *)
Theorem getCachedAddresses_never_creates :
  forall cached : cachedAddressProvider,
    (addressCreator cached = None /\ getCachedAddresses cached = Panic) \/
    (exists f, addressCreator cached = Some f /\
               getCachedAddresses cached = Ok (None, None, cached) /\
               (address cached = None ->
                getProviderAddress cached = Ok (None, cached)) /\
               (hostAddress cached = None ->
                getProviderHostAddress cached = Ok (None, cached))).
Proof.
  intros [creator a h]; destruct creator as [f|]; simpl.
  - right. exists f. repeat split; intros Hnil; simpl in Hnil; subst;
      reflexivity.
  - left. split; reflexivity.
Qed.

(** ** Prefix assignment *)

Lemma bind_Ok_inv :
  forall (A B : Type) (m : outcome A) (k : A -> outcome B) (b : B),
    bind m k = Ok b -> exists a, m = Ok a /\ k a = Ok b.
Proof.
  intros A B m k b H; destruct m; simpl in H; try discriminate.
  eauto.
Qed.

(** Whatever the segments, a returning [assignPrefix] records the
    requested length when it lies in [0, boundaryBits] and no shorter
    prefix is attached; the bound when the request exceeds it. *)
Lemma assignPrefix_records :
  forall p segments res singleOnly boundaryBits maxBits r,
    assignPrefix (Some p) segments res singleOnly boundaryBits maxBits = Ok r ->
    prefixLength r =
      let clamped := if p <? 0 then (0, p)
                     else if boundaryBits <? p then (boundaryBits, boundaryBits)
                     else (p, p) in
      if 0 <? Z.of_nat (length segments) then
        match prefixLength res with
        | Some sp => if sp <? fst clamped then Some sp else Some (snd clamped)
        | None => Some (snd clamped)
        end
      else Some (snd clamped).
Proof.
  intros p segments res singleOnly boundaryBits maxBits r H.
  unfold assignPrefix in H.
  set (cl := if p <? 0 then (0, Some p)
             else if boundaryBits <? p then (boundaryBits, Some boundaryBits)
             else (p, Some p)) in H.
  assert (Hcl : cl = (fst (if p <? 0 then (0, p)
                           else if boundaryBits <? p
                                then (boundaryBits, boundaryBits)
                                else (p, p)),
                      Some (snd (if p <? 0 then (0, p)
                                 else if boundaryBits <? p
                                      then (boundaryBits, boundaryBits)
                                      else (p, p))))).
  { subst cl. destruct (p <? 0); [reflexivity|].
    destruct (boundaryBits <? p); reflexivity. }
  rewrite Hcl in H. clear Hcl cl. cbv zeta.
  set (c := if p <? 0 then (0, p)
            else if boundaryBits <? p then (boundaryBits, boundaryBits)
            else (p, p)) in *.
  destruct (0 <? Z.of_nat (length segments)).
  - unfold GetPrefixLength in H.
    destruct (prefixLength res) as [sp|].
    + destruct (sp <? fst c).
      * apply bind_Ok_inv in H. destruct H as [s1 [_ H]].
        apply bind_Ok_inv in H. destruct H as [s2 [_ H]].
        inversion H; subst; reflexivity.
      * apply bind_Ok_inv in H. destruct H as [s1 [_ H]].
        apply bind_Ok_inv in H. destruct H as [s2 [_ H]].
        inversion H; subst; reflexivity.
    + apply bind_Ok_inv in H. destruct H as [s1 [_ H]].
      apply bind_Ok_inv in H. destruct H as [s2 [_ H]].
      inversion H; subst; reflexivity.
  - inversion H; subst; reflexivity.
Qed.

(** C3: on 1.2.3.4 without prefix, a requested prefix length of -1 is
    applied to the segments as 0 (every segment gets segment prefix 0),
    yet the section records -1: the lower clamp updates [prefLen] and
    not [prefixLength], while the upper clamp updates both (a request
    of 40 bits is recorded as 32). *)
Theorem assignPrefix_negative_not_clamped :
  let sec := ipv4SectionOf [1; 2; 3; 4] in
  (exists res,
     assignPrefix (Some (-1)) (divisions sec) sec false 32 32 = Ok res /\
     prefixLength res = Some (-1) /\
     map divisionPrefixLength (divisions res) = [Some 0; Some 0; Some 0; Some 0]) /\
  recordedPrefix (assignPrefix (Some 40) (divisions sec) sec false 32 32)
    = Some (Some 32).
Proof.
  split.
  - eexists. split; [vm_compute; reflexivity|]. split; reflexivity.
  - vm_compute. reflexivity.
Qed.

(** C2: 1.2.3.4 built with requested prefix length 24. The section
    created from the segments has no prefix length; [assignPrefix]
    records 24 on it and, the host bits of 1.2.3.4 being neither all
    zero nor the full range, leaves the values as they are: the section
    has prefix 24, holds the single address, and is not a prefix block.
    [ToPrefixBlock] yields 1.2.3.0-255 with prefix 24, a prefix block of
    256 addresses. A prefix length alone does not make a section a
    prefix block. *)
Theorem prefixed_address_is_not_block :
  exists segs sec block,
    createSegments (creator := ipv4Creator) (Some vals1234) None 4
      IPv4BitsPerSegment (Some 24) = Ok (map Some segs, false) /\
    prefixLength (createIPSection segs ipv4Type 0) = None /\
    assignPrefix (Some 24) segs (createIPSection segs ipv4Type 0) false
      (4 * IPv4BitsPerSegment) IPv4BitCount = Ok sec /\
    NewIPv4SectionFromPrefixedVals vals1234 4 (Some 24) = Ok sec /\
    boundsOf (divisions sec) = [(1, 1); (2, 2); (3, 3); (4, 4)] /\
    prefixLength sec = Some 24 /\
    map divisionPrefixLength (divisions sec) = [None; None; Some 8; Some 0] /\
    IsPrefixBlock sec = false /\
    GetCount sec = 1 /\
    section (ToPrefixBlockIPv4 (newIPv4Address sec)) = Some block /\
    boundsOf (divisions block) = [(1, 1); (2, 2); (3, 3); (0, 255)] /\
    prefixLength block = Some 24 /\
    IsPrefixBlock block = true /\
    GetCount block = 256.
Proof.
  exists [mkDivision ipv4Seg 1 1 None; mkDivision ipv4Seg 2 2 None;
          mkDivision ipv4Seg 3 3 (Some 8); mkDivision ipv4Seg 4 4 (Some 0)].
  eexists _, _.
  split; [vm_compute; reflexivity|].
  split; [reflexivity|].
  split; [vm_compute; reflexivity|].
  split; [vm_compute; reflexivity|].
  do 5 (split; [vm_compute; reflexivity|]).
  split; [vm_compute; reflexivity|].
  do 3 (split; [vm_compute; reflexivity|]).
  vm_compute. reflexivity.
Qed.

(** ** Equality and containment of IPv6 addresses *)

Lemma addrTypeEqb_eq : forall a b, addrTypeEqb a b = true -> a = b.
Proof. intros [] []; simpl; intros H; try discriminate; reflexivity. Qed.

Lemma segmentsEqual_bounds :
  forall one two, segmentsEqual one two = true -> boundsOf one = boundsOf two.
Proof.
  induction one as [|a one IH]; intros [|b two] H; simpl in H;
    try discriminate; [reflexivity|].
  apply andb_prop in H. destruct H as [H Hrest].
  apply andb_prop in H. destruct H as [Hv Hu].
  apply Z.eqb_eq in Hv. apply Z.eqb_eq in Hu.
  simpl. rewrite Hv, Hu. f_equal. apply IH; assumption.
Qed.

Lemma ipv6_operand_is_initialized :
  forall other, getAddrType other = ipv6Type -> ToIPAddressIPv6 other = other.
Proof.
  intros [sec z] H. unfold getAddrType in H. simpl in H.
  destruct sec; [reflexivity|discriminate].
Qed.

Lemma EqualsIPv6_inv :
  forall addr other,
    EqualsIPv6 addr other = true ->
    getAddrType other = ipv6Type /\
    boundsOf (divisions (GetSectionIPv6 addr))
      = boundsOf (divisions (GetSectionIPv6 other)) /\
    zone addr = zone other.
Proof.
  intros addr other H. unfold EqualsIPv6 in H.
  apply andb_prop in H. destruct H as [H Hz].
  apply andb_prop in H. destruct H as [Ht Hs].
  apply addrTypeEqb_eq in Ht.
  rewrite (ipv6_operand_is_initialized _ Ht) in Hs, Hz.
  split; [assumption|]. split.
  - apply segmentsEqual_bounds. exact Hs.
  - apply String.eqb_eq. exact Hz.
Qed.

Lemma ContainsIPv6_inv :
  forall addr other,
    ContainsIPv6 addr other = true ->
    getAddrType other = ipv6Type /\ zone addr = zone other.
Proof.
  intros addr other H. unfold ContainsIPv6 in H.
  apply andb_prop in H. destruct H as [H Hz].
  apply andb_prop in H. destruct H as [Ht Hs].
  apply addrTypeEqb_eq in Ht.
  rewrite (ipv6_operand_is_initialized _ Ht) in Hz.
  split; [assumption|]. apply String.eqb_eq. exact Hz.
Qed.

(** C9: [IPv6Address.Equals] holds only of an IPv6 operand with the same
    segment bounds and the same zone, [Contains] only of an IPv6 operand
    with the same zone; two addresses whose zones differ are neither
    equal nor contained in each other, whatever their bits. *)
Theorem IPv6_Equals_requires_same_zone :
  forall addr other : IPv6Address,
    (EqualsIPv6 addr other = true ->
       getAddrType other = ipv6Type /\
       boundsOf (divisions (GetSectionIPv6 addr))
         = boundsOf (divisions (GetSectionIPv6 other)) /\
       zone addr = zone other) /\
    (ContainsIPv6 addr other = true ->
       getAddrType other = ipv6Type /\ zone addr = zone other) /\
    (zone addr <> zone other ->
       EqualsIPv6 addr other = false /\ EqualsIPv6 other addr = false /\
       ContainsIPv6 addr other = false /\ ContainsIPv6 other addr = false).
Proof.
  intros addr other. split; [apply EqualsIPv6_inv|].
  split; [apply ContainsIPv6_inv|].
  intros Hz. repeat split.
  - destruct (EqualsIPv6 addr other) eqn:E; [|reflexivity].
    apply EqualsIPv6_inv in E. tauto.
  - destruct (EqualsIPv6 other addr) eqn:E; [|reflexivity].
    apply EqualsIPv6_inv in E. destruct E as [_ [_ E]]. congruence.
  - destruct (ContainsIPv6 addr other) eqn:E; [|reflexivity].
    apply ContainsIPv6_inv in E. tauto.
  - destruct (ContainsIPv6 other addr) eqn:E; [|reflexivity].
    apply ContainsIPv6_inv in E. destruct E as [_ E]. congruence.
Qed.

(** Two addresses ::1 with zones eth0 and eth1. *)
Lemma IPv6_Equals_requires_same_zone_witness :
  let a := NewIPv6AddressZoned (ipv6SectionOf [0; 0; 0; 0; 0; 0; 0; 1]) "eth0"%string in
  let b := NewIPv6AddressZoned (ipv6SectionOf [0; 0; 0; 0; 0; 0; 0; 1]) "eth1"%string in
  boundsOf (divisions (GetSectionIPv6 a)) = boundsOf (divisions (GetSectionIPv6 b)) /\
  EqualsIPv6 a a = true /\
  EqualsIPv6 a b = false /\ EqualsIPv6 b a = false /\
  ContainsIPv6 a b = false /\ ContainsIPv6 b a = false.
Proof.
  intros a b.
  split; [reflexivity|]. split; [reflexivity|].
  apply (IPv6_Equals_requires_same_zone a b).
  vm_compute. discriminate.
Defined.

(** ** Zero values *)



(** ** Conversion to a sequential range *)

Lemma lower_without_prefix_is_endpoint :
  forall sec,
    noPrefix (getLowerSection (withoutPrefixLenSection sec)) /\
    boundsOf (divisions (getLowerSection (withoutPrefixLenSection sec)))
      = map (fun v => (v, v)) (map value (divisions sec)).
Proof.
  intros sec. unfold noPrefix, getLowerSection, withoutPrefixLenSection, boundsOf.
  simpl. split; [split; [reflexivity|]|].
  - induction (divisions sec) as [|seg segs IH]; simpl; constructor;
      [reflexivity|exact IH].
  - induction (divisions sec) as [|seg segs IH]; simpl; [reflexivity|].
    rewrite IH. reflexivity.
Qed.

Lemma upper_without_prefix_is_endpoint :
  forall sec,
    noPrefix (getUpperSection (withoutPrefixLenSection sec)) /\
    boundsOf (divisions (getUpperSection (withoutPrefixLenSection sec)))
      = map (fun v => (v, v)) (map upperValue (divisions sec)).
Proof.
  intros sec. unfold noPrefix, getUpperSection, withoutPrefixLenSection, boundsOf.
  simpl. split; [split; [reflexivity|]|].
  - induction (divisions sec) as [|seg segs IH]; simpl; constructor;
      [reflexivity|exact IH].
  - induction (divisions sec) as [|seg segs IH]; simpl; [reflexivity|].
    rewrite IH. reflexivity.
Qed.

Lemma HasZone_false : forall addr, HasZone addr = false -> zone addr = NoZone.
Proof.
  intros addr H. unfold HasZone in H. apply negb_false_iff in H.
  apply String.eqb_eq. exact H.
Qed.

(** The range of an address whose section is [sec]. *)
Lemma range_of_section_IPv6 :
  forall sec z,
    exists r,
      ToSequentialRangeIPv6 (Some (mkAddress (Some sec) z)) = Some r /\
      isEndPoint (lower r) (map value (divisions sec)) /\
      isEndPoint (upper r) (map upperValue (divisions sec)).
Proof.
  intros sec z. eexists. split; [reflexivity|].
  unfold WithoutZone, WithoutPrefixLenIPv6, initIPv6, withoutPrefixLen,
    mapSection. simpl.
  destruct (HasZone {| section := Some (withoutPrefixLenSection sec); zone := z |})
    eqn:Hz; simpl.
  - split; eexists; (split; [reflexivity|]); (split; [reflexivity|]).
    + apply lower_without_prefix_is_endpoint.
    + apply upper_without_prefix_is_endpoint.
  - apply HasZone_false in Hz. simpl in Hz. subst z.
    split; eexists; (split; [reflexivity|]); (split; [reflexivity|]).
    + apply lower_without_prefix_is_endpoint.
    + apply upper_without_prefix_is_endpoint.
Qed.

Lemma range_of_section_IPv4 :
  forall sec,
    exists r,
      ToSequentialRangeIPv4 (Some (mkAddress (Some sec) NoZone)) = Some r /\
      isEndPoint (lower r) (map value (divisions sec)) /\
      isEndPoint (upper r) (map upperValue (divisions sec)).
Proof.
  intros sec. eexists. split; [reflexivity|].
  split; eexists; (split; [reflexivity|]); (split; [reflexivity|]).
  - apply lower_without_prefix_is_endpoint.
  - apply upper_without_prefix_is_endpoint.
Qed.

(** C6: the sequential range of an address is bounded by the single
    addresses of its lower and of its upper segment values, and both
    bounds carry no prefix length and no zone, whether or not the
    address had a prefix length or, for IPv6, a zone. An IPv4 address
    has no zone to begin with. *)
Theorem ToSequentialRange_drops_prefix_and_zone :
  (forall addr : IPv6Address,
     exists r,
       ToSequentialRangeIPv6 (Some addr) = Some r /\
       isEndPoint (lower r) (map value (divisions (GetSectionIPv6 addr))) /\
       isEndPoint (upper r) (map upperValue (divisions (GetSectionIPv6 addr)))) /\
  (forall addr : IPv4Address,
     zone addr = NoZone ->
     exists r,
       ToSequentialRangeIPv4 (Some addr) = Some r /\
       isEndPoint (lower r) (map value (divisions (GetSectionIPv4 addr))) /\
       isEndPoint (upper r) (map upperValue (divisions (GetSectionIPv4 addr)))).
Proof.
  split.
  - intros [[sec|] z].
    + apply range_of_section_IPv6.
    + exact (range_of_section_IPv6 zeroIPv6Section NoZone).
  - intros [[sec|] z] Hz; simpl in Hz; subst z.
    + apply range_of_section_IPv4.
    + exact (range_of_section_IPv4 zeroIPv4Section).
Qed.

(** ** Slices and index ranges *)

Lemma zrange_S : forall i n, zrange i (S n) = i :: zrange (i + 1) n.
Proof.
  intros i n. unfold zrange. simpl. rewrite Z.add_0_r. f_equal.
  rewrite <- seq_shift, map_map. apply map_ext. intros k. lia.
Qed.

Lemma zrange_In : forall n i k, In k (zrange i n) <-> i <= k < i + Z.of_nat n.
Proof.
  induction n as [|n IH]; intros i k.
  - simpl. lia.
  - rewrite zrange_S. simpl. rewrite IH. lia.
Qed.

Lemma zrange_length : forall n i, length (zrange i n) = n.
Proof. intros n i. unfold zrange. rewrite length_map, length_seq. reflexivity. Qed.

Lemma setNth_app :
  forall (A : Type) (pre : list A) (x y : A) (rest : list A),
    setNth (pre ++ x :: rest) (length pre) y = pre ++ y :: rest.
Proof.
  intros A pre x y rest. induction pre as [|a pre IH]; simpl; [reflexivity|].
  rewrite IH. reflexivity.
Qed.

Lemma assign_app :
  forall (A : Type) (pre : list A) (x y : A) (rest : list A),
    assign (pre ++ x :: rest) (Z.of_nat (length pre)) y = Ok (pre ++ y :: rest).
Proof.
  intros A pre x y rest. unfold assign.
  rewrite length_app. simpl length.
  replace (Z.of_nat (length pre) <? 0) with false by (symmetry; apply Z.ltb_ge; lia).
  replace (Z.of_nat (length pre + S (length rest)) <=? Z.of_nat (length pre))
    with false by (symmetry; apply Z.leb_gt; lia).
  simpl. rewrite Nat2Z.id, setNth_app. reflexivity.
Qed.

Lemma indexAt_app :
  forall (A : Type) (pre : list A) (x : A) (rest : list A),
    indexAt (pre ++ x :: rest) (Z.of_nat (length pre)) = Ok x.
Proof.
  intros A pre x rest. unfold indexAt.
  replace (Z.of_nat (length pre) <? 0) with false by (symmetry; apply Z.ltb_ge; lia).
  rewrite Nat2Z.id, nth_error_app2 by lia.
  rewrite Nat.sub_diag. reflexivity.
Qed.

(** ** Sections from value providers *)

Section CreateSegments.

Context (creator : AddressSegmentCreator).
Variables lowerValueProvider upperValueProvider : SegmentValueProvider.
Variable bitsPerSegment : BitCount.
Variable prefixLen : PrefixLen.

Let segmentAt (k : Z) : AddressDivision :=
  createSegment (lowerValueAt lowerValueProvider upperValueProvider k)
    (upperValueAt lowerValueProvider upperValueProvider k)
    (getSegmentPrefixLength bitsPerSegment prefixLen k).

Let differsAt (k : Z) : bool :=
  negb (upperValueAt lowerValueProvider upperValueProvider k =?
        lowerValueAt lowerValueProvider upperValueProvider k).

Lemma createSegments_loop_spec :
  lowerValueProvider <> None \/ upperValueProvider <> None ->
  forall n pre rest isMult,
    length rest = n ->
    createSegments_loop lowerValueProvider upperValueProvider bitsPerSegment
      prefixLen n (Z.of_nat (length pre)) (pre ++ rest) isMult
    = Ok (pre ++ map (fun k => Some (segmentAt k)) (zrange (Z.of_nat (length pre)) n),
          isMult || existsb differsAt (zrange (Z.of_nat (length pre)) n)).
Proof.
  intros Hprov. induction n as [|n IH]; intros pre rest isMult Hlen.
  - destruct rest; [|discriminate]. simpl.
    rewrite orb_false_r. reflexivity.
  - destruct rest as [|x rest]; [discriminate|]. injection Hlen as Hlen.
    rewrite zrange_S. cbn [createSegments_loop map existsb].
    set (i := Z.of_nat (length pre)).
    assert (Hvals :
      match lowerValueProvider with
      | Some _ =>
        v <- callProvider lowerValueProvider i ;;
        match upperValueProvider with
        | Some _ =>
          v2 <- callProvider upperValueProvider i ;;
          Ok (v, v2, if negb isMult && negb (v2 =? v) then true else isMult)
        | None => Ok (v, v, isMult)
        end
      | None =>
        v <- callProvider upperValueProvider i ;; Ok (v, v, isMult)
      end
      = Ok (lowerValueAt lowerValueProvider upperValueProvider i,
            upperValueAt lowerValueProvider upperValueProvider i,
            isMult || differsAt i)).
    { unfold differsAt, lowerValueAt, upperValueAt.
      destruct lowerValueProvider as [f|], upperValueProvider as [g|]; simpl.
      - destruct isMult, (g i =? f i); reflexivity.
      - rewrite Z.eqb_refl, orb_false_r. reflexivity.
      - rewrite Z.eqb_refl, orb_false_r. reflexivity.
      - destruct Hprov as [H|H]; congruence. }
    rewrite Hvals. cbn [bind]. subst i.
    rewrite assign_app. cbn [bind].
    replace (pre ++ Some _ :: rest)
      with ((pre ++ [Some (segmentAt (Z.of_nat (length pre)))]) ++ rest)
      by (rewrite <- app_assoc; reflexivity).
    replace (Z.of_nat (length pre) + 1)
      with (Z.of_nat (length (pre ++ [Some (segmentAt (Z.of_nat (length pre)))])))
      by (rewrite length_app; simpl; lia).
    rewrite (IH _ rest _ Hlen).
    rewrite <- app_assoc, orb_assoc. reflexivity.
Qed.

End CreateSegments.

Lemma existsb_differs_Exists :
  forall (creator : AddressSegmentCreator) (lo hi : Z -> SegInt)
         (pref : Z -> PrefixLen) (l : list Z),
    (forall k, In k l -> keepsBounds creator (lo k) (hi k)) ->
    (existsb (fun k => negb (hi k =? lo k)) l = true <->
     Exists (fun seg => value seg <> upperValue seg)
       (map (fun k => createSegment (lo k) (hi k) (pref k)) l)).
Proof.
  intros creator lo hi pref l. induction l as [|k l IH]; intros Hkeep.
  - simpl. split; [discriminate|]. intros H. inversion H.
  - simpl. rewrite Exists_cons, orb_true_iff, IH
      by (intros j Hj; apply Hkeep; right; exact Hj).
    destruct (Hkeep k (or_introl eq_refl) (pref k)) as [Hv Hu].
    rewrite Hv, Hu, negb_true_iff, Z.eqb_neq.
    split; intros [H|H]; auto.
Qed.

(** The family creators store the bounds they are given narrowed to the
    width of their segments. *)
Lemma family_creators_narrow :
  forall creator : AddressSegmentCreator,
    creator = ipv4Creator \/ creator = ipv6Creator \/ creator = macCreator ->
    exists width,
      0 < width /\ creatorMaxValue creator = width - 1 /\
      forall lo hi p,
        value (createSegment lo hi p) = lo mod width /\
        upperValue (createSegment lo hi p) = hi mod width.
Proof.
  intros creator [-> | [-> | ->]].
  - exists 256. split; [lia|]. split; [reflexivity|]. intros; split; reflexivity.
  - exists 65536. split; [lia|]. split; [reflexivity|]. intros; split; reflexivity.
  - exists 256. split; [lia|]. split; [reflexivity|]. intros lo hi p.
    cbn. unfold newMACSegmentValues, toMACSegInt.
    destruct (lo mod 256 =? hi mod 256) eqn:E; cbn.
    + apply Z.eqb_eq in E. auto.
    + destruct ((lo mod 256 =? 0) && (hi mod 256 =? 255)) eqn:E2; cbn; [|auto].
      apply andb_prop in E2. destruct E2 as [E3 E4].
      apply Z.eqb_eq in E3. apply Z.eqb_eq in E4. auto.
Qed.

(** C7: a section built by a family creator from value providers. The
    flag is true whenever some segment has an upper value different
    from its lower value; when the provided values fit the segment
    width, a true flag conversely means that some segment has; without
    an upper-value provider every segment is single-valued and the flag
    is false. *)
Theorem createSegments_isMultiple :
  forall (creator : AddressSegmentCreator)
         (lowerValueProvider upperValueProvider : SegmentValueProvider)
         (segmentCount : Z) (bitsPerSegment : BitCount) (prefixLen : PrefixLen),
    creator = ipv4Creator \/ creator = ipv6Creator \/ creator = macCreator ->
    0 <= segmentCount ->
    lowerValueProvider <> None \/ upperValueProvider <> None ->
    exists segs isMult,
      createSegments lowerValueProvider upperValueProvider segmentCount
        bitsPerSegment prefixLen = Ok (map Some segs, isMult) /\
      Z.of_nat (length segs) = segmentCount /\
      (Exists (fun seg => value seg <> upperValue seg) segs -> isMult = true) /\
      ((forall i, 0 <= i < segmentCount ->
          fitsSegment creator
            (lowerValueAt lowerValueProvider upperValueProvider i) /\
          fitsSegment creator
            (upperValueAt lowerValueProvider upperValueProvider i)) ->
       isMult = true ->
       Exists (fun seg => value seg <> upperValue seg) segs) /\
      (upperValueProvider = None ->
       isMult = false /\ Forall (fun seg => value seg = upperValue seg) segs).
Proof.
  intros creator lowerP upperP segmentCount bits pref Hfamily Hcount Hprov.
  destruct (family_creators_narrow creator Hfamily)
    as [width [Hwidth [Hmax Hnarrow]]].
  unfold createSegments, createSegmentArray.
  replace (segmentCount <? 0) with false by (symmetry; apply Z.ltb_ge; lia).
  cbn [bind].
  pose proof (createSegments_loop_spec creator lowerP upperP bits pref Hprov
                (Z.to_nat segmentCount) [] (repeat None (Z.to_nat segmentCount))
                false (repeat_length _ _)) as Hloop.
  simpl in Hloop. rewrite Hloop. clear Hloop.
  set (mk := fun k => createSegment (lowerValueAt lowerP upperP k)
                        (upperValueAt lowerP upperP k)
                        (getSegmentPrefixLength bits pref k)).
  exists (map mk (zrange 0 (Z.to_nat segmentCount))).
  eexists. split; [rewrite map_map; reflexivity|].
  assert (Hin : forall k, In k (zrange 0 (Z.to_nat segmentCount)) ->
                          0 <= k < segmentCount).
  { intros k Hk. apply zrange_In in Hk. lia. }
  split; [rewrite length_map, zrange_length; lia|].
  split; [|split].
  - intros Hsome. apply Exists_exists in Hsome.
    destruct Hsome as [seg [Hseg Hdiff]].
    apply in_map_iff in Hseg. destruct Hseg as [k [<- Hk]].
    apply existsb_exists. exists k. split; [exact Hk|].
    apply negb_true_iff, Z.eqb_neq. intros Heq. apply Hdiff.
    unfold mk.
    destruct (Hnarrow (lowerValueAt lowerP upperP k)
                (upperValueAt lowerP upperP k)
                (getSegmentPrefixLength bits pref k)) as [-> ->].
    rewrite Heq. reflexivity.
  - intros Hfits.
    apply (existsb_differs_Exists creator (lowerValueAt lowerP upperP)
             (upperValueAt lowerP upperP) (getSegmentPrefixLength bits pref)).
    intros k Hk p.
    destruct (Hfits k (Hin k Hk)) as [Hlo Hhi].
    unfold fitsSegment in Hlo, Hhi. rewrite Hmax in Hlo, Hhi.
    destruct (Hnarrow (lowerValueAt lowerP upperP k)
                (upperValueAt lowerP upperP k) p) as [-> ->].
    rewrite !Z.mod_small by lia. auto.
  - intros Hnone. subst upperP.
    assert (Hsame : forall k, upperValueAt lowerP None k = lowerValueAt lowerP None k).
    { intros k. unfold upperValueAt, lowerValueAt. destruct lowerP; reflexivity. }
    split.
    + apply not_true_is_false. intros Habs.
      apply existsb_exists in Habs. destruct Habs as [k [_ Hk]].
      rewrite Hsame, Z.eqb_refl in Hk. discriminate.
    + apply Forall_forall. intros seg Hseg.
      apply in_map_iff in Hseg. destruct Hseg as [k [Heq Hk]]. subst seg.
      unfold mk.
      destruct (Hnarrow (lowerValueAt lowerP None k)
                  (upperValueAt lowerP None k)
                  (getSegmentPrefixLength bits pref k)) as [-> ->].
      rewrite Hsame. reflexivity.
Qed.

(** ** Prefix-mask classification *)

Section PrefixMaskProperties.

Variable segCheckForPrefixMask : AddressDivision -> PrefixLen * PrefixLen.

Ltac crush_step H :=
  match type of H with
  | maskScanStep _ ?maxVal ?i ?seg ?st = Some _ =>
    unfold maskScanStep, GetSegmentValue in H;
    destruct (value seg =? 0) eqn:?E0;
    [|destruct (value seg =? maxVal) eqn:?Em;
      [|destruct (segCheckForPrefixMask seg) as [[?n|] [?h|]]]];
    destruct st as [[] [] [] [] ? ?]; simpl in H;
    inversion H; subst; simpl
  end.

(** A front flag still set after a step was set before it, and the step
    saw a segment of the matching value. *)
Lemma maskScanStep_front :
  forall maxVal i seg st st1,
    maskScanStep segCheckForPrefixMask maxVal i seg st = Some st1 ->
    (checkingNetworkFront st1 = true ->
       checkingNetworkFront st = true /\ value seg = maxVal) /\
    (checkingHostFront st1 = true ->
       checkingHostFront st = true /\ value seg = 0).
Proof.
  intros maxVal i seg st st1 H.
  crush_step H; split; intros Hf; try discriminate;
    (split; [reflexivity|]);
    first [apply Z.eqb_eq; assumption].
Qed.

Lemma maskScanLoop_front :
  forall maxVal segs i st st',
    maskScanLoop segCheckForPrefixMask maxVal segs i st = Some st' ->
    (checkingNetworkFront st' = true ->
       checkingNetworkFront st = true /\
       Forall (fun seg => value seg = maxVal) segs) /\
    (checkingHostFront st' = true ->
       checkingHostFront st = true /\
       Forall (fun seg => value seg = 0) segs).
Proof.
  intros maxVal segs. induction segs as [|seg segs IH]; intros i st st' H.
  - simpl in H. inversion H; subst. split; intros Hf; split; auto.
  - simpl in H.
    destruct (maskScanStep segCheckForPrefixMask maxVal i seg st) as [st1|] eqn:Hstep;
      [|discriminate].
    destruct (IH _ _ _ H) as [Hn Hh].
    destruct (maskScanStep_front _ _ _ _ _ Hstep) as [Hn1 Hh1].
    split; intros Hf.
    + destruct (Hn Hf) as [Hf1 Hall]. destruct (Hn1 Hf1) as [Hf0 Hv].
      split; [assumption|constructor; assumption].
    + destruct (Hh Hf) as [Hf1 Hall]. destruct (Hh1 Hf1) as [Hf0 Hv].
      split; [assumption|constructor; assumption].
Qed.

(** Over zero segments the scan keeps the host-front flag and clears
    the network-front flag. *)
Lemma maskScanLoop_zeros :
  forall maxVal segs i st,
    Forall (fun seg => value seg = 0) segs ->
    checkingHostFront st = true ->
    exists st',
      maskScanLoop segCheckForPrefixMask maxVal segs i st = Some st' /\
      checkingHostFront st' = true /\
      (checkingNetworkFront st = false \/ segs <> [] ->
       checkingNetworkFront st' = false).
Proof.
  intros maxVal segs. induction segs as [|seg segs IH]; intros i st Hall Hhf.
  - exists st. split; [reflexivity|]. split; [assumption|].
    intros [H|H]; [assumption|congruence].
  - inversion Hall as [|? ? Hv Hrest]; subst.
    assert (Hstep : exists st1,
               maskScanStep segCheckForPrefixMask maxVal i seg st = Some st1 /\
               checkingHostFront st1 = true /\ checkingNetworkFront st1 = false).
    { unfold maskScanStep, GetSegmentValue. rewrite Hv. simpl.
      destruct st as [[] nb hf hb ps pl]; simpl in *; subst hf; simpl;
        eexists; split; try reflexivity; split; reflexivity. }
    destruct Hstep as [st1 [Hstep [Hhf1 Hnf1]]].
    destruct (IH (i + 1) st1 Hrest Hhf1) as [st' [Hloop [Hhf' Hnf']]].
    exists st'. simpl. rewrite Hstep. split; [assumption|].
    split; [assumption|]. intros _. apply Hnf'. left. assumption.
Qed.

(** Over segments of the maximal value the scan keeps the network-front
    flag. *)
Lemma maskScanLoop_ones :
  forall maxVal segs i st,
    maxVal <> 0 ->
    Forall (fun seg => value seg = maxVal) segs ->
    checkingNetworkFront st = true ->
    exists st',
      maskScanLoop segCheckForPrefixMask maxVal segs i st = Some st' /\
      checkingNetworkFront st' = true.
Proof.
  intros maxVal segs. induction segs as [|seg segs IH]; intros i st Hmax Hall Hnf.
  - exists st. split; [reflexivity|assumption].
  - inversion Hall as [|? ? Hv Hrest]; subst.
    assert (Hstep : exists st1,
               maskScanStep segCheckForPrefixMask (value seg) i seg st = Some st1 /\
               checkingNetworkFront st1 = true).
    { unfold maskScanStep, GetSegmentValue.
      replace (value seg =? 0) with false by (symmetry; apply Z.eqb_neq; assumption).
      rewrite Z.eqb_refl.
      destruct st as [nf nb [] hb ps pl]; simpl in *; subst nf;
        rewrite ?andb_false_r; simpl; eexists; split; reflexivity. }
    destruct Hstep as [st1 [Hstep Hnf1]].
    destruct (IH (i + 1) st1 Hmax Hrest Hnf1) as [st' [Hloop Hnf']].
    exists st'. simpl. rewrite Hstep. split; assumption.
Qed.

Lemma GetMaxValue_nonzero : forall seg, GetMaxValue seg <> 0.
Proof. intros seg. unfold GetMaxValue. destruct (kind seg); discriminate. Qed.

Lemma GetMaxValue_kind :
  forall a b, kind a = kind b -> GetMaxValue a = GetMaxValue b.
Proof. intros a b H. unfold GetMaxValue. rewrite H. reflexivity. Qed.

(** C4: on a non-empty section of zero segments the classification is
    host mask length = bit count and network mask length = 0; on a
    non-empty section of maximal segments it is the converse; on an
    empty section both are absent; and no section gets a nonzero
    network mask length together with a nonzero host mask length: when
    both lengths are present the lower values are all zero or all
    maximal. *)
Theorem checkForPrefixMask_two_way_sections :
  forall section : IPAddressSection,
    (divisions section = [] ->
       checkForPrefixMask segCheckForPrefixMask section = (None, None)) /\
    (divisions section <> [] ->
     Forall (fun seg => value seg = 0) (divisions section) ->
       checkForPrefixMask segCheckForPrefixMask section
         = (Some 0, Some (GetSectionBitCount section))) /\
    (divisions section <> [] ->
     ofOneKind (divisions section) ->
     Forall (fun seg => value seg = GetMaxValue seg) (divisions section) ->
       checkForPrefixMask segCheckForPrefixMask section
         = (Some (GetSectionBitCount section), Some 0)) /\
    (forall networkMaskLen hostMaskLen,
       checkForPrefixMask segCheckForPrefixMask section
         = (Some networkMaskLen, Some hostMaskLen) ->
       (networkMaskLen = 0 \/ hostMaskLen = 0) /\
       (Forall (fun seg => value seg = 0) (divisions section) \/
        Forall (fun seg => value seg = GetMaxValue (hd seg (divisions section)))
          (divisions section))).
Proof.
  intros sec. unfold checkForPrefixMask.
  destruct (divisions sec) as [|firstSeg rest] eqn:Hdiv.
  - split; [reflexivity|]. split; [congruence|]. split; [congruence|].
    intros n h H. discriminate.
  - split; [discriminate|]. split; [|split].
    + intros _ Hzero.
      destruct (maskScanLoop_zeros (GetMaxValue firstSeg) (firstSeg :: rest) 0
                  initialMaskScan Hzero eq_refl) as [st' [Hloop [Hhf Hnf]]].
      rewrite Hloop, Hnf, Hhf; [reflexivity|right; discriminate].
    + intros _ [k Hkind] Hmax.
      assert (Hall : Forall (fun seg => value seg = GetMaxValue firstSeg)
                       (firstSeg :: rest)).
      { apply Forall_forall. intros seg Hin.
        rewrite Forall_forall in Hkind, Hmax.
        rewrite (Hmax seg Hin). apply GetMaxValue_kind.
        rewrite (Hkind seg Hin). symmetry. apply Hkind. left. reflexivity. }
      destruct (maskScanLoop_ones (GetMaxValue firstSeg) (firstSeg :: rest) 0
                  initialMaskScan (GetMaxValue_nonzero firstSeg) Hall eq_refl)
        as [st' [Hloop Hnf]].
      rewrite Hloop, Hnf. reflexivity.
    + intros n h H.
      destruct (maskScanLoop segCheckForPrefixMask (GetMaxValue firstSeg)
                  (firstSeg :: rest) 0 initialMaskScan) as [st'|] eqn:Hloop;
        [|discriminate].
      destruct (maskScanLoop_front _ _ _ _ _ Hloop) as [Hn Hh].
      destruct (checkingNetworkFront st') eqn:Enf.
      * inversion H; subst. split; [right; reflexivity|].
        right. simpl. apply Hn. reflexivity.
      * destruct (checkingHostFront st') eqn:Ehf.
        -- inversion H; subst. split; [left; reflexivity|].
           left. apply Hh. reflexivity.
        -- destruct (checkingNetworkBack st'); [discriminate|].
           destruct (checkingHostBack st'); discriminate.
Qed.

End PrefixMaskProperties.

(** ** Sections from bytes *)

Lemma byteVal_range : forall b, 0 <= byteVal b < 256.
Proof.
  intros b. unfold byteVal. pose proof (Byte.to_N_bounded b) as H.
  lia.
Qed.

Lemma msb_testbit :
  forall b, (Z.shiftr (byteVal b) 7 =? 0) = negb (Z.testbit (byteVal b) 7).
Proof. intros b. destruct b; reflexivity. Qed.

Lemma indexAt_in_range :
  forall (A : Type) (l : list A) (j : Z),
    0 <= j < Z.of_nat (length l) -> exists x, indexAt l j = Ok x.
Proof.
  intros A l j Hj. unfold indexAt.
  replace (j <? 0) with false by (symmetry; apply Z.ltb_ge; lia).
  destruct (nth_error l (Z.to_nat j)) as [x|] eqn:E; [eauto|].
  apply nth_error_None in E. lia.
Qed.

Lemma indexAt_skipn :
  forall (A : Type) (l : list A) (e : nat) (j : Z),
    0 <= j -> indexAt (skipn e l) j = indexAt l (Z.of_nat e + j).
Proof.
  intros A l e j Hj. unfold indexAt.
  replace (j <? 0) with false by (symmetry; apply Z.ltb_ge; lia).
  replace (Z.of_nat e + j <? 0) with false by (symmetry; apply Z.ltb_ge; lia).
  rewrite nth_error_skipn.
  replace (Z.to_nat (Z.of_nat e + j)) with (e + Z.to_nat j)%nat by lia.
  reflexivity.
Qed.

Lemma setNth_length :
  forall (A : Type) (l : list A) (n : nat) (a : A),
    length (setNth l n a) = length l.
Proof.
  intros A l. induction l as [|h t IH]; intros n a; simpl; [reflexivity|].
  destruct n; simpl; [reflexivity|]. rewrite IH. reflexivity.
Qed.

Lemma assign_in_range :
  forall (A : Type) (l : list A) (j : Z) (a : A),
    0 <= j < Z.of_nat (length l) ->
    exists l', assign l j a = Ok l' /\ length l' = length l.
Proof.
  intros A l j a Hj. unfold assign.
  replace (j <? 0) with false by (symmetry; apply Z.ltb_ge; lia).
  replace (Z.of_nat (length l) <=? j) with false by (symmetry; apply Z.leb_gt; lia).
  simpl. eexists. split; [reflexivity|apply setNth_length].
Qed.

Lemma forUpTo_ext :
  forall (S : Type) (f g : Z -> S -> outcome S) (n : nat) (j : Z) (s : S),
    (forall j' s', j <= j' -> f j' s' = g j' s') ->
    forUpTo n j f s = forUpTo n j g s.
Proof.
  intros S f g n. induction n as [|n IH]; intros j s Hfg; simpl; [reflexivity|].
  rewrite Hfg by lia. destruct (g j s); simpl; try reflexivity.
  apply IH. intros j' s' Hj'. apply Hfg. lia.
Qed.

(** The bytes before the last excess byte are compared with it from the
    back. *)
Lemma checkExtension_spec :
  forall (ev : Z) (n : nat) (pre rest : list byte),
    length pre = n ->
    checkExtension (pre ++ rest) ev n (Z.of_nat n)
    = if forallb (fun b => byteVal b =? ev) pre then Ok tt
      else Err ValueExceedsSize.
Proof.
  intros ev n. induction n as [|n IH]; intros pre rest Hlen.
  - destruct pre; [reflexivity|discriminate].
  - destruct (exists_last (l := pre)) as [pre' [b Hpre]];
      [intros ->; discriminate|].
    subst pre. rewrite length_app in Hlen. simpl in Hlen.
    assert (Hn : length pre' = n) by lia.
    cbn [checkExtension].
    replace (Z.of_nat (S n) - 1) with (Z.of_nat (length pre')) by lia.
    rewrite <- app_assoc. simpl app. rewrite indexAt_app. cbn [bind].
    rewrite forallb_app. simpl forallb. rewrite andb_true_r.
    destruct (byteVal b =? ev); simpl.
    + rewrite Hn. rewrite (IH pre' (b :: rest) Hn).
      rewrite andb_true_r. reflexivity.
    + rewrite andb_false_r. reflexivity.
Qed.

(** The decision taken on the excess bytes [pre ++ [eb]] in front of
    the retained bytes [fb :: rest]. *)
Lemma checkExcessBytes_spec :
  forall (pre : list byte) (eb fb : byte) (rest : list byte),
    checkExcessBytes (pre ++ eb :: fb :: rest) (Z.of_nat (length (fb :: rest)))
    = if forallb (fun b => byteVal b =? 0) (pre ++ [eb]) ||
         (forallb (fun b => byteVal b =? 255) (pre ++ [eb]) &&
          Z.testbit (byteVal fb) 7)
      then Ok (Z.of_nat (length (pre ++ [eb])))
      else Err ValueExceedsSize.
Proof.
  intros pre eb fb rest. unfold checkExcessBytes.
  assert (Hstart : Z.of_nat (length (pre ++ eb :: fb :: rest))
                   - Z.of_nat (length (fb :: rest))
                   = Z.of_nat (length (pre ++ [eb]))).
  { rewrite !length_app. simpl. lia. }
  rewrite Hstart.
  replace (Z.of_nat (length (pre ++ [eb])) - 1) with (Z.of_nat (length pre))
    by (rewrite length_app; simpl; lia).
  rewrite indexAt_app. cbn [bind].
  replace (pre ++ eb :: fb :: rest) with ((pre ++ [eb]) ++ fb :: rest)
    by (rewrite <- app_assoc; reflexivity).
  rewrite indexAt_app.
  rewrite <- app_assoc. simpl app.
  rewrite Nat2Z.id, (checkExtension_spec _ _ pre (eb :: fb :: rest) eq_refl).
  rewrite !forallb_app. simpl forallb. rewrite !andb_true_r.
  cbn [bind]. rewrite msb_testbit.
  generalize (Z.testbit (byteVal fb) 7) as t. intros t.
  destruct (byteVal eb =? 0) eqn:E0.
  - apply Z.eqb_eq in E0. rewrite E0.
    change (0 =? 255) with false.
    generalize (forallb (fun b => byteVal b =? 0) pre) as z. intros z.
    rewrite !andb_false_r, andb_true_r, orb_false_r.
    destruct z; reflexivity.
  - destruct (byteVal eb =? 255) eqn:E255.
    + apply Z.eqb_eq in E255. rewrite E255.
      generalize (forallb (fun b => byteVal b =? 255) pre) as f. intros f.
      rewrite andb_false_r, andb_true_r.
      destruct t, f; reflexivity.
    + rewrite !andb_false_r. destruct t; reflexivity.
Qed.

Section ToSegments.

Context (creator : AddressSegmentCreator).
Variable bytesPerSegment : Z.
Variable bitsPerSegment : BitCount.
Variable prefixLen : PrefixLen.
Hypothesis bytesPerSegment_pos : 0 < bytesPerSegment.

(** With no missing bytes, reading from [startIndex] on is reading the
    array without its first [startIndex] bytes. *)
Lemma toSegments_loop_skipn :
  forall (bytes : list byte) (expectedByteCount : Z) (e fuel : nat)
         (i segmentIndex : Z) (segments : list (option AddressDivision)),
    0 <= i ->
    toSegments_loop bytes bytesPerSegment bitsPerSegment expectedByteCount
      prefixLen (Z.of_nat e) 0 fuel i segmentIndex segments
    = toSegments_loop (skipn e bytes) bytesPerSegment bitsPerSegment
        expectedByteCount prefixLen 0 0 fuel i segmentIndex segments.
Proof.
  intros bytes expectedByteCount e fuel.
  induction fuel as [|fuel IH]; intros i segmentIndex segments Hi.
  - reflexivity.
  - cbn [toSegments_loop].
    destruct (i <? expectedByteCount); [|reflexivity].
    replace (i <? 0) with false by (symmetry; apply Z.ltb_ge; lia).
    cbn [bind].
    unfold forRange.
    assert (Hread : forall n v,
              forUpTo n i
                (fun j v => byteValue <- indexAt bytes (Z.of_nat e + j - 0) ;;
                            Ok (shiftInByte v (byteVal byteValue))) v
              = forUpTo n i
                  (fun j v => byteValue <- indexAt (skipn e bytes) (0 + j - 0) ;;
                              Ok (shiftInByte v (byteVal byteValue))) v).
    { intros n v. apply forUpTo_ext. intros j' s' Hj'.
      rewrite indexAt_skipn by lia.
      replace (Z.of_nat e + (0 + j' - 0)) with (Z.of_nat e + j' - 0) by lia.
      reflexivity. }
    rewrite Hread.
    match goal with
    | |- context [forUpTo ?n i ?f 0] => destruct (forUpTo n i f 0)
    end; simpl; try reflexivity.
    match goal with
    | |- context [assign segments segmentIndex ?x] =>
      destruct (assign segments segmentIndex x)
    end; simpl; try reflexivity.
    apply IH. lia.
Qed.

Lemma readBytes_in_range :
  forall (bytes : list byte) (n : nat) (j : Z) (v : SegInt),
    0 <= j -> j + Z.of_nat n <= Z.of_nat (length bytes) ->
    exists v',
      forUpTo n j
        (fun j v => byteValue <- indexAt bytes (0 + j - 0) ;;
                    Ok (shiftInByte v (byteVal byteValue))) v = Ok v'.
Proof.
  intros bytes n. induction n as [|n IH]; intros j v Hj Hlen.
  - eexists. reflexivity.
  - cbn [forUpTo].
    destruct (indexAt_in_range _ bytes (0 + j - 0)) as [b Hb]; [lia|].
    rewrite Hb. cbn [bind]. apply IH; lia.
Qed.

(** On an array of exactly the expected length the segment loop fills
    the remaining segments and returns. *)
Lemma toSegments_loop_total :
  forall (bytes : list byte) (segmentCount : Z) (m fuel : nat) (s : Z)
         (segments : list (option AddressDivision)),
    Z.of_nat (length bytes) = segmentCount * bytesPerSegment ->
    0 <= s -> s + Z.of_nat m = segmentCount ->
    (m <= fuel)%nat ->
    Z.of_nat (length segments) = segmentCount ->
    exists segments',
      toSegments_loop bytes bytesPerSegment bitsPerSegment
        (segmentCount * bytesPerSegment) prefixLen 0 0 fuel
        (s * bytesPerSegment) s segments = Ok segments'.
Proof.
  intros bytes segmentCount m.
  induction m as [|m IH]; intros fuel s segments Hlen Hs Hsm Hfuel Hsegs.
  - assert (s = segmentCount) by lia. subst s.
    destruct fuel; cbn [toSegments_loop]; rewrite Z.ltb_irrefl; eauto.
  - destruct fuel as [|fuel]; [lia|].
    cbn [toSegments_loop].
    replace (s * bytesPerSegment <? segmentCount * bytesPerSegment) with true
      by (symmetry; apply Z.ltb_lt; nia).
    replace (s * bytesPerSegment <? 0) with false
      by (symmetry; apply Z.ltb_ge; nia).
    cbn [bind]. unfold forRange.
    destruct (readBytes_in_range bytes
                (Z.to_nat (bytesPerSegment + s * bytesPerSegment - s * bytesPerSegment))
                (s * bytesPerSegment) 0) as [v Hv]; [nia|nia|].
    rewrite Hv. cbn [bind].
    destruct (assign_in_range _ segments s
                (Some (createSegment v v
                         (getSegmentPrefixLength bitsPerSegment prefixLen s))))
      as [segments' [Hassign Hlen']]; [lia|].
    rewrite Hassign. cbn [bind].
    replace (bytesPerSegment + s * bytesPerSegment) with ((s + 1) * bytesPerSegment)
      by lia.
    apply IH; try lia.
Qed.

End ToSegments.

Lemma forallb_Forall_eqb :
  forall (c : Z) (l : list byte),
    forallb (fun b => byteVal b =? c) l = true <->
    Forall (fun b => byteVal b = c) l.
Proof.
  intros c l. rewrite forallb_forall, Forall_forall.
  split; intros H b Hb; apply Z.eqb_eq, H, Hb.
Qed.

(** [toSegments] on the excess bytes [pre ++ [eb]] followed by exactly
    the expected bytes [fb :: rest]. *)
Lemma toSegments_split :
  forall (creator : AddressSegmentCreator) (pre : list byte) (eb fb : byte)
         (rest : list byte) (segmentCount bytesPerSegment : Z)
         (bitsPerSegment : BitCount) (prefixLen : PrefixLen),
    0 < segmentCount -> 0 < bytesPerSegment ->
    Z.of_nat (length (fb :: rest)) = segmentCount * bytesPerSegment ->
    let legal :=
      forallb (fun b => byteVal b =? 0) (pre ++ [eb]) ||
      (forallb (fun b => byteVal b =? 255) (pre ++ [eb]) &&
       Z.testbit (byteVal fb) 7) in
    if legal then
      exists segments,
        toSegments (pre ++ eb :: fb :: rest) segmentCount bytesPerSegment
          bitsPerSegment (segmentCount * bytesPerSegment) prefixLen = Ok segments /\
        toSegments (fb :: rest) segmentCount bytesPerSegment
          bitsPerSegment (segmentCount * bytesPerSegment) prefixLen = Ok segments
    else
      toSegments (pre ++ eb :: fb :: rest) segmentCount bytesPerSegment
        bitsPerSegment (segmentCount * bytesPerSegment) prefixLen
      = Err ValueExceedsSize.
Proof.
  intros creator pre eb fb rest segmentCount bps bits pref Hcount Hbps Hlen legal.
  assert (Hret : toSegments (fb :: rest) segmentCount bps bits
                   (segmentCount * bps) pref
                 = toSegments_loop (fb :: rest) bps bits (segmentCount * bps) pref
                     0 0 (Z.to_nat (segmentCount * bps)) 0 0
                     (repeat None (Z.to_nat segmentCount))).
  { unfold toSegments. rewrite Hlen, Z.sub_diag. cbn [Z.ltb Z.compare bind].
    unfold createSegmentArray.
    replace (segmentCount <? 0) with false by (symmetry; apply Z.ltb_ge; lia).
    reflexivity. }
  assert (Hall : toSegments (pre ++ eb :: fb :: rest) segmentCount bps bits
                   (segmentCount * bps) pref
                 = if legal
                   then toSegments (fb :: rest) segmentCount bps bits
                          (segmentCount * bps) pref
                   else Err ValueExceedsSize).
  { rewrite Hret. unfold toSegments.
    replace (segmentCount * bps - Z.of_nat (length (pre ++ eb :: fb :: rest)) <? 0)
      with true
      by (symmetry; apply Z.ltb_lt; rewrite length_app; simpl length in *; lia).
    rewrite <- Hlen, checkExcessBytes_spec. fold legal.
    destruct legal; [|reflexivity].
    cbn [bind]. unfold createSegmentArray.
    replace (segmentCount <? 0) with false by (symmetry; apply Z.ltb_ge; lia).
    cbn [bind]. rewrite Hlen.
    rewrite (toSegments_loop_skipn creator bps bits pref Hbps) by lia.
    replace (skipn (length (pre ++ [eb])) (pre ++ eb :: fb :: rest))
      with (fb :: rest); [reflexivity|].
    replace (pre ++ eb :: fb :: rest) with ((pre ++ [eb]) ++ fb :: rest)
      by (rewrite <- app_assoc; reflexivity).
    rewrite skipn_app, Nat.sub_diag, skipn_all. reflexivity. }
  rewrite Hall. destruct legal; [|reflexivity].
  destruct (toSegments_loop_total creator bps bits pref Hbps (fb :: rest)
              segmentCount (Z.to_nat segmentCount) (Z.to_nat (segmentCount * bps))
              0 (repeat None (Z.to_nat segmentCount)))
    as [segments Hsegs]; try lia.
  - nia.
  - rewrite repeat_length. lia.
  - exists segments. rewrite Hret. simpl in Hsegs. split; exact Hsegs.
Qed.

(** C5: for a byte array longer than the expected byte count,
    [toSegments] succeeds exactly when the excess leading bytes are a
    legal sign extension (all 0x00, or all 0xff in front of a retained
    byte with its top bit set); it then yields the segments of the
    retained trailing bytes alone, and otherwise fails with
    ValueExceedsSize. *)
Theorem toSegments_excess_bytes :
  forall (creator : AddressSegmentCreator) (bytes : list byte)
         (segmentCount bytesPerSegment : Z) (bitsPerSegment : BitCount)
         (prefixLen : PrefixLen),
    0 < segmentCount -> 0 < bytesPerSegment ->
    segmentCount * bytesPerSegment < Z.of_nat (length bytes) ->
    let expectedByteCount := segmentCount * bytesPerSegment in
    (legalSignExtension bytes expectedByteCount <->
     exists segments,
       toSegments bytes segmentCount bytesPerSegment bitsPerSegment
         expectedByteCount prefixLen = Ok segments) /\
    (legalSignExtension bytes expectedByteCount ->
     toSegments bytes segmentCount bytesPerSegment bitsPerSegment
       expectedByteCount prefixLen
     = toSegments (retainedBytes bytes expectedByteCount) segmentCount
         bytesPerSegment bitsPerSegment expectedByteCount prefixLen) /\
    (~ legalSignExtension bytes expectedByteCount ->
     toSegments bytes segmentCount bytesPerSegment bitsPerSegment
       expectedByteCount prefixLen = Err ValueExceedsSize).
Proof.
  intros creator bytes segmentCount bps bits pref Hcount Hbps Hlong expected.
  unfold legalSignExtension, excessBytes, retainedBytes.
  set (e := Z.to_nat (Z.of_nat (length bytes) - expected)).
  assert (Hexp : 0 < expected) by (subst expected; nia).
  assert (He : (0 < e <= length bytes)%nat) by (subst e; lia).
  pose proof (firstn_skipn e bytes) as Hsplit.
  assert (Hfl : length (firstn e bytes) = e) by (rewrite length_firstn; lia).
  assert (Hsl : Z.of_nat (length (skipn e bytes)) = expected)
    by (rewrite length_skipn; subst e; lia).
  destruct (exists_last (l := firstn e bytes)) as [pre [eb Hpre]].
  { intros Hnil. rewrite Hnil in Hfl. simpl in Hfl. lia. }
  destruct (skipn e bytes) as [|fb rest] eqn:Hskip.
  { simpl in Hsl. lia. }
  rewrite Hpre in *. clear Hfl.
  assert (Hbytes : bytes = pre ++ eb :: fb :: rest).
  { rewrite <- Hsplit, <- app_assoc. reflexivity. }
  pose proof (toSegments_split creator pre eb fb rest segmentCount bps bits pref
                Hcount Hbps Hsl) as Hmain.
  cbv zeta in Hmain. rewrite <- Hbytes in Hmain. fold expected in Hmain.
  set (legal := forallb (fun b => byteVal b =? 0) (pre ++ [eb]) ||
                (forallb (fun b => byteVal b =? 255) (pre ++ [eb]) &&
                 Z.testbit (byteVal fb) 7)) in *.
  assert (Hlegal :
            legal = true <->
            Forall (fun b => byteVal b = 0) (pre ++ [eb]) \/
            (Forall (fun b => byteVal b = 255) (pre ++ [eb]) /\
             exists b rest0, fb :: rest = b :: rest0 /\
                             Z.testbit (byteVal b) 7 = true)).
  { subst legal. rewrite orb_true_iff, andb_true_iff, !forallb_Forall_eqb.
    split; intros [H|[H1 H2]]; auto; right; split; auto.
    - exists fb, rest. split; [reflexivity|assumption].
    - destruct H2 as [b [rest0 [Heq Hb]]]. inversion Heq; subst. assumption. }
  destruct legal.
  - destruct Hmain as [segments [Hrun Hret]].
    split; [|split].
    + split; [intros _; exists segments; exact Hrun|].
      intros _. apply Hlegal. reflexivity.
    + intros _. rewrite Hrun, Hret. reflexivity.
    + intros Hnot. exfalso. apply Hnot, Hlegal. reflexivity.
  - split; [|split].
    + split.
      * intros H. apply Hlegal in H. discriminate.
      * intros [segments H]. rewrite Hmain in H. discriminate.
    + intros H. apply Hlegal in H. discriminate.
    + intros _. exact Hmain.
Qed.

(** ** Masking *)














Lemma maskSegment_error :
  forall verifyMask seg m e,
    maskSegment verifyMask seg m = inl e -> e = MaskRangeIncompatible.
Proof.
  intros verifyMask seg m e H. unfold maskSegment in H.
  destruct verifyMask; [|discriminate].
  destruct (negb _); [|discriminate]. inversion H. reflexivity.
Qed.

Lemma allAssigned_map_Some :
  forall l : list AddressDivision, allAssigned (map Some l) = Ok l.
Proof.
  induction l as [|a l IH]; simpl; [reflexivity|]. rewrite IH. reflexivity.
Qed.

Lemma skipn_repeat_None :
  forall (A : Type) (a b : nat),
    skipn a (repeat (@None A) (a + b)) = repeat None b.
Proof.
  intros A a b. rewrite repeat_app, skipn_app, repeat_length, Nat.sub_diag.
  rewrite skipn_all2 by (rewrite repeat_length; lia). reflexivity.
Qed.

Section SubnetSegmentsProperties.

Variables sec other : IPAddressSection.
Variable prefLen : PrefixLen.
Variable singleOnly : bool.

Let maskProducer : Z -> outcome SegInt :=
  fun i => seg <- getDivision other i ;; Ok (GetSegmentValue seg).

Let bits : BitCount := GetBitsPerSegment sec.

(** The inner loop writes the masked segments behind the ones already
    written, or reports the first segment that is not sequential. *)
Lemma subnetSegmentsRest_spec :
  forall rest others pre opre newPre tail,
    divisions sec = pre ++ rest ->
    divisions other = opre ++ others ->
    length opre = length pre ->
    length newPre = length pre ->
    length tail = length rest ->
    (length rest <= length others)%nat ->
    subnetSegmentsRest sec prefLen true (getDivision sec) maskProducer
      (length rest) (Z.of_nat (length pre)) (newPre ++ tail)
    = if allSequential rest others
      then Ok (inr (newPre ++
                    map Some (maskedSegments bits prefLen
                                (Z.of_nat (length pre)) rest others)))
      else Ok (inl MaskRangeIncompatible).
Proof.
  induction rest as [|seg rest IH];
    intros others pre opre newPre tail Hsec Hother Hopre Hnew Htail Hlen.
  - destruct tail; [|discriminate]. simpl. reflexivity.
  - destruct others as [|o others]; [simpl in Hlen; lia|].
    destruct tail as [|t tail]; [discriminate|].
    assert (Hseg : getDivision sec (Z.of_nat (length pre)) = Ok seg)
      by (unfold getDivision; rewrite Hsec; apply indexAt_app).
    assert (Hm : maskProducer (Z.of_nat (length pre)) = Ok (value o))
      by (unfold maskProducer, getDivision;
          rewrite Hother, <- Hopre, indexAt_app; reflexivity).
    cbn [length subnetSegmentsRest allSequential maskedSegments map].
    rewrite Hseg. cbn [bind]. rewrite Hm. cbn [bind].
    unfold segmentSequential.
    destruct (maskSegment true seg (value o)) as [e|[v u]] eqn:Hmask.
    + apply maskSegment_error in Hmask. subst e. reflexivity.
    + rewrite <- Hnew, assign_app. cbn [bind]. rewrite Hnew.
      set (x := if negb (segsSame
                           (getSegmentPrefixLength (GetBitsPerSegment sec)
                              prefLen (Z.of_nat (length pre)))
                           (divisionPrefixLength seg) v (value seg) u
                           (upperValue seg))
                then deriveNewMultiSeg seg v u
                       (getSegmentPrefixLength (GetBitsPerSegment sec)
                          prefLen (Z.of_nat (length pre)))
                else seg).
      replace (newPre ++ Some x :: tail) with ((newPre ++ [Some x]) ++ tail)
        by (rewrite <- app_assoc; reflexivity).
      replace (Z.of_nat (length pre) + 1)
        with (Z.of_nat (length (pre ++ [seg])))
        by (rewrite length_app; simpl; lia).
      rewrite (IH others (pre ++ [seg]) (opre ++ [o]) (newPre ++ [Some x]) tail).
      * simpl andb.
        destruct (allSequential rest others); [|reflexivity].
        rewrite <- app_assoc. simpl app.
        unfold maskedSegment, bits. rewrite Hmask. fold x.
        replace (Z.of_nat (length (pre ++ [seg])))
          with (Z.of_nat (length pre) + 1)
          by (rewrite length_app; simpl; lia).
        reflexivity.
      * rewrite <- app_assoc. exact Hsec.
      * rewrite <- app_assoc. exact Hother.
      * rewrite !length_app. simpl. lia.
      * rewrite !length_app. simpl. lia.
      * simpl in Htail. lia.
      * simpl in Hlen. lia.
Qed.

(** The outer loop returns the section itself when no segment changes,
    derives a section from the masked segments when one does, and
    reports the first segment that is not sequential. *)
Lemma subnetSegmentsScan_spec :
  forall err0 rest others pre opre,
    divisions sec = pre ++ rest ->
    divisions other = opre ++ others ->
    length opre = length pre ->
    (length rest <= length others)%nat ->
    subnetSegmentsScan sec prefLen true (getDivision sec) maskProducer
      singleOnly err0 (length rest) (Z.of_nat (length pre))
    = if allSequential rest others then
        if allUnchanged bits prefLen (Z.of_nat (length pre)) rest others
        then Ok (Some sec, err0)
        else
          res <- deriveIPAddressSectionSingle sec
                   (pre ++ maskedSegments bits prefLen (Z.of_nat (length pre))
                             rest others)
                   prefLen singleOnly ;;
          Ok (Some res, err0)
      else Ok (None, Some MaskRangeIncompatible).
Proof.
  intros err0. induction rest as [|seg rest IH];
    intros others pre opre Hsec Hother Hopre Hlen.
  - simpl. reflexivity.
  - destruct others as [|o others]; [simpl in Hlen; lia|].
    assert (Hseg : getDivision sec (Z.of_nat (length pre)) = Ok seg)
      by (unfold getDivision; rewrite Hsec; apply indexAt_app).
    assert (Hm : maskProducer (Z.of_nat (length pre)) = Ok (value o))
      by (unfold maskProducer, getDivision;
          rewrite Hother, <- Hopre, indexAt_app; reflexivity).
    cbn [length subnetSegmentsScan allSequential allUnchanged maskedSegments].
    rewrite Hseg. cbn [bind]. rewrite Hm. cbn [bind].
    unfold segmentSequential, segmentUnchanged. unfold maskedSegment at 1.
    destruct (maskSegment true seg (value o)) as [e|[v u]] eqn:Hmask.
    + apply maskSegment_error in Hmask. subst e. reflexivity.
    + fold bits.
      destruct (segsSame (getSegmentPrefixLength bits prefLen (Z.of_nat (length pre)))
                  (divisionPrefixLength seg) v (value seg) u (upperValue seg))
        eqn:Hsame; cbn [negb andb].
      * replace (Z.of_nat (length pre) + 1)
          with (Z.of_nat (length (pre ++ [seg])))
          by (rewrite length_app; simpl; lia).
        rewrite (IH others (pre ++ [seg]) (opre ++ [o])).
        -- rewrite <- app_assoc. reflexivity.
        -- rewrite <- app_assoc. exact Hsec.
        -- rewrite <- app_assoc. exact Hother.
        -- rewrite !length_app. simpl. lia.
        -- simpl in Hlen. lia.
      * unfold createSegmentArray, GetSegmentCount.
        replace (Z.of_nat (length (divisions sec)) <? 0) with false
          by (symmetry; apply Z.ltb_ge; lia).
        cbn [bind]. unfold copySubSegmentsToSlice.
        rewrite !Nat2Z.id, Hsec, length_app.
        rewrite firstn_app, Nat.sub_diag, firstn_all. simpl firstn.
        rewrite app_nil_r, skipn_repeat_None.
        cbn [length repeat].
        rewrite <- (length_map Some pre) at 1. rewrite assign_app. cbn [bind].
        replace (map Some pre ++ Some _ :: repeat None (length rest))
          with ((map Some pre ++
                 [Some (deriveNewMultiSeg seg v u
                          (getSegmentPrefixLength bits prefLen
                             (Z.of_nat (length pre))))])
                ++ repeat None (length rest))
          by (rewrite <- app_assoc; reflexivity).
        replace (Z.of_nat (length pre) + 1)
          with (Z.of_nat (length (pre ++ [seg])))
          by (rewrite length_app; simpl; lia).
        rewrite (subnetSegmentsRest_spec rest others (pre ++ [seg]) (opre ++ [o])).
        -- destruct (allSequential rest others); [|reflexivity].
           cbn [bind].
           rewrite <- app_assoc. simpl app.
           replace (Some (deriveNewMultiSeg seg v u
                            (getSegmentPrefixLength bits prefLen
                               (Z.of_nat (length pre)))) ::
                    map Some (maskedSegments bits prefLen
                                (Z.of_nat (length (pre ++ [seg]))) rest others))
             with (map Some
                     (deriveNewMultiSeg seg v u
                        (getSegmentPrefixLength bits prefLen
                           (Z.of_nat (length pre))) ::
                      maskedSegments bits prefLen
                        (Z.of_nat (length (pre ++ [seg]))) rest others))
             by reflexivity.
           rewrite <- map_app, allAssigned_map_Some. cbn [bind].
           replace (Z.of_nat (length (pre ++ [seg])))
             with (Z.of_nat (length pre) + 1)
             by (rewrite length_app; simpl; lia).
           reflexivity.
        -- rewrite <- app_assoc. exact Hsec.
        -- rewrite <- app_assoc. exact Hother.
        -- rewrite !length_app. simpl. lia.
        -- rewrite !length_app, length_map. simpl. lia.
        -- apply repeat_length.
        -- simpl in Hlen. lia.
Qed.

End SubnetSegmentsProperties.
















Lemma maskPairs_wellFormed :
  forall sec other p,
    Forall wellFormedSeg (divisions sec) ->
    Forall wellFormedSeg (divisions other) ->
    In p (maskPairs sec other) -> wellFormedSeg (fst p) /\ 0 <= snd p.
Proof.
  intros sec other [seg m] Hsec Hother Hin. unfold maskPairs in Hin. cbn.
  split.
  - apply in_combine_l in Hin.
    rewrite Forall_forall in Hsec. apply Hsec. exact Hin.
  - apply in_combine_r in Hin. apply in_map_iff in Hin.
    destruct Hin as [o [<- Ho]].
    rewrite Forall_forall in Hother. destruct (Hother o Ho) as [H0 _]. exact H0.
Qed.


(** ** Instances of the theorems at concrete inputs *)




(** The all-zeros rule does not reach the section without segments:
    all of its segments are zero, and neither mask length is
    returned. *)
Lemma checkForPrefixMask_empty_section_counterexample :
  let sec := ipv4SectionOf [] in
  Forall (fun seg => value seg = 0) (divisions sec) /\
  checkForPrefixMask checkForPrefixMaskSeg sec = (None, None) /\
  checkForPrefixMask checkForPrefixMaskSeg sec
    <> (Some 0, Some (GetSectionBitCount sec)).
Proof.
  split; [constructor|]. split; [reflexivity|]. vm_compute. discriminate.
Qed.

(** 0.0.0.0 and 255.255.255.255. *)
Lemma checkForPrefixMask_two_way_sections_witness :
  checkForPrefixMask checkForPrefixMaskSeg (ipv4SectionOf [0; 0; 0; 0])
    = (Some 0, Some 32) /\
  checkForPrefixMask checkForPrefixMaskSeg (ipv4SectionOf [255; 255; 255; 255])
    = (Some 32, Some 0).
Proof.
  split.
  - apply (proj1 (proj2 (checkForPrefixMask_two_way_sections
                           checkForPrefixMaskSeg (ipv4SectionOf [0; 0; 0; 0])))).
    + discriminate.
    + repeat constructor.
  - apply (proj1 (proj2 (proj2 (checkForPrefixMask_two_way_sections
                           checkForPrefixMaskSeg
                           (ipv4SectionOf [255; 255; 255; 255]))))).
    + discriminate.
    + exists ipv4Seg. repeat constructor.
    + repeat constructor.
Defined.

(** Five bytes for IPv4: a leading 0x00 is dropped, a leading 0x05 is
    refused. *)
Lemma toSegments_excess_bytes_witness :
  toSegments (creator := ipv4Creator) [x00; x01; x02; x03; x04] 4 1 8 (4 * 1) None
    = toSegments (creator := ipv4Creator) [x01; x02; x03; x04] 4 1 8 (4 * 1) None /\
  toSegments (creator := ipv4Creator) [x05; x01; x02; x03; x04] 4 1 8 (4 * 1) None
    = Err ValueExceedsSize.
Proof.
  split.
  - apply (proj1 (proj2 (toSegments_excess_bytes ipv4Creator
                           [x00; x01; x02; x03; x04] 4 1 8 None
                           ltac:(lia) ltac:(lia) ltac:(simpl; lia)))).
    left. repeat constructor.
  - apply (proj2 (proj2 (toSegments_excess_bytes ipv4Creator
                           [x05; x01; x02; x03; x04] 4 1 8 None
                           ltac:(lia) ltac:(lia) ltac:(simpl; lia)))).
    intros [H|[H _]]; inversion H as [|? ? Hb _]; vm_compute in Hb;
      discriminate.
Defined.

(** The zoned IPv6 block 1:2:3:4:5:6:7:0/112%eth0 and the IPv4 block
    1.2.3.0/24. *)
Lemma ToSequentialRange_drops_prefix_and_zone_witness :
  (exists r,
     ToSequentialRangeIPv6 (Some zonedBlockIPv6Example) = Some r /\
     isEndPoint (lower r) [1; 2; 3; 4; 5; 6; 7; 0] /\
     isEndPoint (upper r) [1; 2; 3; 4; 5; 6; 7; 65535]) /\
  (exists r,
     ToSequentialRangeIPv4 (Some blockIPv4Example) = Some r /\
     isEndPoint (lower r) [1; 2; 3; 0] /\
     isEndPoint (upper r) [1; 2; 3; 255]).
Proof.
  split.
  - exact (proj1 ToSequentialRange_drops_prefix_and_zone zonedBlockIPv6Example).
  - exact (proj2 ToSequentialRange_drops_prefix_and_zone blockIPv4Example eq_refl).
Defined.

(** 1.2.3.0-255 from a lower and an upper provider. *)
Lemma createSegments_isMultiple_witness :
  exists segs isMult,
    createSegments (creator := ipv4Creator) (Some lowerVals1230)
      (Some upperVals123255) 4 8 None = Ok (map Some segs, isMult) /\
    Z.of_nat (length segs) = 4 /\
    (Exists (fun seg => value seg <> upperValue seg) segs -> isMult = true) /\
    ((forall i, 0 <= i < 4 ->
        fitsSegment ipv4Creator
          (lowerValueAt (Some lowerVals1230) (Some upperVals123255) i) /\
        fitsSegment ipv4Creator
          (upperValueAt (Some lowerVals1230) (Some upperVals123255) i)) ->
     isMult = true ->
     Exists (fun seg => value seg <> upperValue seg) segs) /\
    (Some upperVals123255 = None ->
     isMult = false /\ Forall (fun seg => value seg = upperValue seg) segs).
Proof.
  apply (createSegments_isMultiple ipv4Creator (Some lowerVals1230)
           (Some upperVals123255) 4 8 None).
  - left. reflexivity.
  - lia.
  - left. discriminate.
Defined.

(** The flag compares the provided values, the segments store them
    narrowed to their width: from a lower value 0 and an upper value
    256 the MAC creator builds the single-valued segment 0, and the
    flag is true although no segment has an upper value different from
    its lower value. *)
Lemma createSegments_isMultiple_beyond_width_counterexample :
  exists segs,
    createSegments (creator := macCreator) (Some (fun _ => 0))
      (Some (fun _ => 256)) 1 8 None = Ok (map Some segs, true) /\
    boundsOf segs = [(0, 0)] /\
    ~ Exists (fun seg => value seg <> upperValue seg) segs.
Proof.
  exists [mkDivision macSeg 0 0 None].
  split; [reflexivity|]. split; [reflexivity|].
  intros Hsome. apply Exists_cons in Hsome.
  destruct Hsome as [Hdiff | Hnil]; [apply Hdiff; reflexivity|inversion Hnil].
Qed.

(** A provider with a creator and an empty cache stays empty. *)
Lemma getCachedAddresses_never_creates_witness :
  getCachedAddresses uncachedProviderExample
    = Ok (None, None, uncachedProviderExample) /\
  getProviderAddress uncachedProviderExample
    = Ok (None, uncachedProviderExample).
Proof.
  destruct (getCachedAddresses_never_creates uncachedProviderExample)
    as [[Hnil _]|[f [_ [Hget [Haddr _]]]]].
  - discriminate Hnil.
  - split; [exact Hget|]. apply Haddr. reflexivity.
Defined.

(** * Further properties *)

(** ** The scan of [checkForPrefixMask] over runs of segments *)

Section PrefixMaskShapes.

Variable segCheckForPrefixMask : AddressDivision -> PrefixLen * PrefixLen.

Let scan := maskScanLoop segCheckForPrefixMask.

Lemma maskScanLoop_app :
  forall maxVal a b i st,
    maskScanLoop segCheckForPrefixMask maxVal (a ++ b) i st
    = match maskScanLoop segCheckForPrefixMask maxVal a i st with
      | Some st' =>
        maskScanLoop segCheckForPrefixMask maxVal b (i + Z.of_nat (length a)) st'
      | None => None
      end.
Proof.
  intros maxVal a. induction a as [|x a IH]; intros b i st.
  - simpl. rewrite Z.add_0_r. reflexivity.
  - cbn [app maskScanLoop].
    destruct (maskScanStep segCheckForPrefixMask maxVal i x st) as [st1|];
      [|reflexivity].
    rewrite IH. cbn [length]. rewrite Nat2Z.inj_succ.
    replace (i + 1 + Z.of_nat (length a)) with (i + Z.succ (Z.of_nat (length a)))
      by lia.
    reflexivity.
Qed.

(** A run of zero segments, entered while one of the flags that allow
    zeros is set. *)
Lemma maskScanLoop_zero_run :
  forall maxVal segs i st,
    Forall (fun seg => value seg = 0) segs -> segs <> [] ->
    checkingNetworkFront st = true \/ checkingHostFront st = true \/
    checkingNetworkBack st = true ->
    maskScanLoop segCheckForPrefixMask maxVal segs i st
    = Some (mkMaskScan false
              (checkingNetworkFront st || checkingNetworkBack st)
              (checkingHostFront st) false
              (if checkingNetworkFront st then i else prefixedSeg st)
              (prefixedSegPrefixLen st)).
Proof.
  intros maxVal segs. induction segs as [|seg segs IH]; intros i st Hall Hne Hflags;
    [congruence|].
  inversion Hall as [|? ? Hv Hrest]; subst.
  cbn [maskScanLoop]. unfold maskScanStep at 1, GetSegmentValue. rewrite Hv.
  cbn [Z.eqb].
  destruct st as [nf nb hf hb ps pl]. cbn in Hflags |- *.
  destruct segs as [|seg' segs].
  - destruct nf, nb, hf; cbn; try reflexivity;
      destruct Hflags as [H|[H|H]]; discriminate.
  - destruct nf, nb, hf; cbn -[maskScanLoop];
      try (destruct Hflags as [H|[H|H]]; discriminate);
      rewrite IH by (try assumption; try discriminate; cbn; auto);
      cbn; reflexivity.
Qed.

(** A run of segments of the maximal value, entered while one of the
    flags that allow ones is set. *)
Lemma maskScanLoop_max_run :
  forall maxVal segs i st,
    maxVal <> 0 ->
    Forall (fun seg => value seg = maxVal) segs -> segs <> [] ->
    checkingHostFront st = true \/ checkingNetworkFront st = true \/
    checkingHostBack st = true ->
    maskScanLoop segCheckForPrefixMask maxVal segs i st
    = Some (mkMaskScan (checkingNetworkFront st) false false
              (checkingHostFront st || checkingHostBack st)
              (if checkingHostFront st then i else prefixedSeg st)
              (prefixedSegPrefixLen st)).
Proof.
  intros maxVal segs. induction segs as [|seg segs IH];
    intros i st Hmax Hall Hne Hflags; [congruence|].
  inversion Hall as [|? ? Hv Hrest]; subst.
  cbn [maskScanLoop]. unfold maskScanStep at 1, GetSegmentValue.
  replace (value seg =? 0) with false by (symmetry; apply Z.eqb_neq; assumption).
  rewrite Z.eqb_refl.
  destruct st as [nf nb hf hb ps pl]. cbn in Hflags |- *.
  destruct segs as [|seg' segs].
  - destruct nf, hf, hb; cbn; try reflexivity;
      destruct Hflags as [H|[H|H]]; discriminate.
  - destruct nf, hf, hb; cbn -[maskScanLoop];
      try (destruct Hflags as [H|[H|H]]; discriminate);
      rewrite IH by (try assumption; try discriminate; cbn; auto);
      cbn; reflexivity.
Qed.

(** A segment that is neither zero nor maximal and is a network mask
    segment, met while network ones are still being read. *)
Lemma maskScanStep_partial_network :
  forall maxVal i p st n,
    value p <> 0 -> value p <> maxVal ->
    fst (segCheckForPrefixMask p) = Some n ->
    checkingNetworkFront st = true ->
    maskScanStep segCheckForPrefixMask maxVal i p st
    = Some (mkMaskScan false true false (checkingHostBack st) i n).
Proof.
  intros maxVal i p st n H0 Hm Hn Hnf.
  unfold maskScanStep, GetSegmentValue.
  replace (value p =? 0) with false by (symmetry; apply Z.eqb_neq; assumption).
  replace (value p =? maxVal) with false by (symmetry; apply Z.eqb_neq; assumption).
  destruct (segCheckForPrefixMask p) as [sn sh]. cbn in Hn. subst sn.
  rewrite Hnf. reflexivity.
Qed.

(** A segment that is neither zero nor maximal and is a host mask
    segment only, met while host zeros are still being read. *)
Lemma maskScanStep_partial_host :
  forall maxVal i p st h,
    value p <> 0 -> value p <> maxVal ->
    segCheckForPrefixMask p = (None, Some h) ->
    checkingHostFront st = true ->
    maskScanStep segCheckForPrefixMask maxVal i p st
    = Some (mkMaskScan false (checkingNetworkBack st) false true i h).
Proof.
  intros maxVal i p st h H0 Hm Hh Hhf.
  unfold maskScanStep, GetSegmentValue.
  replace (value p =? 0) with false by (symmetry; apply Z.eqb_neq; assumption).
  replace (value p =? maxVal) with false by (symmetry; apply Z.eqb_neq; assumption).
  rewrite Hh, Hhf. reflexivity.
Qed.

Lemma oneKind_max :
  forall (segs : list AddressDivision) (firstSeg seg : AddressDivision),
    ofOneKind segs -> hd_error segs = Some firstSeg -> In seg segs ->
    GetMaxValue seg = GetMaxValue firstSeg.
Proof.
  intros segs firstSeg seg [k Hk] Hhd Hin.
  rewrite Forall_forall in Hk. apply GetMaxValue_kind.
  rewrite (Hk seg Hin). symmetry. apply Hk.
  destruct segs as [|x segs]; [discriminate|].
  injection Hhd as ->. left. reflexivity.
Qed.

Lemma maxSegs_of_first :
  forall (segs run : list AddressDivision) (firstSeg : AddressDivision),
    ofOneKind segs -> hd_error segs = Some firstSeg ->
    incl run segs -> maxSegs run ->
    Forall (fun seg => value seg = GetMaxValue firstSeg) run.
Proof.
  intros segs run firstSeg Hkind Hhd Hincl Hmax.
  unfold maxSegs in Hmax. rewrite Forall_forall in Hmax |- *.
  intros seg Hin. rewrite (Hmax seg Hin).
  apply (oneKind_max segs); auto.
Qed.

(** [checkForPrefixMask] on a section with a first segment is the scan
    of its divisions followed by the reading of the flags. *)
Lemma checkForPrefixMask_scan :
  forall (section : IPAddressSection) (firstSeg : AddressDivision) st,
    hd_error (divisions section) = Some firstSeg ->
    maskScanLoop segCheckForPrefixMask (GetMaxValue firstSeg)
      (divisions section) 0 initialMaskScan = Some st ->
    checkingNetworkFront st = false -> checkingHostFront st = false ->
    checkForPrefixMask segCheckForPrefixMask section
    = if checkingNetworkBack st then
        (getNetworkPrefixLength (GetBitCount firstSeg)
           (prefixedSegPrefixLen st) (prefixedSeg st), None)
      else if checkingHostBack st then
        (None, getNetworkPrefixLength (GetBitCount firstSeg)
                 (prefixedSegPrefixLen st) (prefixedSeg st))
      else (None, None).
Proof.
  intros sec firstSeg st Hhd Hscan Hnf Hhf. unfold checkForPrefixMask.
  destruct (divisions sec) as [|f rest]; [discriminate|].
  injection Hhd as ->. rewrite Hscan, Hnf, Hhf. reflexivity.
Qed.

(** X1: a section whose lower values are maximal segments, then at
    most one segment that the segment classifier reads as a network
    mask of [n] bits, then zero segments, is classified as a network
    mask: the network mask length is the one of [n] bits in the
    segment after the maximal ones, and there is no host mask
    length. *)
Theorem checkForPrefixMask_network_mask :
  forall (section : IPAddressSection) (firstSeg : AddressDivision)
         (ones mid zeros : list AddressDivision) (n : BitCount),
    divisions section = ones ++ mid ++ zeros ->
    hd_error (divisions section) = Some firstSeg ->
    ofOneKind (divisions section) ->
    maxSegs ones -> zeroSegs zeros ->
    (mid = [] /\ n = 0 /\ ones <> [] /\ zeros <> []) \/
    (exists p, mid = [p] /\ partialSeg p /\
               fst (segCheckForPrefixMask p) = Some n) ->
    checkForPrefixMask segCheckForPrefixMask section
    = (getNetworkPrefixLength (GetBitCount firstSeg) n
         (Z.of_nat (length ones)), None).
Proof.
  intros sec firstSeg ones mid zeros n Hdiv Hhd Hkind Hones Hzeros Hmid.
  assert (Hones' : Forall (fun seg => value seg = GetMaxValue firstSeg) ones).
  { apply (maxSegs_of_first (divisions sec)); auto.
    rewrite Hdiv. apply incl_appl, incl_refl. }
  pose proof (GetMaxValue_nonzero firstSeg) as Hmax.
  assert (Hscan : exists hb,
            maskScanLoop segCheckForPrefixMask (GetMaxValue firstSeg)
              (divisions sec) 0 initialMaskScan
            = Some (mkMaskScan false true false hb (Z.of_nat (length ones)) n)).
  { rewrite Hdiv, !maskScanLoop_app.
    assert (Hfirst : exists hf hb,
              maskScanLoop segCheckForPrefixMask (GetMaxValue firstSeg) ones 0
                initialMaskScan = Some (mkMaskScan true false hf hb 0 0) /\
              (ones <> [] -> hf = false /\ hb = true)).
    { destruct ones as [|o ones].
      - exists true, false. split; [reflexivity|congruence].
      - rewrite maskScanLoop_max_run; auto; [|discriminate].
        exists false, true. split; [reflexivity|auto]. }
    destruct Hfirst as [hf [hb [-> Hne]]]. cbn [Z.add].
    destruct Hmid as [[-> [-> [Hone Hzero]]]|[p [-> [[Hp0 Hpm] Hn]]]].
    - destruct (Hne Hone) as [-> ->]. cbn [maskScanLoop length Z.of_nat].
      rewrite maskScanLoop_zero_run; auto. cbn.
      eexists. reflexivity.
    - cbn [app maskScanLoop].
      rewrite (maskScanStep_partial_network _ _ _ _ n); auto.
      + destruct zeros as [|z zeros].
        * cbn. eexists. reflexivity.
        * rewrite maskScanLoop_zero_run; auto; try discriminate; cbn; auto.
          eexists. reflexivity.
      + rewrite <- (oneKind_max (divisions sec) firstSeg p); auto.
        rewrite Hdiv. apply in_or_app. right. left. reflexivity. }
  destruct Hscan as [hb Hscan].
  rewrite (checkForPrefixMask_scan sec firstSeg _ Hhd Hscan); reflexivity.
Qed.

(** The scan over a leading run of zero segments. *)
Lemma maskScanLoop_leading_zeros :
  forall maxVal zeros,
    Forall (fun seg => value seg = 0) zeros ->
    exists nf nb,
      maskScanLoop segCheckForPrefixMask maxVal zeros 0 initialMaskScan
      = Some (mkMaskScan nf nb true false 0 0) /\
      (zeros = [] -> nf = true /\ nb = false) /\
      (zeros <> [] -> nf = false /\ nb = true).
Proof.
  intros maxVal zeros Hz. destruct zeros as [|z zeros].
  - exists true, false. split; [reflexivity|]. split; [auto|congruence].
  - rewrite maskScanLoop_zero_run; auto; [|discriminate].
    exists false, true. split; [reflexivity|]. split; [discriminate|auto].
Qed.

(** X2: a section whose lower values are zero segments, then at most
    one segment that the segment classifier reads as a host mask, then
    maximal segments, is classified as a host mask, provided maximal
    segments follow the middle segment or no zero segment precedes
    it. *)
Theorem checkForPrefixMask_host_mask :
  forall (section : IPAddressSection) (firstSeg : AddressDivision)
         (zeros mid ones : list AddressDivision) (h : BitCount),
    divisions section = zeros ++ mid ++ ones ->
    hd_error (divisions section) = Some firstSeg ->
    ofOneKind (divisions section) ->
    zeroSegs zeros -> maxSegs ones ->
    (mid = [] /\ h = 0 /\ zeros <> [] /\ ones <> []) \/
    (exists p, mid = [p] /\ partialSeg p /\
               segCheckForPrefixMask p = (None, Some h) /\
               (zeros = [] \/ ones <> [])) ->
    checkForPrefixMask segCheckForPrefixMask section
    = (None, getNetworkPrefixLength (GetBitCount firstSeg) h
               (Z.of_nat (length zeros))).
Proof.
  intros sec firstSeg zeros mid ones h Hdiv Hhd Hkind Hzeros Hones Hmid.
  assert (Hones' : Forall (fun seg => value seg = GetMaxValue firstSeg) ones).
  { apply (maxSegs_of_first (divisions sec)); auto.
    rewrite Hdiv. apply incl_appr, incl_appr, incl_refl. }
  pose proof (GetMaxValue_nonzero firstSeg) as Hmax.
  assert (Hscan :
            maskScanLoop segCheckForPrefixMask (GetMaxValue firstSeg)
              (divisions sec) 0 initialMaskScan
            = Some (mkMaskScan false false false true
                      (Z.of_nat (length zeros)) h)).
  { rewrite Hdiv, !maskScanLoop_app.
    destruct (maskScanLoop_leading_zeros (GetMaxValue firstSeg) zeros Hzeros)
      as [nf [nb [-> [Hnil Hne]]]].
    cbn [Z.add].
    destruct Hmid as [[-> [-> [Hzero Hone]]]|[p [-> [[Hp0 Hpm] [Hh Hshape]]]]].
    - destruct (Hne Hzero) as [-> ->]. cbn [app].
      rewrite maskScanLoop_max_run; auto.
    - cbn [app maskScanLoop].
      rewrite (maskScanStep_partial_host _ _ _ _ h); auto.
      + destruct ones as [|o ones].
        * destruct Hshape as [Hz|Ho]; [|congruence].
          destruct (Hnil Hz) as [-> ->]. reflexivity.
        * rewrite maskScanLoop_max_run; auto; try discriminate; cbn; auto.
      + rewrite <- (oneKind_max (divisions sec) firstSeg p); auto.
        rewrite Hdiv. apply in_or_app. right. left. reflexivity. }
  rewrite (checkForPrefixMask_scan sec firstSeg _ Hhd Hscan); reflexivity.
Qed.

(** X3: zero segments followed by a segment that is a host mask only
    and then by nothing but zero segments: the scan keeps the flag set
    by the leading zeros, and the section is classified as a network
    mask, with the host bits of the middle segment counted as network
    bits. No host mask length is returned. *)
Theorem checkForPrefixMask_host_segment_after_zeros :
  forall (section : IPAddressSection) (firstSeg p : AddressDivision)
         (zeros zeros' : list AddressDivision) (h : BitCount),
    divisions section = zeros ++ [p] ++ zeros' ->
    hd_error (divisions section) = Some firstSeg ->
    ofOneKind (divisions section) ->
    zeroSegs zeros -> zeroSegs zeros' -> zeros <> [] ->
    partialSeg p -> segCheckForPrefixMask p = (None, Some h) ->
    checkForPrefixMask segCheckForPrefixMask section
    = (getNetworkPrefixLength (GetBitCount firstSeg) h
         (Z.of_nat (length zeros)), None).
Proof.
  intros sec firstSeg p zeros zeros' h Hdiv Hhd Hkind Hzeros Hzeros' Hne
         [Hp0 Hpm] Hh.
  assert (Hscan :
            maskScanLoop segCheckForPrefixMask (GetMaxValue firstSeg)
              (divisions sec) 0 initialMaskScan
            = Some (mkMaskScan false true false (match zeros' with [] => true | _ => false end)
                      (Z.of_nat (length zeros)) h)).
  { rewrite Hdiv, !maskScanLoop_app.
    rewrite maskScanLoop_zero_run; auto. cbn [Z.add].
    cbn [app maskScanLoop].
    rewrite (maskScanStep_partial_host _ _ _ _ h); auto.
    + destruct zeros' as [|z zeros'].
      * reflexivity.
      * rewrite maskScanLoop_zero_run; auto; try discriminate; cbn; auto.
    + rewrite <- (oneKind_max (divisions sec) firstSeg p); auto.
      rewrite Hdiv. apply in_or_app. right. left. reflexivity. }
  rewrite (checkForPrefixMask_scan sec firstSeg _ Hhd Hscan); reflexivity.
Qed.

(** X4: maximal segments on both sides of a segment that is a network
    mask: the scan keeps the flag set by the leading maximal segments,
    and the section is classified as a host mask, with the network bits
    of the middle segment counted as the boundary. No network mask
    length is returned. *)
Theorem checkForPrefixMask_network_segment_between_ones :
  forall (section : IPAddressSection) (firstSeg p : AddressDivision)
         (ones ones' : list AddressDivision) (n : BitCount),
    divisions section = ones ++ [p] ++ ones' ->
    hd_error (divisions section) = Some firstSeg ->
    ofOneKind (divisions section) ->
    maxSegs ones -> maxSegs ones' -> ones <> [] -> ones' <> [] ->
    partialSeg p -> fst (segCheckForPrefixMask p) = Some n ->
    checkForPrefixMask segCheckForPrefixMask section
    = (None, getNetworkPrefixLength (GetBitCount firstSeg) n
               (Z.of_nat (length ones))).
Proof.
  intros sec firstSeg p ones ones' n Hdiv Hhd Hkind Hones Hones' Hne Hne'
         [Hp0 Hpm] Hn.
  assert (H1 : Forall (fun seg => value seg = GetMaxValue firstSeg) ones).
  { apply (maxSegs_of_first (divisions sec)); auto.
    rewrite Hdiv. apply incl_appl, incl_refl. }
  assert (H2 : Forall (fun seg => value seg = GetMaxValue firstSeg) ones').
  { apply (maxSegs_of_first (divisions sec)); auto.
    rewrite Hdiv. apply incl_appr, incl_appr, incl_refl. }
  pose proof (GetMaxValue_nonzero firstSeg) as Hmax.
  assert (Hscan :
            maskScanLoop segCheckForPrefixMask (GetMaxValue firstSeg)
              (divisions sec) 0 initialMaskScan
            = Some (mkMaskScan false false false true
                      (Z.of_nat (length ones)) n)).
  { rewrite Hdiv, !maskScanLoop_app.
    rewrite maskScanLoop_max_run; auto. cbn [Z.add].
    cbn [app maskScanLoop].
    rewrite (maskScanStep_partial_network _ _ _ _ n); auto.
    + rewrite maskScanLoop_max_run; auto; cbn; auto.
    + rewrite <- (oneKind_max (divisions sec) firstSeg p); auto.
      rewrite Hdiv. apply in_or_app. right. left. reflexivity. }
  rewrite (checkForPrefixMask_scan sec firstSeg _ Hhd Hscan); reflexivity.
Qed.

End PrefixMaskShapes.

(** ** Instances of the mask shapes *)

(** 255.255.240.0 is a network mask of 20 bits. *)
Lemma checkForPrefixMask_network_mask_witness :
  checkForPrefixMask checkForPrefixMaskSeg (ipv4SectionOf [255; 255; 240; 0])
  = (Some 20, None).
Proof.
  apply (checkForPrefixMask_network_mask checkForPrefixMaskSeg
           (ipv4SectionOf [255; 255; 240; 0]) (mkDivision ipv4Seg 255 255 None)
           [mkDivision ipv4Seg 255 255 None; mkDivision ipv4Seg 255 255 None]
           [mkDivision ipv4Seg 240 240 None]
           [mkDivision ipv4Seg 0 0 None] 4).
  - reflexivity.
  - reflexivity.
  - exists ipv4Seg. repeat (apply Forall_cons; [reflexivity|]). apply Forall_nil.
  - repeat (apply Forall_cons; [reflexivity|]). apply Forall_nil.
  - repeat (apply Forall_cons; [reflexivity|]). apply Forall_nil.
  - right. eexists. split; [reflexivity|]. split; [|reflexivity].
    split; discriminate.
Defined.

(** 0.15.255.255 is a host mask of 12 network bits. *)
Lemma checkForPrefixMask_host_mask_witness :
  checkForPrefixMask checkForPrefixMaskSeg (ipv4SectionOf [0; 15; 255; 255])
  = (None, Some 12).
Proof.
  apply (checkForPrefixMask_host_mask checkForPrefixMaskSeg
           (ipv4SectionOf [0; 15; 255; 255]) (mkDivision ipv4Seg 0 0 None)
           [mkDivision ipv4Seg 0 0 None]
           [mkDivision ipv4Seg 15 15 None]
           [mkDivision ipv4Seg 255 255 None; mkDivision ipv4Seg 255 255 None] 4).
  - reflexivity.
  - reflexivity.
  - exists ipv4Seg. repeat (apply Forall_cons; [reflexivity|]). apply Forall_nil.
  - repeat (apply Forall_cons; [reflexivity|]). apply Forall_nil.
  - repeat (apply Forall_cons; [reflexivity|]). apply Forall_nil.
  - right. eexists. split; [reflexivity|]. split; [split; discriminate|].
    split; [reflexivity|]. right. discriminate.
Defined.

(** 0.0.0.15 comes out as a network mask of 28 bits. *)
Lemma checkForPrefixMask_host_segment_after_zeros_witness :
  checkForPrefixMask checkForPrefixMaskSeg (ipv4SectionOf [0; 0; 0; 15])
  = (Some 28, None).
Proof.
  apply (checkForPrefixMask_host_segment_after_zeros checkForPrefixMaskSeg
           (ipv4SectionOf [0; 0; 0; 15]) (mkDivision ipv4Seg 0 0 None)
           (mkDivision ipv4Seg 15 15 None)
           [mkDivision ipv4Seg 0 0 None; mkDivision ipv4Seg 0 0 None;
            mkDivision ipv4Seg 0 0 None] [] 4).
  - reflexivity.
  - reflexivity.
  - exists ipv4Seg. repeat (apply Forall_cons; [reflexivity|]). apply Forall_nil.
  - repeat (apply Forall_cons; [reflexivity|]). apply Forall_nil.
  - apply Forall_nil.
  - discriminate.
  - split; discriminate.
  - reflexivity.
Defined.

(** 255.254.255.255 comes out as a host mask of 15 network bits. *)
Lemma checkForPrefixMask_network_segment_between_ones_witness :
  checkForPrefixMask checkForPrefixMaskSeg (ipv4SectionOf [255; 254; 255; 255])
  = (None, Some 15).
Proof.
  apply (checkForPrefixMask_network_segment_between_ones checkForPrefixMaskSeg
           (ipv4SectionOf [255; 254; 255; 255]) (mkDivision ipv4Seg 255 255 None)
           (mkDivision ipv4Seg 254 254 None)
           [mkDivision ipv4Seg 255 255 None]
           [mkDivision ipv4Seg 255 255 None; mkDivision ipv4Seg 255 255 None] 7).
  - reflexivity.
  - reflexivity.
  - exists ipv4Seg. repeat (apply Forall_cons; [reflexivity|]). apply Forall_nil.
  - repeat (apply Forall_cons; [reflexivity|]). apply Forall_nil.
  - repeat (apply Forall_cons; [reflexivity|]). apply Forall_nil.
  - discriminate.
  - discriminate.
  - split; discriminate.
  - reflexivity.
Defined.

(** ** Segments from bytes: arrays of the expected length or shorter *)

Lemma indexAt_skipn_head :
  forall (A : Type) (l : list A) (q : Z),
    0 <= q < Z.of_nat (length l) ->
    exists x rest, skipn (Z.to_nat q) l = x :: rest /\ indexAt l q = Ok x /\
                   skipn (Z.to_nat (q + 1)) l = rest.
Proof.
  intros A l q Hq.
  destruct (skipn (Z.to_nat q) l) as [|x rest] eqn:E.
  - apply (f_equal (@length A)) in E. rewrite length_skipn in E. simpl in E. lia.
  - exists x, rest. split; [reflexivity|]. split.
    + unfold indexAt.
      replace (q <? 0) with false by (symmetry; apply Z.ltb_ge; lia).
      rewrite <- (Nat.add_0_r (Z.to_nat q)), <- nth_error_skipn, E. reflexivity.
    + replace (Z.to_nat (q + 1)) with (1 + Z.to_nat q)%nat by lia.
      rewrite <- skipn_skipn, E. reflexivity.
Qed.

(** Reading [n] bytes in a row shifts them into the value one by
    one. *)
Lemma readBytes_fold :
  forall (bytes : list byte) (s m : Z) (n : nat) (j : Z) (v : SegInt),
    0 <= s + j - m -> s + j - m + Z.of_nat n <= Z.of_nat (length bytes) ->
    forUpTo n j
      (fun j v => byteValue <- indexAt bytes (s + j - m) ;;
                  Ok (shiftInByte v (byteVal byteValue))) v
    = Ok (fold_left (fun v b => shiftInByte v (byteVal b))
            (firstn n (skipn (Z.to_nat (s + j - m)) bytes)) v).
Proof.
  intros bytes s m n. induction n as [|n IH]; intros j v Hlo Hhi.
  - reflexivity.
  - cbn [forUpTo].
    destruct (indexAt_skipn_head _ bytes (s + j - m)) as [x [rest [Hskip [Hidx Hrest]]]];
      [lia|].
    rewrite Hidx, Hskip. cbn [bind firstn fold_left].
    rewrite IH by lia.
    replace (s + (j + 1) - m) with (s + j - m + 1) by lia.
    rewrite Hrest. reflexivity.
Qed.

Section ToSegmentsValues.

Context (creator : AddressSegmentCreator).
Variable bytesPerSegment : Z.
Variable bitsPerSegment : BitCount.
Variable prefixLen : PrefixLen.
Hypothesis bytesPerSegment_pos : 0 < bytesPerSegment.

Let segmentAt (bytes : list byte) (i : Z) : AddressDivision :=
  let v := segmentValueOfBytes (segmentBytes bytes bytesPerSegment i) in
  createSegment v v (getSegmentPrefixLength bitsPerSegment prefixLen i).

(** On an array of exactly the expected length the loop writes, from
    segment [length pre] on, the segments of the successive byte
    runs. *)
Lemma toSegments_loop_values :
  forall (bytes : list byte) (segmentCount : Z) (n fuel : nat)
         (pre rest : list (option AddressDivision)),
    Z.of_nat (length bytes) = segmentCount * bytesPerSegment ->
    length rest = n -> Z.of_nat (length pre) + Z.of_nat n = segmentCount ->
    (n <= fuel)%nat ->
    toSegments_loop bytes bytesPerSegment bitsPerSegment
      (segmentCount * bytesPerSegment) prefixLen 0 0 fuel
      (Z.of_nat (length pre) * bytesPerSegment) (Z.of_nat (length pre))
      (pre ++ rest)
    = Ok (pre ++ map (fun i => Some (segmentAt bytes i))
                   (zrange (Z.of_nat (length pre)) n)).
Proof.
  intros bytes segmentCount n.
  induction n as [|n IH]; intros fuel pre rest Hlen Hrest Hsum Hfuel.
  - destruct rest; [|discriminate]. cbn [zrange seq map].
    assert (Hs : Z.of_nat (length pre) = segmentCount) by lia.
    rewrite Hs. destruct fuel; cbn [toSegments_loop];
      rewrite Z.ltb_irrefl; reflexivity.
  - destruct fuel as [|fuel]; [lia|].
    destruct rest as [|x rest]; [discriminate|]. injection Hrest as Hrest.
    set (s := Z.of_nat (length pre)) in *.
    cbn [toSegments_loop].
    replace (s * bytesPerSegment <? segmentCount * bytesPerSegment) with true
      by (symmetry; apply Z.ltb_lt; nia).
    replace (s * bytesPerSegment <? 0) with false
      by (symmetry; apply Z.ltb_ge; nia).
    cbn [bind]. unfold forRange.
    rewrite readBytes_fold by nia.
    cbn [bind].
    replace (Z.to_nat (bytesPerSegment + s * bytesPerSegment - s * bytesPerSegment))
      with (Z.to_nat bytesPerSegment) by lia.
    replace (0 + s * bytesPerSegment - 0) with (s * bytesPerSegment) by lia.
    fold (segmentBytes bytes bytesPerSegment s).
    fold (segmentValueOfBytes (segmentBytes bytes bytesPerSegment s)).
    fold (segmentAt bytes s).
    subst s. rewrite assign_app. cbn [bind].
    replace (pre ++ Some (segmentAt bytes (Z.of_nat (length pre))) :: rest)
      with ((pre ++ [Some (segmentAt bytes (Z.of_nat (length pre)))]) ++ rest)
      by (rewrite <- app_assoc; reflexivity).
    replace (bytesPerSegment + Z.of_nat (length pre) * bytesPerSegment)
      with (Z.of_nat (length (pre ++ [Some (segmentAt bytes (Z.of_nat (length pre)))]))
            * bytesPerSegment)
      by (rewrite length_app; simpl length; lia).
    replace (Z.of_nat (length pre) + 1)
      with (Z.of_nat (length (pre ++ [Some (segmentAt bytes (Z.of_nat (length pre)))])))
      by (rewrite length_app; simpl length; lia).
    rewrite (IH fuel _ rest Hlen Hrest) by (rewrite ?length_app; simpl length; lia).
    rewrite <- app_assoc, zrange_S. cbn [app map].
    rewrite length_app. simpl length.
    replace (Z.of_nat (length pre + 1)) with (Z.of_nat (length pre) + 1) by lia.
    reflexivity.
Qed.

End ToSegmentsValues.

(** The value shifted in from a run of bytes is the big-endian number
    of the run, truncated to the 32 bits of a [SegInt]. *)
Lemma shiftInByte_arith :
  forall v b, 0 <= b < 256 ->
    shiftInByte v b = (v mod 2 ^ 24) * 256 + b.
Proof.
  intros v b Hb. unfold shiftInByte, toSegInt.
  rewrite Z.shiftl_mul_pow2 by lia.
  change (2 ^ 32) with (2 ^ 24 * 2 ^ 8).
  rewrite Z.mul_mod_distr_r by lia.
  rewrite <- Z.shiftl_mul_pow2 by lia.
  assert (Hland : Z.land (Z.shiftl (v mod 2 ^ 24) 8) b = 0);
    [|rewrite <- Z.lxor_lor, <- Z.add_nocarry_lxor by exact Hland;
      rewrite Z.shiftl_mul_pow2 by lia; reflexivity].
  - apply Z.bits_inj'. intros k Hk. rewrite Z.land_spec, Z.bits_0.
    destruct (Z.ltb_spec k 8).
    + rewrite Z.shiftl_spec_low by lia. reflexivity.
    + rewrite (Z.bits_above_log2 b k); [apply andb_false_r|lia|].
      destruct (Z.eq_dec b 0) as [->|Hnz]; [simpl; lia|].
      assert (Z.log2 b < 8); [|lia].
      apply Z.log2_lt_pow2; lia.
Qed.

Lemma segmentValueOfBytes_bigEndian :
  forall bs, segmentValueOfBytes bs = bigEndian bs mod 2 ^ 32.
Proof.
  intros bs. unfold segmentValueOfBytes, bigEndian.
  assert (H : forall v w, v = w mod 2 ^ 32 ->
            fold_left (fun v b => shiftInByte v (byteVal b)) bs v
            = fold_left (fun v b => v * 256 + byteVal b) bs w mod 2 ^ 32).
  { induction bs as [|b bs IH]; intros v w Hvw; [assumption|].
    cbn [fold_left]. pose proof (byteVal_range b) as Hb.
    apply IH. rewrite shiftInByte_arith by assumption. subst v.
    pose proof (Z.mod_pos_bound w (2 ^ 32) ltac:(lia)) as Hw.
    pose proof (Z.mod_pos_bound (w mod 2 ^ 32) (2 ^ 24) ltac:(lia)) as Hw24.
    assert (Hlow : (w mod 2 ^ 32) mod 2 ^ 24 = w mod 2 ^ 24).
    { apply Z.mod_mod_divide. exists (2 ^ 8). reflexivity. }
    rewrite Hlow in *.
    assert (Hsplit : (w * 256 + byteVal b) mod 2 ^ 32
                     = (w mod 2 ^ 24) * 256 + byteVal b).
    { rewrite <- Z.add_mod_idemp_l by lia.
      change (2 ^ 32) with (2 ^ 24 * 2 ^ 8) at 1. change 256 with (2 ^ 8) at 1.
      rewrite Z.mul_mod_distr_r by lia.
      change (2 ^ 24 * 2 ^ 8) with (2 ^ 32).
      apply Z.mod_small. change (2 ^ 8) with 256.
      change (2 ^ 32) with 4294967296. change (2 ^ 24) with 16777216 in *.
      lia. }
    symmetry. exact Hsplit. }
  apply H. reflexivity.
Qed.

(** On an array of exactly the expected length [toSegments] returns
    the segments of the successive byte runs. *)
Lemma toSegments_of_expected_length :
  forall (creator : AddressSegmentCreator) (bytes : list byte)
         (segmentCount bytesPerSegment : Z) (bitsPerSegment : BitCount)
         (prefixLen : PrefixLen),
    0 <= segmentCount -> 0 < bytesPerSegment ->
    Z.of_nat (length bytes) = segmentCount * bytesPerSegment ->
    toSegments bytes segmentCount bytesPerSegment bitsPerSegment
      (segmentCount * bytesPerSegment) prefixLen
    = Ok (map Some (segmentsOfBytes bytes segmentCount bytesPerSegment
                      bitsPerSegment prefixLen)).
Proof.
  intros creator bytes segmentCount bps bits pref Hcount Hbps Hlen.
  unfold toSegments. rewrite Hlen, Z.sub_diag. cbn [Z.ltb Z.compare bind].
  unfold createSegmentArray.
  replace (segmentCount <? 0) with false by (symmetry; apply Z.ltb_ge; lia).
  cbn [bind].
  pose proof (toSegments_loop_values creator bps bits pref Hbps bytes segmentCount
                (Z.to_nat segmentCount) (Z.to_nat (segmentCount * bps)) []
                (repeat None (Z.to_nat segmentCount)) Hlen
                (repeat_length _ _)) as Hloop.
  cbn [length Z.of_nat app] in Hloop. rewrite Z.mul_0_l in Hloop.
  rewrite Hloop by (try lia; nia).
  unfold segmentsOfBytes. rewrite map_map. reflexivity.
Qed.

(** X5: a byte array of exactly the expected length is cut into runs of
    [bytesPerSegment] bytes; segment [i] is the single value read from
    run [i], and that value is the big-endian number of the run,
    truncated to 32 bits. *)
Theorem toSegments_exact_length :
  forall (creator : AddressSegmentCreator) (bytes : list byte)
         (segmentCount bytesPerSegment : Z) (bitsPerSegment : BitCount)
         (prefixLen : PrefixLen),
    0 <= segmentCount -> 0 < bytesPerSegment ->
    Z.of_nat (length bytes) = segmentCount * bytesPerSegment ->
    toSegments bytes segmentCount bytesPerSegment bitsPerSegment
      (segmentCount * bytesPerSegment) prefixLen
    = Ok (map Some (segmentsOfBytes bytes segmentCount bytesPerSegment
                      bitsPerSegment prefixLen)) /\
    forall i,
      segmentValueOfBytes (segmentBytes bytes bytesPerSegment i)
      = bigEndian (segmentBytes bytes bytesPerSegment i) mod 2 ^ 32.
Proof.
  intros creator bytes segmentCount bps bits pref Hcount Hbps Hlen.
  split; [|intros i; apply segmentValueOfBytes_bigEndian].
  apply toSegments_of_expected_length; assumption.
Qed.

(** X6: an empty byte array panics when bytes are expected: the loop
    reads [bytes[0]] to find the sign. *)
Theorem toSegments_empty_panics :
  forall (creator : AddressSegmentCreator)
         (segmentCount bytesPerSegment : Z) (bitsPerSegment : BitCount)
         (expectedByteCount : Z) (prefixLen : PrefixLen),
    0 < expectedByteCount ->
    toSegments [] segmentCount bytesPerSegment bitsPerSegment
      expectedByteCount prefixLen = Panic.
Proof.
  intros creator segmentCount bps bits expected pref Hexp.
  unfold toSegments. cbn [length Z.of_nat]. rewrite Z.sub_0_r.
  replace (expected <? 0) with false by (symmetry; apply Z.ltb_ge; lia).
  cbn [bind]. unfold createSegmentArray.
  destruct (segmentCount <? 0); [reflexivity|]. cbn [bind].
  destruct (Z.to_nat expected) as [|fuel] eqn:Hfuel; [lia|].
  cbn [toSegments_loop].
  replace (0 <? expected) with true by (symmetry; apply Z.ltb_lt; lia).
  reflexivity.
Qed.

Lemma forUpTo_app :
  forall (T : Type) (f : Z -> T -> outcome T) (a b : nat) (j : Z) (s : T),
    forUpTo (a + b) j f s
    = (s' <- forUpTo a j f s ;; forUpTo b (j + Z.of_nat a) f s').
Proof.
  intros T f a. induction a as [|a IH]; intros b j s.
  - cbn [forUpTo Nat.add bind Z.of_nat]. rewrite Z.add_0_r. reflexivity.
  - cbn [forUpTo Nat.add]. destruct (f j s) as [s1| | |]; cbn [bind]; try reflexivity.
    rewrite IH. replace (j + 1 + Z.of_nat a) with (j + Z.of_nat (S a)) by lia.
    reflexivity.
Qed.

Lemma indexAt_extension_low :
  forall (pad : byte) (m : nat) (bytes : list byte) (j : Z),
    0 <= j < Z.of_nat m -> indexAt (repeat pad m ++ bytes) j = Ok pad.
Proof.
  intros pad m bytes j Hj. unfold indexAt.
  replace (j <? 0) with false by (symmetry; apply Z.ltb_ge; lia).
  rewrite nth_error_app1 by (rewrite repeat_length; lia).
  rewrite nth_error_repeat by lia. reflexivity.
Qed.

Lemma indexAt_extension_high :
  forall (pad : byte) (m : nat) (bytes : list byte) (j : Z),
    Z.of_nat m <= j ->
    indexAt (repeat pad m ++ bytes) j = indexAt bytes (j - Z.of_nat m).
Proof.
  intros pad m bytes j Hj. unfold indexAt.
  replace (j <? 0) with false by (symmetry; apply Z.ltb_ge; lia).
  replace (j - Z.of_nat m <? 0) with false by (symmetry; apply Z.ltb_ge; lia).
  rewrite nth_error_app2 by (rewrite repeat_length; lia).
  rewrite repeat_length.
  replace (Z.to_nat (j - Z.of_nat m)) with (Z.to_nat j - m)%nat by lia.
  reflexivity.
Qed.

(** Reading extension bytes shifts the extension byte in. *)
Lemma readExtension :
  forall (pad : byte) (m : nat) (bytes : list byte) (n : nat) (j : Z) (v : SegInt),
    0 <= j -> j + Z.of_nat n <= Z.of_nat m ->
    forUpTo n j
      (fun j v => byteValue <- indexAt (repeat pad m ++ bytes) (0 + j - 0) ;;
                  Ok (shiftInByte v (byteVal byteValue))) v
    = forUpTo n j (fun _ v => Ok (shiftInByte v (byteVal pad))) v.
Proof.
  intros pad m bytes n. induction n as [|n IH]; intros j v Hj Hn.
  - reflexivity.
  - cbn [forUpTo]. rewrite indexAt_extension_low by lia. cbn [bind].
    apply IH; lia.
Qed.

(** Shifting zero bytes into zero leaves zero. *)
Lemma shiftZeros :
  forall (n : nat) (j : Z),
    forUpTo n j (fun _ v => Ok (shiftInByte v (byteVal x00))) 0 = Ok 0.
Proof.
  induction n as [|n IH]; intros j; [reflexivity|].
  cbn [forUpTo bind]. change (shiftInByte 0 (byteVal x00)) with 0. apply IH.
Qed.

Section ToSegmentsExtension.

Context (creator : AddressSegmentCreator).
Variable bytesPerSegment : Z.
Variable bitsPerSegment : BitCount.
Variable prefixLen : PrefixLen.
Hypothesis bytesPerSegment_pos : 0 < bytesPerSegment.

Variable b0 : byte.
Variable tl : list byte.
Variable m : nat.

Let bytes := b0 :: tl.
Let extended := repeat (signExtensionByte bytes) m ++ bytes.

(** The value the loop reads for the segment that starts at byte [i] of
    a short array is the value it reads from the extended array. *)
Lemma readShort_readExtended :
  forall (i : Z),
    0 <= i ->
    let k := bytesPerSegment + i in
    (jv <- (if i <? Z.of_nat m then
              fb <- indexAt bytes 0 ;;
              let mostSignificantBit := Z.shiftr (byteVal fb) 7 in
              if mostSignificantBit =? 0 then Ok (Z.of_nat m, 0)
              else
                let upper := if Z.of_nat m <? k then Z.of_nat m else k in
                v <- forRange i upper (fun _ v => Ok (shiftInByte v 255)) 0 ;;
                Ok (Z.max i upper, v)
            else Ok (i, 0)) ;;
     let '(j, v0) := jv in
     forRange j k
       (fun j v =>
          byteValue <- indexAt bytes (0 + j - Z.of_nat m) ;;
          Ok (shiftInByte v (byteVal byteValue)))
       v0)
    = forRange i k
        (fun j v =>
           byteValue <- indexAt extended (0 + j - 0) ;;
           Ok (shiftInByte v (byteVal byteValue)))
        0.
Proof.
  intros i Hi k.
  assert (Hhigh : forall n j v, Z.of_nat m <= j ->
            forUpTo n j
              (fun j v => byteValue <- indexAt bytes (0 + j - Z.of_nat m) ;;
                          Ok (shiftInByte v (byteVal byteValue))) v
            = forUpTo n j
                (fun j v => byteValue <- indexAt extended (0 + j - 0) ;;
                            Ok (shiftInByte v (byteVal byteValue))) v).
  { intros n j v Hj. apply forUpTo_ext. intros j' s' Hj'.
    unfold extended. rewrite indexAt_extension_high by lia.
    replace (0 + j' - 0 - Z.of_nat m) with (0 + j' - Z.of_nat m) by lia.
    reflexivity. }
  destruct (Z.ltb_spec i (Z.of_nat m)) as [Hlow|Hge].
  - change (indexAt bytes 0) with (Ok (A := byte) b0). cbn [bind].
    rewrite msb_testbit.
    assert (Hpad : signExtensionByte bytes
                   = if Z.testbit (byteVal b0) 7 then xff else x00) by reflexivity.
    unfold forRange.
    destruct (Z.testbit (byteVal b0) 7) eqn:Hmsb; cbn [negb bind].
    + (* the extension is 0xff *)
      set (upper := if Z.of_nat m <? k then Z.of_nat m else k).
      assert (Hupper : i < upper /\ upper <= k /\ upper <= Z.of_nat m).
      { subst upper k. destruct (Z.ltb_spec (Z.of_nat m) (bytesPerSegment + i)); lia. }
      replace (Z.to_nat (k - i))
        with (Z.to_nat (upper - i) + Z.to_nat (k - upper))%nat by lia.
      rewrite forUpTo_app.
      unfold extended at 1. rewrite readExtension by lia.
      rewrite Hpad. change (byteVal xff) with 255.
      destruct (forUpTo (Z.to_nat (upper - i)) i
                  (fun _ v => Ok (shiftInByte v 255)) 0) as [v1| | |];
        cbn [bind]; try reflexivity.
      replace (Z.max i upper) with upper by lia.
      replace (i + Z.of_nat (Z.to_nat (upper - i))) with upper by lia.
      destruct (Z.eq_dec upper k) as [Heq|Hne].
      * rewrite Heq, Z.sub_diag. reflexivity.
      * assert (upper = Z.of_nat m).
        { subst upper. destruct (Z.ltb_spec (Z.of_nat m) k); [reflexivity|congruence]. }
        apply Hhigh. lia.
    + (* the extension is 0x00 *)
      destruct (Z.le_gt_cases k (Z.of_nat m)) as [Hk|Hk].
      * replace (Z.to_nat (k - Z.of_nat m)) with 0%nat by lia. cbn [forUpTo].
        unfold extended. rewrite readExtension by lia.
        rewrite Hpad. symmetry. apply shiftZeros.
      * replace (Z.to_nat (k - i))
          with (Z.to_nat (Z.of_nat m - i) + Z.to_nat (k - Z.of_nat m))%nat by lia.
        rewrite forUpTo_app.
        unfold extended at 1. rewrite readExtension by lia.
        rewrite Hpad, shiftZeros. cbn [bind].
        replace (i + Z.of_nat (Z.to_nat (Z.of_nat m - i))) with (Z.of_nat m) by lia.
        apply Hhigh. lia.
  - cbn [bind]. unfold forRange. apply Hhigh. lia.
Qed.

(** The loop over a short array and the loop over the extended array
    run in step. *)
Lemma toSegments_loop_extension :
  forall (expectedByteCount : Z) (fuel : nat) (i segmentIndex : Z)
         (segments : list (option AddressDivision)),
    0 <= i ->
    toSegments_loop bytes bytesPerSegment bitsPerSegment expectedByteCount
      prefixLen 0 (Z.of_nat m) fuel i segmentIndex segments
    = toSegments_loop extended bytesPerSegment bitsPerSegment expectedByteCount
        prefixLen 0 0 fuel i segmentIndex segments.
Proof.
  intros expectedByteCount fuel.
  induction fuel as [|fuel IH]; intros i segmentIndex segments Hi.
  - reflexivity.
  - cbn [toSegments_loop].
    destruct (i <? expectedByteCount); [|reflexivity].
    replace (i <? 0) with false by (symmetry; apply Z.ltb_ge; lia).
    pose proof (readShort_readExtended i Hi) as Hread. cbv zeta in Hread.
    cbn [bind] in Hread |- *.
    match type of Hread with
    | ?lhs = ?rhs =>
      match goal with
      | |- bind ?a ?f = bind ?b ?g =>
        transitivity (bind lhs (fun v =>
          let seg := createSegment v v
                       (getSegmentPrefixLength bitsPerSegment prefixLen segmentIndex) in
          segments' <- assign segments segmentIndex (Some seg) ;;
          toSegments_loop bytes bytesPerSegment bitsPerSegment expectedByteCount
            prefixLen 0 (Z.of_nat m) fuel (bytesPerSegment + i)
            (segmentIndex + 1) segments'))
      end
    end.
    + destruct (i <? Z.of_nat m); cbn [bind]; [|reflexivity].
      destruct (indexAt bytes 0) as [fb| | |]; cbn [bind]; try reflexivity.
      destruct (Z.shiftr (byteVal fb) 7 =? 0); cbn [bind]; [reflexivity|].
      match goal with
      | |- context [forRange i ?u ?f 0] => destruct (forRange i u f 0)
      end; reflexivity.
    + rewrite Hread.
      match goal with
      | |- context [forRange i ?u ?f 0] => destruct (forRange i u f 0)
      end; cbn [bind]; try reflexivity.
      match goal with
      | |- context [assign segments segmentIndex ?x] =>
        destruct (assign segments segmentIndex x)
      end; cbn [bind]; try reflexivity.
      apply IH. lia.
Qed.

End ToSegmentsExtension.

Lemma signExtended_length :
  forall (bytes : list byte) (expectedByteCount : Z),
    Z.of_nat (length bytes) <= expectedByteCount ->
    Z.of_nat (length (signExtended bytes expectedByteCount)) = expectedByteCount.
Proof.
  intros bytes expected Hlen. unfold signExtended.
  rewrite length_app, repeat_length. lia.
Qed.

(** X7: a non-empty byte array shorter than expected is read as if it
    were sign-extended on the left, with 0xff bytes when the top bit of
    its first byte is set and with 0x00 bytes otherwise; for the
    expected byte count of [segmentCount] segments the result is the
    segments of the extended array. *)
Theorem toSegments_short_sign_extends :
  forall (creator : AddressSegmentCreator) (bytes : list byte)
         (segmentCount bytesPerSegment : Z) (bitsPerSegment : BitCount)
         (expectedByteCount : Z) (prefixLen : PrefixLen),
    0 < bytesPerSegment -> bytes <> [] ->
    Z.of_nat (length bytes) <= expectedByteCount ->
    toSegments bytes segmentCount bytesPerSegment bitsPerSegment
      expectedByteCount prefixLen
    = toSegments (signExtended bytes expectedByteCount) segmentCount
        bytesPerSegment bitsPerSegment expectedByteCount prefixLen /\
    (0 <= segmentCount ->
     expectedByteCount = segmentCount * bytesPerSegment ->
     toSegments bytes segmentCount bytesPerSegment bitsPerSegment
       expectedByteCount prefixLen
     = Ok (map Some
             (segmentsOfBytes (signExtended bytes expectedByteCount)
                segmentCount bytesPerSegment bitsPerSegment prefixLen))).
Proof.
  intros creator bytes segmentCount bps bits expected pref Hbps Hne Hlen.
  assert (Hext :
            toSegments bytes segmentCount bps bits expected pref
            = toSegments (signExtended bytes expected) segmentCount bps bits
                expected pref).
  { unfold toSegments.
    rewrite (signExtended_length bytes expected Hlen), Z.sub_diag.
    replace (expected - Z.of_nat (length bytes) <? 0) with false
      by (symmetry; apply Z.ltb_ge; lia).
    cbn [Z.ltb Z.compare bind].
    destruct (createSegmentArray segmentCount) as [segments| | |];
      cbn [bind]; try reflexivity.
    destruct bytes as [|b0 tl]; [congruence|].
    unfold signExtended.
    rewrite <- (toSegments_loop_extension creator bps bits pref Hbps b0 tl
                  (Z.to_nat (expected - Z.of_nat (length (b0 :: tl)))))
      by lia.
    rewrite Z2Nat.id by lia. reflexivity. }
  split; [exact Hext|].
  intros Hcount Hexp. rewrite Hext. subst expected.
  apply toSegments_of_expected_length; auto.
  apply signExtended_length. exact Hlen.
Qed.

(** ** Instances for arrays of bytes *)

(** The four bytes 12 34 ab cd are the two IPv6 segments 0x1234 and
    0xabcd. *)
Lemma toSegments_exact_length_witness :
  toSegments (creator := ipv6Creator) [x12; x34; xab; xcd] 2 2 16 (2 * 2) None
  = Ok [Some (mkDivision ipv6Seg 4660 4660 None);
        Some (mkDivision ipv6Seg 43981 43981 None)].
Proof.
  exact (proj1 (toSegments_exact_length ipv6Creator [x12; x34; xab; xcd] 2 2 16
                  None ltac:(lia) ltac:(lia) eq_refl)).
Defined.

(** No bytes where the four bytes of an IPv4 address are expected. *)
Lemma toSegments_empty_panics_witness :
  toSegments (creator := ipv4Creator) [] 4 1 8 4 None = Panic.
Proof.
  apply (toSegments_empty_panics ipv4Creator 4 1 8 4 None). lia.
Defined.

(** The single byte fe is read as 255.255.255.254, the single byte 7f as
    0.0.0.127. *)
Lemma toSegments_short_sign_extends_witness :
  toSegments (creator := ipv4Creator) [xfe] 4 1 8 4 None
  = Ok [Some (mkDivision ipv4Seg 255 255 None);
        Some (mkDivision ipv4Seg 255 255 None);
        Some (mkDivision ipv4Seg 255 255 None);
        Some (mkDivision ipv4Seg 254 254 None)] /\
  toSegments (creator := ipv4Creator) [x7f] 4 1 8 4 None
  = Ok [Some (mkDivision ipv4Seg 0 0 None);
        Some (mkDivision ipv4Seg 0 0 None);
        Some (mkDivision ipv4Seg 0 0 None);
        Some (mkDivision ipv4Seg 127 127 None)].
Proof.
  split.
  - exact (proj2 (toSegments_short_sign_extends ipv4Creator [xfe] 4 1 8 4 None
                    ltac:(lia) ltac:(discriminate) ltac:(simpl; lia))
             ltac:(lia) eq_refl).
  - exact (proj2 (toSegments_short_sign_extends ipv4Creator [x7f] 4 1 8 4 None
                    ltac:(lia) ltac:(discriminate) ltac:(simpl; lia))
             ltac:(lia) eq_refl).
Defined.

(** ** Sections from value providers: one provider or none *)

(** X8: with a single value provider, given as the lower or as the
    upper one, [createSegments] builds the same single-valued segments:
    segment [i] is created from the provider's value at [i] for both
    bounds, and the section is not multiple. *)
Theorem createSegments_single_provider :
  forall (creator : AddressSegmentCreator) (vals : Z -> SegInt)
         (segmentCount : Z) (bitsPerSegment : BitCount) (prefixLen : PrefixLen),
    0 <= segmentCount ->
    createSegments None (Some vals) segmentCount bitsPerSegment prefixLen
    = createSegments (Some vals) None segmentCount bitsPerSegment prefixLen /\
    createSegments (Some vals) None segmentCount bitsPerSegment prefixLen
    = Ok (map (fun i =>
                 Some (createSegment (vals i) (vals i)
                         (getSegmentPrefixLength bitsPerSegment prefixLen i)))
            (zrange 0 (Z.to_nat segmentCount)), false).
Proof.
  intros creator vals segmentCount bits pref Hcount.
  assert (Hnone : forall l, existsb (fun k => negb (vals k =? vals k)) l = false).
  { induction l as [|k l IH]; [reflexivity|]. simpl.
    rewrite Z.eqb_refl, IH. reflexivity. }
  unfold createSegments, createSegmentArray.
  replace (segmentCount <? 0) with false by (symmetry; apply Z.ltb_ge; lia).
  cbn [bind].
  assert (Hu : @None (Z -> SegInt) <> None \/ Some vals <> None)
    by (right; discriminate).
  assert (Hl : Some vals <> None \/ @None (Z -> SegInt) <> None)
    by (left; discriminate).
  pose proof (createSegments_loop_spec creator None (Some vals) bits pref Hu
                (Z.to_nat segmentCount) [] (repeat None (Z.to_nat segmentCount))
                false (repeat_length _ _)) as Hupper.
  pose proof (createSegments_loop_spec creator (Some vals) None bits pref Hl
                (Z.to_nat segmentCount) [] (repeat None (Z.to_nat segmentCount))
                false (repeat_length _ _)) as Hlower.
  cbn [length Z.of_nat app orb lowerValueAt upperValueAt] in Hupper, Hlower.
  rewrite Hnone in Hupper, Hlower.
  rewrite Hupper, Hlower. split; reflexivity.
Qed.

(** X9: without any value provider [createSegments] returns the empty
    slice for a segment count of zero and panics for any other count:
    on the nil provider it calls, or on the negative length of the
    slice. *)
Theorem createSegments_without_providers :
  forall (creator : AddressSegmentCreator) (segmentCount : Z)
         (bitsPerSegment : BitCount) (prefixLen : PrefixLen),
    createSegments None None segmentCount bitsPerSegment prefixLen
    = if segmentCount =? 0 then Ok ([], false) else Panic.
Proof.
  intros creator segmentCount bits pref.
  unfold createSegments, createSegmentArray.
  destruct (Z.ltb_spec segmentCount 0) as [Hneg|Hnn].
  - replace (segmentCount =? 0) with false by (symmetry; apply Z.eqb_neq; lia).
    reflexivity.
  - cbn [bind]. destruct (Z.eqb_spec segmentCount 0) as [->|Hnz].
    + reflexivity.
    + destruct (Z.to_nat segmentCount) as [|n] eqn:Hn; [lia|].
      reflexivity.
Qed.

(** One value provider for 1.2.3.4. *)
Lemma createSegments_single_provider_witness :
  createSegments (creator := ipv4Creator) None (Some vals1234) 4 8 None
  = createSegments (creator := ipv4Creator) (Some vals1234) None 4 8 None /\
  createSegments (creator := ipv4Creator) (Some vals1234) None 4 8 None
  = Ok ([Some (mkDivision ipv4Seg 1 1 None); Some (mkDivision ipv4Seg 2 2 None);
         Some (mkDivision ipv4Seg 3 3 None); Some (mkDivision ipv4Seg 4 4 None)],
        false).
Proof.
  exact (createSegments_single_provider ipv4Creator vals1234 4 8 None
           ltac:(lia)).
Defined.

(** ** The interned MAC segment values *)

Lemma holdsValues_eq :
  forall seg k lower upper p,
    holdsValues seg k lower upper p = true ->
    seg = mkDivision k lower upper p.
Proof.
  intros [k' v u q] k lower upper p H. unfold holdsValues in H. cbn in H.
  apply andb_prop in H. destruct H as [H Hp].
  apply andb_prop in H. destruct H as [H Hu].
  apply andb_prop in H. destruct H as [Hk Hv].
  apply Z.eqb_eq in Hv, Hu. subst.
  assert (q = p).
  { destruct q, p; cbn in Hp; try discriminate; [|reflexivity].
    apply Z.eqb_eq in Hp. subst. reflexivity. }
  subst. destruct k', k; try discriminate; reflexivity.
Qed.

(** X10: the table of interned MAC values holds at every index the
    single value of that index, so the consistency check of
    [newMACSegmentVal] never panics: for all bounds of a [MACSegInt],
    [newMACSegmentValues] returns the segment values holding exactly
    these bounds, and no prefix length. *)
Theorem newMACSegmentValues_interned :
  forall value upperValue : Z,
    0 <= value <= 255 -> 0 <= upperValue <= 255 ->
    MACSegmentCache.newMACSegmentValues value upperValue
    = Ok (mkDivision macSeg value upperValue None).
Proof.
  intros v u Hv Hu.
  assert (Hall :
    forallb
      (fun x => match MACSegmentCache.newMACSegmentVal x with
                | Ok r => holdsValues r macSeg x x None
                | _ => false
                end)
      (zrange 0 256) = true) by (vm_compute; reflexivity).
  rewrite forallb_forall in Hall.
  unfold MACSegmentCache.newMACSegmentValues.
  destruct (Z.eqb_spec v u) as [->|Hne].
  - specialize (Hall u). 
    destruct (MACSegmentCache.newMACSegmentVal u) as [r| | |];
      try (exfalso; assert (false = true); [apply Hall; apply zrange_In; lia|discriminate]).
    f_equal. apply holdsValues_eq. apply Hall. apply zrange_In. lia.
  - destruct (MACSegmentCache.useMACSegmentCache && (v =? 0) &&
              (u =? MACSegmentCache.MACMaxValuePerSegment)) eqn:E; [|reflexivity].
    apply andb_prop in E. destruct E as [E Eu].
    apply andb_prop in E. destruct E as [_ Ev].
    apply Z.eqb_eq in Ev, Eu. subst. reflexivity.
Qed.

Lemma newMACSegmentValues_interned_witness :
  MACSegmentCache.newMACSegmentValues 171 171
  = Ok (mkDivision macSeg 171 171 None) /\
  MACSegmentCache.newMACSegmentValues 0 255
  = Ok (mkDivision macSeg 0 255 None).
Proof.
  split.
  - apply (newMACSegmentValues_interned 171 171); lia.
  - apply (newMACSegmentValues_interned 0 255); lia.
Defined.

(** ** Segments from two 64-bit integers *)

Lemma zrange_snoc :
  forall n i, zrange i (S n) = zrange i n ++ [i + Z.of_nat n].
Proof.
  intros n i. unfold zrange. rewrite seq_S, map_app. reflexivity.
Qed.

Section CreateSegmentsUint64Properties.

Context (creator : AddressSegmentCreator).
Variable getHostSegmentIndex : BitCount -> Z -> BitCount -> Z.
Variable segmentMask : SegInt.
Variable bitsPerSegment : BitCount.
Variable prefixLength : PrefixLen.
Hypothesis bits_nonneg : 0 <= bitsPerSegment.

Let segmentOf (j : Z) (bytes : Z) : option AddressDivision :=
  let value := Z.land segmentMask (toSegInt bytes) in
  Some (createSegment value value
          (getSegmentPrefixLength bitsPerSegment prefixLength j)).

(** The inner loop fills the entries from [lowIndex + k] down to
    [lowIndex] with the successive digits of [bytes]. *)
Lemma uint64SegmentsInner_spec :
  forall (lowIndex : Z) (k fuel : nat)
         (pre todo : list (option AddressDivision)) (x : option AddressDivision)
         (done : list (option AddressDivision)) (bytes : Z),
    Z.of_nat (length pre) = lowIndex -> length todo = k -> (k < fuel)%nat ->
    uint64SegmentsInner segmentMask bitsPerSegment prefixLength fuel lowIndex
      (lowIndex + Z.of_nat k) bytes (pre ++ todo ++ x :: done)
    = Ok (lowIndex - 1,
          pre ++ map (fun j =>
                        segmentOf j
                          (Z.shiftr bytes
                             (bitsPerSegment * (lowIndex + Z.of_nat k - j))))
                   (zrange lowIndex (S k)) ++ done).
Proof.
  intros lowIndex k. induction k as [|k IH];
    intros fuel pre todo x done bytes Hpre Htodo Hfuel.
  - destruct todo; [|discriminate]. destruct fuel as [|fuel]; [lia|].
    cbn [uint64SegmentsInner app]. rewrite Z.add_0_r, <- Hpre.
    rewrite assign_app. cbn [bind].
    replace (Z.of_nat (length pre) - 1 <? Z.of_nat (length pre)) with true
      by (symmetry; apply Z.ltb_lt; lia).
    unfold zrange. cbn [seq map app]. rewrite Z.add_0_r, Z.sub_diag, Z.mul_0_r.
    rewrite Z.shiftr_0_r. reflexivity.
  - destruct fuel as [|fuel]; [lia|].
    destruct (exists_last (l := todo)) as [todo' [y Hy]];
      [intros ->; discriminate|].
    subst todo. rewrite length_app in Htodo. simpl in Htodo.
    assert (Htodo' : length todo' = k) by lia.
    cbn [uint64SegmentsInner].
    assert (Hassign : forall v,
              assign (pre ++ (todo' ++ [y]) ++ x :: done)
                (lowIndex + Z.of_nat (S k)) v
              = Ok (pre ++ todo' ++ y :: v :: done)).
    { intros v.
      replace (pre ++ (todo' ++ [y]) ++ x :: done)
        with ((pre ++ todo' ++ [y]) ++ x :: done)
        by (rewrite <- !app_assoc; reflexivity).
      replace (lowIndex + Z.of_nat (S k))
        with (Z.of_nat (length (pre ++ todo' ++ [y])))
        by (rewrite !length_app; simpl length; lia).
      rewrite assign_app, <- !app_assoc. reflexivity. }
    rewrite Hassign. cbn [bind].
    replace (lowIndex + Z.of_nat (S k) - 1 <? lowIndex) with false
      by (symmetry; apply Z.ltb_ge; lia).
    replace (lowIndex + Z.of_nat (S k) - 1) with (lowIndex + Z.of_nat k) by lia.
    rewrite (IH fuel pre todo' y _ _ Hpre Htodo') by lia.
    f_equal. f_equal. f_equal.
    rewrite (zrange_snoc (S k)), map_app, <- app_assoc. cbn [map app].
    f_equal.
    + apply map_ext_in. intros j Hj. apply zrange_In in Hj.
      unfold segmentOf. rewrite Z.shiftr_shiftr by nia.
      replace (bitsPerSegment + bitsPerSegment * (lowIndex + Z.of_nat k - j))
        with (bitsPerSegment * (lowIndex + Z.of_nat (S k) - j)) by lia.
      reflexivity.
    + unfold segmentOf. rewrite Z.sub_diag, Z.mul_0_r, Z.shiftr_0_r. reflexivity.
Qed.

End CreateSegmentsUint64Properties.

(** X11: [createSegmentsUint64] panics on a slice without entries: its
    first write goes to index -1. *)
Theorem createSegmentsUint64_empty_panics :
  forall (creator : AddressSegmentCreator)
         (getHostSegmentIndex : BitCount -> Z -> BitCount -> Z)
         (highBytes lowBytes bytesPerSegment : Z) (bitsPerSegment : BitCount)
         (prefixLength : PrefixLen),
    createSegmentsUint64 getHostSegmentIndex [] highBytes lowBytes
      bytesPerSegment bitsPerSegment prefixLength = Panic.
Proof.
  intros creator ghsi high low bps bits pl. unfold createSegmentsUint64.
  destruct (bits <? 0); [reflexivity|].
  cbn [length Z.of_nat Z.sub Z.opp Z.add].
  cbn [uint64SegmentsOuter uint64SegmentsInner length].
  reflexivity.
Qed.

Lemma segmentMask_ones :
  forall bits, 0 <= bits <= 32 ->
    Z.lxor (toSegInt (Z.shiftl (2 ^ 32 - 1) bits)) (2 ^ 32 - 1) = Z.ones bits.
Proof.
  intros bits Hbits.
  assert (Hall :
    forallb (fun b => Z.lxor (toSegInt (Z.shiftl (2 ^ 32 - 1) b)) (2 ^ 32 - 1)
                      =? Z.ones b)
      (zrange 0 33) = true) by (vm_compute; reflexivity).
  rewrite forallb_forall in Hall. apply Z.eqb_eq, Hall, zrange_In. lia.
Qed.

(** The low bits of a shifted 64-bit word, cut by the segment mask. *)
Lemma maskedDigit :
  forall bits bytes off,
    0 <= bits <= 32 -> 0 <= off ->
    Z.land (Z.ones bits) (toSegInt (Z.shiftr bytes off))
    = (bytes / 2 ^ off) mod 2 ^ bits.
Proof.
  intros bits bytes off Hbits Hoff.
  rewrite Z.land_comm, Z.land_ones by lia. unfold toSegInt.
  rewrite Z.shiftr_div_pow2 by lia.
  apply Z.mod_mod_divide. exists (2 ^ (32 - bits)).
  rewrite <- Z.pow_add_r by lia. f_equal. lia.
Qed.

Lemma digit_of_low :
  forall high low bits off,
    0 <= off -> 0 < bits -> off + bits <= 64 ->
    ((high * 2 ^ 64 + low) / 2 ^ off) mod 2 ^ bits
    = (low / 2 ^ off) mod 2 ^ bits.
Proof.
  intros high low bits off Hoff Hbits Hsum.
  replace (high * 2 ^ 64 + low)
    with (low + (high * 2 ^ (64 - off - bits) * 2 ^ bits) * 2 ^ off).
  - rewrite Z.div_add by (apply Z.pow_nonzero; lia).
    rewrite Z.mod_add by (apply Z.pow_nonzero; lia). reflexivity.
  - rewrite <- !Z.mul_assoc, <- !Z.pow_add_r by lia.
    replace (64 - off - bits + (bits + off)) with 64 by lia. lia.
Qed.

Lemma digit_of_high :
  forall high low o,
    0 <= o -> 0 <= low < 2 ^ 64 ->
    (high * 2 ^ 64 + low) / 2 ^ (64 + o) = high / 2 ^ o.
Proof.
  intros high low o Ho Hlow.
  rewrite Z.pow_add_r by lia.
  rewrite <- Z.div_div by (try apply Z.pow_pos_nonneg; lia).
  rewrite Z.div_add_l by lia.
  rewrite (Z.div_small low) by lia. rewrite Z.add_0_r. reflexivity.
Qed.

Lemma zrange_app :
  forall a b i, zrange i (a + b) = zrange i a ++ zrange (i + Z.of_nat a) b.
Proof.
  induction a as [|a IH]; intros b i.
  - cbn [Nat.add Z.of_nat]. rewrite Z.add_0_r. reflexivity.
  - cbn [Nat.add]. rewrite !zrange_S, IH. cbn [app].
    replace (i + 1 + Z.of_nat a) with (i + Z.of_nat (S a)) by lia.
    reflexivity.
Qed.

(** X12: for segments of [bitsPerSegment] bits, 64 bits being
    [lowSegCount] segments, [createSegmentsUint64] fills a slice of at
    most twice that many entries with the digits of the 128-bit number
    [highBytes * 2^64 + lowBytes]: entry [i] is the single value of
    digit [i], counted from the most significant digit of the slice,
    with the segment prefix length of index [i]. *)
Theorem createSegmentsUint64_digits :
  forall (creator : AddressSegmentCreator)
         (getHostSegmentIndex : BitCount -> Z -> BitCount -> Z)
         (segments : list (option AddressDivision))
         (highBytes lowBytes bytesPerSegment : Z) (bitsPerSegment : BitCount)
         (prefixLength : PrefixLen),
    let segLen := Z.of_nat (length segments) in
    let lowSegCount := getHostSegmentIndex 64 bytesPerSegment bitsPerSegment in
    0 < bitsPerSegment <= 32 ->
    lowSegCount * bitsPerSegment = 64 ->
    0 < segLen <= 2 * lowSegCount ->
    0 <= highBytes < 2 ^ 64 -> 0 <= lowBytes < 2 ^ 64 ->
    createSegmentsUint64 getHostSegmentIndex segments highBytes lowBytes
      bytesPerSegment bitsPerSegment prefixLength
    = Ok (map (fun i =>
                 let value :=
                   segmentDigit (highBytes * 2 ^ 64 + lowBytes) bitsPerSegment
                     segLen i in
                 Some (createSegment value value
                         (getSegmentPrefixLength bitsPerSegment prefixLength i)))
            (zrange 0 (length segments))).
Proof.
  intros creator ghsi segments high low bps bits pl segLen c
         Hbits Hc Hlen Hhigh Hlow.
  unfold createSegmentsUint64.
  replace (bits <? 0) with false by (symmetry; apply Z.ltb_ge; lia).
  cbv zeta. rewrite segmentMask_ones by lia.
  fold segLen. fold c.
  assert (Hcpos : 0 < c) by nia.
  set (N := high * 2 ^ 64 + low).
  set (mk := fun i =>
               Some (createSegment (segmentDigit N bits segLen i)
                       (segmentDigit N bits segLen i)
                       (getSegmentPrefixLength bits pl i))).
  change (fun i => let value := segmentDigit N bits segLen i in
                   Some (createSegment value value
                           (getSegmentPrefixLength bits pl i))) with mk.
  (* the digits taken from the low word *)
  assert (Hlowdigit : forall j k, 0 <= j -> j <= k -> segLen - c <= j ->
            k = segLen - 1 ->
            Some (createSegment
                    (Z.land (Z.ones bits) (toSegInt (Z.shiftr low (bits * (k - j)))))
                    (Z.land (Z.ones bits) (toSegInt (Z.shiftr low (bits * (k - j)))))
                    (getSegmentPrefixLength bits pl j))
            = mk j).
  { intros j k Hj Hjk Hcj Hk. unfold mk, segmentDigit.
    rewrite maskedDigit by nia.
    subst N. rewrite digit_of_low by nia.
    subst k. reflexivity. }
  (* the digits taken from the high word *)
  assert (Hhighdigit : forall j k, 0 <= j -> j <= k -> k = segLen - c - 1 ->
            Some (createSegment
                    (Z.land (Z.ones bits) (toSegInt (Z.shiftr high (bits * (k - j)))))
                    (Z.land (Z.ones bits) (toSegInt (Z.shiftr high (bits * (k - j)))))
                    (getSegmentPrefixLength bits pl j))
            = mk j).
  { intros j k Hj Hjk Hk. unfold mk, segmentDigit.
    rewrite maskedDigit by nia.
    subst N.
    replace (bits * (segLen - 1 - j)) with (64 + bits * (k - j)) by nia.
    rewrite digit_of_high by nia. reflexivity. }
  destruct (Z.ltb_spec (segLen - c) 0) as [Hshort|Hlong];
    [|destruct (Z.eq_dec (segLen - c) 0) as [Hzero|Hpos]].
  - (* fewer segments than 64 bits hold *)
    destruct (exists_last (l := segments)) as [todo [x Hx]].
    { intros Hnil. subst segLen. rewrite Hnil in Hlen. simpl in Hlen. lia. }
    cbn [uint64SegmentsOuter].
    replace (segLen - 1) with (0 + Z.of_nat (length todo))
      by (subst segLen; rewrite Hx, length_app; simpl length; lia).
    rewrite Hx at 2.
    rewrite (uint64SegmentsInner_spec creator (Z.ones bits) bits pl
               ltac:(lia) 0 (length todo) _ [] todo x [] low eq_refl eq_refl)
      by (rewrite Hx, length_app; simpl length; lia).
    cbn [bind Z.eqb app]. rewrite app_nil_r. f_equal.
    replace (length segments) with (S (length todo))
      by (rewrite Hx, length_app; simpl length; lia).
    apply map_ext_in. intros j Hj. apply zrange_In in Hj.
    apply Hlowdigit; try lia.
    subst segLen. rewrite Hx, length_app. simpl length. lia.
  - (* exactly the segments of the low word *)
    destruct (exists_last (l := segments)) as [todo [x Hx]].
    { intros Hnil. subst segLen. rewrite Hnil in Hlen. simpl in Hlen. lia. }
    cbn [uint64SegmentsOuter]. rewrite Hzero.
    replace (segLen - 1) with (0 + Z.of_nat (length todo))
      by (subst segLen; rewrite Hx, length_app; simpl length; lia).
    rewrite Hx at 2.
    rewrite (uint64SegmentsInner_spec creator (Z.ones bits) bits pl
               ltac:(lia) 0 (length todo) _ [] todo x [] low eq_refl eq_refl)
      by (rewrite Hx, length_app; simpl length; lia).
    cbn [bind Z.eqb app]. rewrite app_nil_r. f_equal.
    replace (length segments) with (S (length todo))
      by (rewrite Hx, length_app; simpl length; lia).
    apply map_ext_in. intros j Hj. apply zrange_In in Hj.
    apply Hlowdigit; try lia.
    subst segLen. rewrite Hx, length_app. simpl length. lia.
  - (* segments of the high word in front of those of the low word *)
    set (lo := segLen - c) in *.
    assert (Hlo : 0 < lo) by lia.
    pose proof (firstn_skipn (Z.to_nat lo) segments) as Hsplit.
    set (pre := firstn (Z.to_nat lo) segments) in *.
    assert (Hpre : Z.of_nat (length pre) = lo).
    { subst pre. rewrite length_firstn. subst segLen. lia. }
    destruct (exists_last (l := skipn (Z.to_nat lo) segments)) as [todo [x Hx]].
    { intros Hnil. apply (f_equal (@length _)) in Hnil.
      rewrite length_skipn in Hnil. simpl in Hnil. subst segLen. lia. }
    rewrite Hx in Hsplit.
    assert (Htodo : Z.of_nat (length todo) = c - 1).
    { apply (f_equal (@length _)) in Hsplit.
      rewrite !length_app in Hsplit. simpl length in Hsplit.
      subst segLen. lia. }
    destruct (exists_last (l := pre)) as [todo2 [x2 Hx2]].
    { intros Hnil. rewrite Hnil in Hpre. simpl in Hpre. lia. }
    assert (Htodo2 : Z.of_nat (length todo2) = lo - 1).
    { rewrite Hx2, length_app in Hpre. simpl length in Hpre. lia. }
    cbn [uint64SegmentsOuter].
    replace (if lo <? 0 then 0 else lo) with lo
      by (destruct (Z.ltb_spec lo 0); lia).
    replace (segLen - 1) with (lo + Z.of_nat (length todo)) by lia.
    rewrite <- Hsplit at 2.
    rewrite (uint64SegmentsInner_spec creator (Z.ones bits) bits pl
               ltac:(lia) lo (length todo) _ pre todo x [] low Hpre eq_refl)
      by (rewrite <- Hsplit, !length_app; simpl length; lia).
    cbn [bind]. rewrite app_nil_r.
    replace (lo =? 0) with false by (symmetry; apply Z.eqb_neq; lia).
    replace (lo - 1) with (0 + Z.of_nat (length todo2)) by lia.
    rewrite Hx2 at 1 2. rewrite <- !app_assoc. cbn [app].
    match goal with
    | |- context [uint64SegmentsInner _ _ _ ?fuel 0 _ high (todo2 ++ x2 :: ?done)] =>
      pose proof (uint64SegmentsInner_spec creator (Z.ones bits) bits pl
                    ltac:(lia) 0 (length todo2) fuel [] todo2 x2 done high
                    eq_refl eq_refl) as Hsecond
    end.
    cbn [app] in Hsecond.
    rewrite Hsecond
      by (rewrite length_app; lia).
    cbn [bind Z.eqb app]. f_equal.
    replace (length segments)
      with (S (length todo2) + S (length todo))%nat
      by (rewrite <- Hsplit, Hx2, !length_app; simpl length; lia).
    rewrite zrange_app, map_app. f_equal.
    + apply map_ext_in. intros j Hj. apply zrange_In in Hj.
      apply Hhighdigit; lia.
    + replace (0 + Z.of_nat (S (length todo2))) with lo by lia.
      apply map_ext_in. intros j Hj. apply zrange_In in Hj.
      apply Hlowdigit; lia.
Qed.

(** The two words 0x20010db800000000 and 1 give the eight segments of
    2001:db8::1. *)
Lemma createSegmentsUint64_digits_witness :
  createSegmentsUint64 (creator := ipv6Creator) (fun p _ bits => p / bits)
    (repeat None 8) 2306139568115548160 1 2 16 None
  = Ok [Some (mkDivision ipv6Seg 8193 8193 None);
        Some (mkDivision ipv6Seg 3512 3512 None);
        Some (mkDivision ipv6Seg 0 0 None); Some (mkDivision ipv6Seg 0 0 None);
        Some (mkDivision ipv6Seg 0 0 None); Some (mkDivision ipv6Seg 0 0 None);
        Some (mkDivision ipv6Seg 0 0 None); Some (mkDivision ipv6Seg 1 1 None)].
Proof.
  apply (createSegmentsUint64_digits ipv6Creator (fun p _ bits => p / bits)
           (repeat None 8) 2306139568115548160 1 2 16 None).
  - lia.
  - reflexivity.
  - simpl. lia.
  - lia.
  - lia.
Defined.

(** ** Address providers *)

Section ProviderProperties.

Import Provider.

Variable World : Type.

(** A provider that has answered once holds what it answered. *)
Lemma getCachedAddresses_stable :
  forall (cached : cachedAddressProvider World) (w : World),
    let '(r, cached', w') := getCachedAddresses cached w in
    forall w2,
      getCachedAddresses cached' w2 = (r, cached', w2) /\
      getProviderAddress cached' w2 = (address r, addrErr r, cached', w2) /\
      getProviderHostAddress cached' w2
      = (hostAddress r, hostErr r, cached', w2).
Proof.
  intros [[create|] [[a h ae he]|]] w; cbn.
  - intros w2. cbn. auto.
  - destruct (create w) as [[a h ae he] w'] eqn:Hc. cbn.
    intros w2. cbn. auto.
  - intros w2. cbn. auto.
  - intros w2. cbn. auto.
Qed.

(** X13: [getCachedAddresses] runs the stored creator at most once.
    A provider that holds addresses answers from them and runs
    nothing; and after any call, a further call of
    [getCachedAddresses], [getProviderAddress] or
    [getProviderHostAddress] returns the same addresses and errors,
    leaves the provider as it is and runs nothing. *)
Theorem getCachedAddresses_creates_once :
  forall (cached : cachedAddressProvider World) (w : World),
    let '(r, cached', w') := getCachedAddresses cached w in
    (addresses cached <> None -> cached' = cached /\ w' = w) /\
    (addresses cached = None ->
     forall create, addressCreator cached = Some create ->
       (r, w') = create w /\ addresses cached' = Some r) /\
    forall w2,
      getCachedAddresses cached' w2 = (r, cached', w2) /\
      getProviderAddress cached' w2 = (address r, addrErr r, cached', w2) /\
      getProviderHostAddress cached' w2
      = (hostAddress r, hostErr r, cached', w2).
Proof.
  intros cached w.
  pose proof (getCachedAddresses_stable cached w) as Hstable.
  destruct cached as [[create|] [[a h ae he]|]]; cbn in *.
  - split; [auto|]. split; [discriminate|exact Hstable].
  - destruct (create w) as [[a h ae he] w'] eqn:Hc. cbn in *.
    split; [congruence|]. split; [|exact Hstable].
    intros _ create' Hcreate. injection Hcreate as <-.
    rewrite Hc. auto.
  - split; [auto|]. split; [discriminate|exact Hstable].
  - split; [congruence|]. split; [discriminate|exact Hstable].
Qed.

(** X14: [getVersionedAddress] on a creator with its two entries. For
    the indeterminate version it returns nil and runs nothing. For IPv4
    and IPv6 it answers from the entry of the version, running nothing,
    when there is no creator function or the entry is not nil.
    Otherwise it runs the creator function once: when that returns an
    error, the address returned with the error is dropped, the answer
    is nil with that error and no entry changes; when it returns no
    error, the answer is the address it returned, stored in the entry
    of the version, and if that address is not nil a later call
    returns it again, with no error and without running anything. *)
Theorem getVersionedAddress_caches_successes :
  forall (versioned : versionedAddressCreator World) (version : IPVersion)
         (w : World),
    length (versionedValues versioned) = 2%nat ->
    let entry :=
      nth (Z.to_nat (index version)) (versionedValues versioned) None in
    (version = IndeterminateIPVersion ->
     getVersionedAddress versioned version w = Ok (None, None, versioned, w)) /\
    (version <> IndeterminateIPVersion ->
     (versionedAddressCreatorFunc versioned = None \/ entry <> None ->
      getVersionedAddress versioned version w = Ok (entry, None, versioned, w)) /\
     (forall create addr err w',
        versionedAddressCreatorFunc versioned = Some create ->
        entry = None ->
        create version w = (addr, err, w') ->
        (err <> None ->
         getVersionedAddress versioned version w
         = Ok (None, err, versioned, w')) /\
        (err = None ->
         let versioned' :=
           withVersionedValues versioned
             (setNth (versionedValues versioned) (Z.to_nat (index version))
                addr) in
         getVersionedAddress versioned version w
         = Ok (addr, None, versioned', w') /\
         (addr <> None ->
          forall w2,
            getVersionedAddress versioned' version w2
            = Ok (addr, None, versioned', w2))))).
Proof.
  intros versioned version w Hlen.
  destruct versioned as [cp av func values]. cbn in Hlen.
  destruct values as [|a [|b [|c values]]]; try discriminate.
  cbv zeta. cbn [versionedValues versionedAddressCreatorFunc].
  split; [intros ->; reflexivity|].
  intros Hversion. unfold getVersionedAddress, indexAt, assign.
  destruct version; try congruence; cbn [index];
    change (Z.to_nat 0) with 0%nat; change (Z.to_nat 1) with 1%nat;
    cbn [nth setNth versionedValues versionedAddressCreatorFunc].
  - (* IPv4 *)
    split.
    + intros [Hnone | Hentry].
      * subst func. reflexivity.
      * destruct a as [x|]; [|congruence].
        destruct func as [create|]; reflexivity.
    + intros create addr err w' -> -> Hcreate. cbn. rewrite Hcreate.
      split.
      * intros Herr. destruct err as [e|]; [reflexivity|congruence].
      * intros ->. split; [reflexivity|].
        intros Haddr w2. destruct addr as [x|]; [reflexivity|congruence].
  - (* IPv6 *)
    split.
    + intros [Hnone | Hentry].
      * subst func. reflexivity.
      * destruct b as [x|]; [|congruence].
        destruct func as [create|]; reflexivity.
    + intros create addr err w' -> -> Hcreate. cbn. rewrite Hcreate.
      split.
      * intros Herr. destruct err as [e|]; [reflexivity|congruence].
      * intros ->. split; [reflexivity|].
        intros Haddr w2. destruct addr as [x|]; [reflexivity|congruence].
Qed.

(** The creator of an adjusted provider answers again what it
    answered. *)
Lemma getAdjustedProviderAddress_stable :
  forall (adj : adjustedAddressCreator World) (w : World),
    let '(addr, err, adj', w') := getAdjustedProviderAddress adj w in
    forall w2, getAdjustedProviderAddress adj' w2 = (addr, err, adj', w2).
Proof.
  intros [[[[f|] [[a h ae he]|]] av create values] npl] w;
    unfold getAdjustedProviderAddress, isProvidingIPAddress, getProviderAddress;
    destruct av; cbn; try (intros w2; reflexivity);
    destruct (f w) as [[a h ae he] w']; cbn; intros w2; reflexivity.
Qed.

(** X15: the answer of [containsProviderFunc]. It is always set. It is
    false for an invalid operand, true when the receiver has no
    version, false for an operand of another version, true when the
    receiver has neither mask nor zone; otherwise it is false when the
    receiver's own address cannot be created and else the value of
    [functor] on the receiver's address and, again, the receiver's
    address: the address of the operand is not looked at. *)
Theorem containsProviderFunc_compares_own_address :
  forall (all : allCreator World) (otherProvider : ipAddressProvider World)
         (functor : option IPAddress -> option IPAddress -> bool) (w : World),
    let '(invalid, w1) := isInvalid otherProvider w in
    let '(otherVersion, w2) := getProviderIPVersion otherProvider w1 in
    let '(addr, err, _, _) := getAdjustedProviderAddress (adjusted all) w2 in
    fst (fst (containsProviderFunc all otherProvider functor w))
    = mkBoolSetting true
        (negb invalid &&
         (IPVersionEqb (allAdjustedVersion all) IndeterminateIPVersion ||
          (IPVersionEqb (allAdjustedVersion all) otherVersion &&
           ((negb (isSomeAddress (getMaskLower (allQualifier all))) &&
             String.eqb (getZone (allQualifier all)) NoZone) ||
            match err with
            | None => functor addr addr
            | Some _ => false
            end)))).
Proof.
  intros all other functor w. unfold containsProviderFunc.
  destruct (isInvalid other w) as [invalid w1]. cbv beta iota.
  destruct (getProviderIPVersion other w1) as [otherVersion w2] eqn:Hver.
  cbv beta iota.
  pose proof (getAdjustedProviderAddress_stable (adjusted all) w2) as Hstable.
  destruct (getAdjustedProviderAddress (adjusted all) w2)
    as [[[addr err] adj'] w3] eqn:Hfirst.
  cbv beta iota.
  destruct invalid; cbn [negb andb fst]; [reflexivity|].
  destruct (IPVersionEqb (allAdjustedVersion all) IndeterminateIPVersion);
    cbn [orb fst]; [reflexivity|].
  destruct (IPVersionEqb (allAdjustedVersion all) otherVersion);
    cbn [negb andb fst]; [|reflexivity].
  destruct (negb (isSomeAddress (getMaskLower (allQualifier all))) &&
            String.eqb (getZone (allQualifier all)) NoZone);
    cbn [orb fst]; [reflexivity|].
  destruct err as [e|]; cbn [fst]; [reflexivity|].
  cbn [withAdjusted adjusted]. rewrite Hstable. reflexivity.
Qed.

End ProviderProperties.

(** A creator with two empty entries whose function counts its runs in
    the state. Its first run fails: it returns 0.0.0.0 together with an
    error, and the caller gets nil with the error, nothing being
    stored. Its second run succeeds: the caller gets 0.0.0.0, which is
    stored in the IPv4 entry and returned by a later call in whatever
    state, the count of runs staying as it is. *)
Lemma getVersionedAddress_caches_successes_witness :
  let create :=
    fun (_ : Provider.IPVersion) (runs : nat) =>
      (Some zeroIPv4,
       match runs with O => Some SizeMismatch | S _ => None end,
       S runs) in
  let versioned :=
    Provider.mkVersionedAddressCreator
      (Provider.mkCachedAddressProvider None None) Provider.IPv4
      (Some create) [None; None] in
  let versioned' := Provider.withVersionedValues versioned [Some zeroIPv4; None] in
  Provider.getVersionedAddress versioned Provider.IPv4 0%nat
  = Ok (None, Some SizeMismatch, versioned, 1%nat) /\
  Provider.getVersionedAddress versioned Provider.IPv4 1%nat
  = Ok (Some zeroIPv4, None, versioned', 2%nat) /\
  Provider.getVersionedAddress versioned' Provider.IPv4 7%nat
  = Ok (Some zeroIPv4, None, versioned', 7%nat) /\
  Provider.getVersionedAddress versioned' Provider.IPv6 7%nat
  = Ok (Some zeroIPv4, None,
        Provider.withVersionedValues versioned [Some zeroIPv4; Some zeroIPv4],
        8%nat) /\
  Provider.getVersionedAddress versioned Provider.IndeterminateIPVersion 0%nat
  = Ok (None, None, versioned, 0%nat).
Proof.
  intros create versioned versioned'.
  assert (Hv4 : Provider.IPv4 <> Provider.IndeterminateIPVersion)
    by discriminate.
  assert (Hv6 : Provider.IPv6 <> Provider.IndeterminateIPVersion)
    by discriminate.
  assert (Herr : Some SizeMismatch <> None) by discriminate.
  assert (Haddr : Some zeroIPv4 <> None) by discriminate.
  destruct (getVersionedAddress_caches_successes nat versioned Provider.IPv4
              0%nat eq_refl) as [_ Hfirst].
  destruct (Hfirst Hv4) as [_ Hfirst'].
  destruct (Hfirst' create (Some zeroIPv4) (Some SizeMismatch) 1%nat
              eq_refl eq_refl eq_refl) as [Hfails _].
  destruct (getVersionedAddress_caches_successes nat versioned Provider.IPv4
              1%nat eq_refl) as [_ Hsecond].
  destruct (Hsecond Hv4) as [_ Hsecond'].
  destruct (Hsecond' create (Some zeroIPv4) None 2%nat
              eq_refl eq_refl eq_refl) as [_ Hstores].
  destruct (Hstores eq_refl) as [Hstored Hagain].
  destruct (getVersionedAddress_caches_successes nat versioned' Provider.IPv6
              7%nat eq_refl) as [_ Hother].
  destruct (Hother Hv6) as [_ Hother'].
  destruct (Hother' create (Some zeroIPv4) None 8%nat
              eq_refl eq_refl eq_refl) as [_ Hstores6].
  destruct (Hstores6 eq_refl) as [Hstored6 _].
  destruct (getVersionedAddress_caches_successes nat versioned
              Provider.IndeterminateIPVersion 0%nat eq_refl) as [Hnone _].
  split; [exact (Hfails Herr)|].
  split; [exact Hstored|].
  split; [exact (Hagain Haddr 7%nat)|].
  split; [exact Hstored6|].
  exact (Hnone eq_refl).
Defined.

(** ** Address classes *)

(** X16: an IPv4 address that [IsLinkLocal] reports, unicast
    (169.254/16) or multicast (224.0.0.252), is reported by [IsLocal]
    too. *)
Theorem IsLinkLocalIPv4_is_local :
  forall addr : IPv4Address,
    IsLinkLocalIPv4 addr = Ok true -> IsLocalIPv4 addr = Ok true.
Proof.
  intros addr H. unfold IsLocalIPv4.
  destruct (IsMulticastIPv4 addr) as [m| | |] eqn:Hm;
    try (unfold IsLinkLocalIPv4 in H; rewrite Hm in H; discriminate).
  cbn [bind]. destruct m.
  - unfold IsLinkLocalIPv4 in H. rewrite Hm in H. cbn [bind] in H.
    unfold andAlso, matchesAt, isZeroAt in H.
    destruct (GetSegmentIPv4 addr 0) as [s0| | |]; try discriminate.
    cbn [bind] in *.
    destruct (Matches s0 224) eqn:H224; [|discriminate].
    destruct (GetSegmentIPv4 addr 1) as [s1| | |]; try discriminate.
    cbn [bind] in *.
    destruct (IsZeroSeg s1); [|discriminate].
    destruct (GetSegmentIPv4 addr 2) as [s2| | |]; try discriminate.
    cbn [bind] in *.
    destruct (IsZeroSeg s2); [|discriminate].
    destruct (Matches s0 239); reflexivity.
  - rewrite H. reflexivity.
Qed.

(** 169.254.1.1 and 224.0.0.252. *)
Lemma IsLinkLocalIPv4_is_local_witness :
  IsLocalIPv4 (newIPv4Address (ipv4SectionOf [169; 254; 1; 1])) = Ok true /\
  IsLocalIPv4 (newIPv4Address (ipv4SectionOf [224; 0; 0; 252])) = Ok true.
Proof.
  split; apply IsLinkLocalIPv4_is_local; reflexivity.
Defined.

(** A single value of an IPv4 segment that starts a private network
    does not start a multicast one. *)
Lemma private_start_not_multicast :
  forall seg0 : AddressDivision,
    kind seg0 = ipv4Seg ->
    Matches seg0 10 || Matches seg0 172 || Matches seg0 192 = true ->
    MatchesWithPrefixMask seg0 224 4 = false.
Proof.
  intros [k v u p] Hk H. cbn in Hk. subst k.
  unfold Matches, isMultipleSeg in H. cbn [value upperValue] in H.
  assert (Hv : v = u /\ (v = 10 \/ v = 172 \/ v = 192)).
  { destruct (Z.eqb_spec v u) as [->|]; [|discriminate H]. split; [reflexivity|].
    cbn [negb andb] in H.
    destruct (Z.eqb_spec u 10); [auto|].
    destruct (Z.eqb_spec u 172); [auto|].
    destruct (Z.eqb_spec u 192); [auto|discriminate H]. }
  destruct Hv as [<- [-> | [-> | ->]]]; reflexivity.
Qed.

(** X17: an IPv4 address that [IsPrivate] reports (10/8, 172.16/12,
    192.168/16) is reported by [IsLocal] too; the first segment is an
    IPv4 segment. *)
Theorem IsPrivateIPv4_is_local :
  forall (addr : IPv4Address) (seg0 : AddressDivision),
    GetSegmentIPv4 addr 0 = Ok seg0 ->
    kind seg0 = ipv4Seg ->
    IsPrivateIPv4 addr = Ok true ->
    IsLocalIPv4 addr = Ok true.
Proof.
  intros addr seg0 Hseg0 Hkind H.
  unfold IsPrivateIPv4 in H. rewrite Hseg0 in H. cbn [bind] in H.
  destruct (GetSegmentIPv4 addr 1) as [seg1| | |] eqn:Hseg1; try discriminate.
  cbn [bind] in H. injection H as H.
  assert (Hm : MatchesWithPrefixMask seg0 224 4 = false).
  { apply private_start_not_multicast; [exact Hkind|].
    destruct (Matches seg0 10); [reflexivity|].
    destruct (Matches seg0 172); [reflexivity|].
    destruct (Matches seg0 192); [reflexivity|].
    cbn in H. discriminate H. }
  unfold IsLocalIPv4, IsLinkLocalIPv4, IsPrivateIPv4, IsMulticastIPv4.
  rewrite Hseg0. cbn [bind]. rewrite Hm.
  unfold orElse, andAlso, matchesAt. rewrite Hseg0, Hseg1. cbn [bind].
  rewrite H.
  destruct (Matches seg0 169); [destruct (Matches seg1 254)|]; reflexivity.
Qed.

(** 10.1.2.3, 172.20.0.1 and 192.168.0.1. *)
Lemma IsPrivateIPv4_is_local_witness :
  IsLocalIPv4 (newIPv4Address (ipv4SectionOf [10; 1; 2; 3])) = Ok true /\
  IsLocalIPv4 (newIPv4Address (ipv4SectionOf [172; 20; 0; 1])) = Ok true /\
  IsLocalIPv4 (newIPv4Address (ipv4SectionOf [192; 168; 0; 1])) = Ok true.
Proof.
  split; [|split].
  - apply (IsPrivateIPv4_is_local _ (mkDivision ipv4Seg 10 10 None));
      reflexivity.
  - apply (IsPrivateIPv4_is_local _ (mkDivision ipv4Seg 172 172 None));
      reflexivity.
  - apply (IsPrivateIPv4_is_local _ (mkDivision ipv4Seg 192 192 None));
      reflexivity.
Defined.

(** The loop of [IPv6Address.IsLoopback] over a run of segments. *)
Lemma leadingAreZero_run :
  forall (sec : IPAddressSection) (z : Zone) (run pre tail : list AddressDivision),
    divisions sec = pre ++ run ++ tail ->
    leadingAreZero (mkAddress (Some sec) z) (length run) (Z.of_nat (length pre))
    = Ok (forallb IsZeroSeg run).
Proof.
  intros sec z run. induction run as [|seg run IH]; intros pre tail Hsec.
  - reflexivity.
  - cbn [length leadingAreZero forallb].
    unfold GetSegmentIPv6, getDivision, GetSectionIPv6. cbn [section].
    rewrite Hsec. cbn [app]. rewrite indexAt_app. cbn [bind].
    destruct (IsZeroSeg seg); cbn [negb andb]; [|reflexivity].
    replace (Z.of_nat (length pre) + 1) with (Z.of_nat (length (pre ++ [seg])))
      by (rewrite length_app; simpl; lia).
    unfold GetSegmentIPv6, getDivision, GetSectionIPv6 in IH. cbn [section] in IH.
    apply (IH (pre ++ [seg]) tail).
    rewrite <- app_assoc. exact Hsec.
Qed.

(** X18: [IPv6Address.IsLoopback] is false for an address without
    section; for a section with segments it holds exactly when every
    segment before the last is zero and the last one is the single
    value 1, whatever the number of segments; a section without
    segments makes it panic. *)
Theorem IsLoopbackIPv6_shape :
  forall (sec : IPAddressSection) (z : Zone),
    IsLoopbackIPv6 (mkAddress None z) = Ok false /\
    IsLoopbackIPv6 (mkAddress (Some sec) z)
    = match divisions sec with
      | [] => Panic
      | _ :: _ =>
        Ok (forallb IsZeroSeg (removelast (divisions sec)) &&
            Matches (last (divisions sec) zeroIPv6Seg) 1)
      end.
Proof.
  intros sec z. split; [reflexivity|].
  unfold IsLoopbackIPv6, isNil, GetSegmentCountIPv6, GetSectionIPv6,
    GetSegmentCount. cbn [section].
  destruct (divisions sec) as [|d ds] eqn:Hsec.
  - cbn. unfold GetSegmentIPv6, getDivision, GetSectionIPv6. cbn [section].
    rewrite Hsec. reflexivity.
  - destruct (exists_last (l := d :: ds)) as [front [lst Hlast]];
      [discriminate|].
    rewrite Hlast, removelast_last, last_last, length_app. cbn [length].
    replace (Z.of_nat (length front + 1) - 1) with (Z.of_nat (length front))
      by lia.
    rewrite Nat2Z.id.
    pose proof (leadingAreZero_run sec z front [] [lst]) as Hrun.
    cbn [length app Z.of_nat] in Hrun.
    rewrite Hrun by (rewrite Hsec, Hlast; reflexivity).
    cbn [bind]. destruct (forallb IsZeroSeg front); cbn [andb]; [|reflexivity].
    unfold GetSegmentIPv6, getDivision, GetSectionIPv6. cbn [section].
    rewrite Z.max_r by lia. rewrite Hsec, Hlast, indexAt_app. reflexivity.
Qed.

(** ** Masking with a prefix length out of range *)

(** X19: [getSubnetSegments], verifying the mask and deriving single
    sections, does not stop at a prefix length below 0 or above the bit
    count: it goes on masking. When every segment stays sequential it
    returns a section and, with it, the prefix-length error; when one
    does not, it returns no section and the mask error, and the
    prefix-length error is lost. *)
Theorem getSubnetSegments_prefix_error_keeps_result :
  forall (sec other : IPAddressSection) (p : BitCount),
    p < 0 \/ GetSectionBitCount sec < p ->
    (length (divisions sec) <= length (divisions other))%nat ->
    exists res err,
      getSubnetSegments sec (Some p) true (getDivision sec)
        (fun i => seg <- getDivision other i ;; Ok (GetSegmentValue seg)) true
      = Ok (res, err) /\
      (allSequential (divisions sec) (divisions other) = true ->
       res <> None /\ err = Some PrefixLengthOutOfRange) /\
      (allSequential (divisions sec) (divisions other) = false ->
       res = None /\ err = Some MaskRangeIncompatible).
Proof.
  intros sec other p Hp Hlen. unfold getSubnetSegments.
  assert (Herr : (if (p <? 0) || (GetSectionBitCount sec <? p)
                  then Some PrefixLengthOutOfRange else None)
                 = Some PrefixLengthOutOfRange).
  { destruct Hp as [Hp|Hp].
    - apply Z.ltb_lt in Hp. rewrite Hp. reflexivity.
    - apply Z.ltb_lt in Hp. rewrite Hp, orb_true_r. reflexivity. }
  rewrite Herr. unfold GetSegmentCount. rewrite Nat2Z.id.
  pose proof (subnetSegmentsScan_spec sec other (Some p) true
                (Some PrefixLengthOutOfRange) (divisions sec) (divisions other)
                [] [] eq_refl eq_refl eq_refl Hlen) as Hscan.
  cbn [length Z.of_nat app] in Hscan. rewrite Hscan.
  destruct (allSequential (divisions sec) (divisions other)).
  - destruct (allUnchanged _ _ _ _ _).
    + eexists _, _. split; [reflexivity|].
      split; [intros _; split; [discriminate|reflexivity]|discriminate].
    + unfold deriveIPAddressSectionSingle. cbn [negb bind].
      eexists _, _. split; [reflexivity|].
      split; [intros _; split; [discriminate|reflexivity]|discriminate].
  - eexists _, _. split; [reflexivity|].
    split; [discriminate|intros _; split; reflexivity].
Qed.

(** 1.2.3.4 with prefix length 40, masked with 255.255.0.0, gives
    1.2.0.0 together with the prefix-length error. *)
Lemma getSubnetSegments_prefix_error_keeps_result_witness :
  exists res err,
    getSubnetSegments (ipv4SectionOf [1; 2; 3; 4]) (Some 40) true
      (getDivision (ipv4SectionOf [1; 2; 3; 4]))
      (fun i => seg <- getDivision (ipv4SectionOf [255; 255; 0; 0]) i ;;
                Ok (GetSegmentValue seg)) true
    = Ok (res, err) /\
    (allSequential (divisions (ipv4SectionOf [1; 2; 3; 4]))
       (divisions (ipv4SectionOf [255; 255; 0; 0])) = true ->
     res <> None /\ err = Some PrefixLengthOutOfRange) /\
    (allSequential (divisions (ipv4SectionOf [1; 2; 3; 4]))
       (divisions (ipv4SectionOf [255; 255; 0; 0])) = false ->
     res = None /\ err = Some MaskRangeIncompatible).
Proof.
  apply (getSubnetSegments_prefix_error_keeps_result
           (ipv4SectionOf [1; 2; 3; 4]) (ipv4SectionOf [255; 255; 0; 0]) 40).
  - right. vm_compute. reflexivity.
  - simpl. lia.
Defined.
